(** * addressBook.py: a shallow embedding and its verified properties

    The program is a command-line contact manager.  Its classes ([Field],
    [Name], [Phone], [Birthday], [Record], [AddressBook]) become records
    and functions; exceptions become a sum type; the handlers, which
    mutate the book they are given, become state-passing computations
    that return the book they leave behind, also when they raise.

    Text.  A Python [str] is a sequence of code points.  The embedding
    uses [string], whose characters are the code points U+0000..U+00FF;
    on that range [\d], [str.isspace] and [str.lower] are exactly the
    functions [isdigit], [isspace] and [lower_char] below. *)

From Stdlib Require Import String Ascii List Bool Arith ZArith Lia.
From Stdlib Require Import DecimalString DecimalNat.
Import ListNotations.
Local Open Scope string_scope.

(* ================================================================== *)
(** ** Exceptions and results *)

(** The exception classes the program can meet, each carrying [str(e)]. *)
Inductive exn : Type :=
| ValueError (msg : string)
| IndexError (msg : string)
| KeyError (msg : string)
| OverflowError (msg : string)
| FileNotFoundError (msg : string)
| PermissionError (msg : string)
| UnpicklingError (msg : string)
| EOFError (msg : string)
| OSError (msg : string).

(** [str(e)]. *)
Definition exn_str (e : exn) : string :=
  match e with
  | ValueError m | IndexError m | KeyError m | OverflowError m
  | FileNotFoundError m | PermissionError m | UnpicklingError m
  | EOFError m | OSError m => m
  end.

Inductive result (A : Type) : Type :=
| Return (a : A)
| Raise (e : exn).
Arguments Return {A} a.
Arguments Raise {A} e.

Definition is_return {A} (r : result A) : bool :=
  match r with Return _ => true | Raise _ => false end.

Definition rbind {A B} (r : result A) (k : A -> result B) : result B :=
  match r with
  | Return a => k a
  | Raise e => Raise e
  end.

(* ================================================================== *)
(** ** Text primitives of the Python runtime *)

Definition newline : ascii := ascii_of_nat 10.

(** [\d] on a [str] pattern: the decimal digits. *)
Definition isdigit (c : ascii) : bool :=
  let n := nat_of_ascii c in ((48 <=? n) && (n <=? 57))%nat.

(** [str.isspace] on one character: TAB..CR, FS..US, space, NEL, NBSP. *)
Definition isspace (c : ascii) : bool :=
  let n := nat_of_ascii c in
  (((9 <=? n) && (n <=? 13)) || ((28 <=? n) && (n <=? 32))
   || (n =? 133) || (n =? 160))%nat.

(** [str.lower] on one character: A-Z and the Latin-1 capitals. *)
Definition lower_char (c : ascii) : ascii :=
  let n := nat_of_ascii c in
  if (((65 <=? n) && (n <=? 90))
      || ((192 <=? n) && (n <=? 222) && negb (n =? 215)))%nat
  then ascii_of_nat (n + 32) else c.

Fixpoint lower (s : string) : string :=
  match s with
  | "" => ""
  | String c s' => String (lower_char c) (lower s')
  end.

Fixpoint str_all (p : ascii -> bool) (s : string) : bool :=
  match s with
  | "" => true
  | String c s' => p c && str_all p s'
  end.

Fixpoint lstrip (s : string) : string :=
  match s with
  | "" => ""
  | String c s' => if isspace c then lstrip s' else s
  end.

Fixpoint rstrip (s : string) : string :=
  match s with
  | "" => ""
  | String c s' =>
      match rstrip s' with
      | "" => if isspace c then "" else String c ""
      | r => String c r
      end
  end.

(** [s.strip()]. *)
Definition strip (s : string) : string := rstrip (lstrip s).

(** [s.split()]: scan, closing the token [cur] at each whitespace. *)
Fixpoint split_scan (cur : option string) (s : string) : list string :=
  match s with
  | "" => match cur with Some w => [w] | None => [] end
  | String c s' =>
      if isspace c then
        match cur with
        | Some w => w :: split_scan None s'
        | None => split_scan None s'
        end
      else
        match cur with
        | Some w => split_scan (Some (w ++ String c "")) s'
        | None => split_scan (Some (String c "")) s'
        end
  end.

Definition split (s : string) : list string := split_scan None s.

(** [sep.join(xs)]. *)
Fixpoint join (sep : string) (xs : list string) : string :=
  match xs with
  | [] => ""
  | [x] => x
  | x :: rest => x ++ sep ++ join sep rest
  end.

(* ================================================================== *)
(** ** The fragment of [re] the program uses

    [re.match(pattern, s)] anchors at position 0.  The fragment has no
    alternation and no open repetition, so matching is a deterministic
    walk; a position is the number of characters passed and the rest. *)

Inductive regex : Type :=
| Caret                          (* ^ *)
| Dollar                         (* $ *)
| Digit                          (* \d *)
| Repeat (n : nat) (r : regex)   (* r{n} *)
| Seq (r1 r2 : regex).

Definition pos : Type := (nat * string)%type.

Fixpoint rmatch (r : regex) (p : pos) : option pos :=
  match r with
  | Caret => if (fst p =? 0)%nat then Some p else None
  | Dollar =>
      (* end of the string, or just before a newline that ends it *)
      match snd p with
      | "" => Some p
      | String c "" => if Ascii.eqb c newline then Some p else None
      | _ => None
      end
  | Digit =>
      match snd p with
      | String c s' => if isdigit c then Some (S (fst p), s') else None
      | "" => None
      end
  | Repeat n a =>
      (fix rep (k : nat) (q : pos) : option pos :=
         match k with
         | 0 => Some q
         | S k' => match rmatch a q with
                   | Some q' => rep k' q'
                   | None => None
                   end
         end) n p
  | Seq a b =>
      match rmatch a p with
      | Some q => rmatch b q
      | None => None
      end
  end.

(** [bool(re.match(r, s))]. *)
Definition re_match (r : regex) (s : string) : bool :=
  match rmatch r (0, s) with Some _ => true | None => false end.

(* ================================================================== *)
(** ** Field, Name, Phone *)

Module Name.

Record t : Type := mk { value : string }.

(** [Name(value)]: [value] is stored as given, not stripped. *)
Definition init (v : string) : result t :=
  if String.eqb (strip v) "" then
    Raise (ValueError "Name cannot be empty or just whitespace.")
  else Return (mk v).

End Name.

Module Phone.

Record t : Type := mk { value : string }.

(** The pattern [^\d{10}$]. *)
Definition pattern : regex := Seq Caret (Seq (Repeat 10 Digit) Dollar).

Definition validate (v : string) : bool := re_match pattern v.

Definition invalid_msg (v : string) : string :=
  "Invalid phone number: " ++ v ++ ". It must contain exactly 10 digits.".

(** [Phone(value)]. *)
Definition init (v : string) : result t :=
  if negb (validate v) then Raise (ValueError (invalid_msg v))
  else Return (mk v).

(** What the error message and the comment ask for: ten characters,
    each a decimal digit. *)
Definition ten_digits (v : string) : bool :=
  (String.length v =? 10)%nat && str_all isdigit v.

End Phone.

(* ================================================================== *)
(** ** Calendar dates of the [datetime] module

    Proleptic Gregorian dates with years 1..9999, as [datetime.date]
    has them: field checks at construction, ordinals for arithmetic,
    comparison on (year, month, day). *)

Module Date.

Local Open Scope Z_scope.

Record t : Type := mk { year : Z; month : Z; day : Z }.

Definition MINYEAR : Z := 1.
Definition MAXYEAR : Z := 9999.

Definition is_leap (y : Z) : bool :=
  (y mod 4 =? 0) && (negb (y mod 100 =? 0) || (y mod 400 =? 0)).

Definition DAYS_IN_MONTH (m : Z) : Z :=
  match m with
  | 1 => 31 | 2 => 28 | 3 => 31 | 4 => 30 | 5 => 31 | 6 => 30
  | 7 => 31 | 8 => 31 | 9 => 30 | 10 => 31 | 11 => 30 | 12 => 31
  | _ => 0
  end.

Definition DAYS_BEFORE_MONTH (m : Z) : Z :=
  match m with
  | 1 => 0 | 2 => 31 | 3 => 59 | 4 => 90 | 5 => 120 | 6 => 151
  | 7 => 181 | 8 => 212 | 9 => 243 | 10 => 273 | 11 => 304 | 12 => 334
  | _ => 0
  end.

Definition days_in_month (y m : Z) : Z :=
  if (m =? 2) && is_leap y then 29 else DAYS_IN_MONTH m.

Definition days_before_year (y : Z) : Z :=
  let y' := y - 1 in y' * 365 + y' / 4 - y' / 100 + y' / 400.

Definition days_before_month (y m : Z) : Z :=
  DAYS_BEFORE_MONTH m + (if (2 <? m) && is_leap y then 1 else 0).

Definition ymd2ord (y m d : Z) : Z :=
  days_before_year y + days_before_month y m + d.

Definition DI400Y : Z := 146097.
Definition DI100Y : Z := 36524.
Definition DI4Y : Z := 1461.
Definition MAXORDINAL : Z := 3652059.

(** [_ord2ymd]: the inverse of [ymd2ord], by 400-, 100-, 4- and 1-year
    cycles and an estimate of the month that is corrected downwards. *)
Definition ord2ymd (n0 : Z) : t :=
  let n := n0 - 1 in
  let n400 := n / DI400Y in
  let n := n mod DI400Y in
  let n100 := n / DI100Y in
  let n := n mod DI100Y in
  let n4 := n / DI4Y in
  let n := n mod DI4Y in
  let n1 := n / 365 in
  let n := n mod 365 in
  let y := n400 * 400 + 1 + n100 * 100 + n4 * 4 + n1 in
  if (n1 =? 4) || (n100 =? 4) then mk (y - 1) 12 31
  else
    let leapyear := (n1 =? 3) && (negb (n4 =? 24) || (n100 =? 3)) in
    let m := Z.shiftr (n + 50) 5 in
    let preceding :=
      DAYS_BEFORE_MONTH m + (if (2 <? m) && leapyear then 1 else 0) in
    if n <? preceding then
      let m' := m - 1 in
      let preceding' :=
        preceding
        - (DAYS_IN_MONTH m' + (if (m' =? 2) && leapyear then 1 else 0)) in
      mk y m' (n - preceding' + 1)
    else mk y m (n - preceding + 1).

(** [date(year, month, day)]: the field checks of the constructor. *)
Definition new (y m d : Z) : result t :=
  if negb ((MINYEAR <=? y) && (y <=? MAXYEAR)) then
    Raise (ValueError "year is out of range")
  else if negb ((1 <=? m) && (m <=? 12)) then
    Raise (ValueError "month must be in 1..12")
  else if negb ((1 <=? d) && (d <=? days_in_month y m)) then
    Raise (ValueError "day is out of range for month")
  else Return (mk y m d).

(** [d.replace(year=y)]: a new date, through the constructor. *)
Definition replace_year (d : t) (y : Z) : result t :=
  new y (month d) (day d).

Definition toordinal (d : t) : Z := ymd2ord (year d) (month d) (day d).

(** [d + timedelta(days=n)]. *)
Definition add_days (d : t) (n : Z) : result t :=
  let o := toordinal d + n in
  if (0 <? o) && (o <=? MAXORDINAL) then Return (ord2ymd o)
  else Raise (OverflowError "date value out of range").

(** [a <= b]: comparison of the (year, month, day) triples. *)
Definition le (a b : t) : bool :=
  (year a <? year b)
  || ((year a =? year b)
      && ((month a <? month b)
          || ((month a =? month b) && (day a <=? day b)))).

(** The dates the constructor accepts. *)
Definition valid (d : t) : bool :=
  (MINYEAR <=? year d) && (year d <=? MAXYEAR)
  && (1 <=? month d) && (month d <=? 12)
  && (1 <=? day d) && (day d <=? days_in_month (year d) (month d)).

End Date.

(* ================================================================== *)
(** ** [datetime.strptime(value, "%d.%m.%Y")] and [strftime]

    The format compiles to the regular expression
    [(3[0-1]|[1-2]\d|0[1-9]|[1-9]| [1-9])\.(1[0-2]|0[1-9]|[1-9])\.(\d\d\d\d)];
    each field below lists what its alternatives accept, in the order
    the matcher tries them.  The first way through wins, then the whole
    input must have been used, then the date is built. *)

Definition digit_val (c : ascii) : Z := Z.of_nat (nat_of_ascii c - 48).

Definition in_range (lo hi : nat) (c : ascii) : bool :=
  let n := nat_of_ascii c in ((lo <=? n) && (n <=? hi))%nat.

(** One alternative of a field: its value and the rest, when it applies. *)
Definition alt (b : bool) (v : Z) (r : string) : list (Z * string) :=
  if b then [(v, r)] else [].

(** [%d]. *)
Definition day_field (s : string) : list (Z * string) :=
  (match s with
   | String a (String b r) =>
       alt (Ascii.eqb a "3" && in_range 48 49 b) (30 + digit_val b) r
       ++ alt (in_range 49 50 a && isdigit b)
              (10 * digit_val a + digit_val b) r
       ++ alt (Ascii.eqb a "0" && in_range 49 57 b) (digit_val b) r
   | _ => []
   end
   ++ match s with
      | String a r => alt (in_range 49 57 a) (digit_val a) r
      | _ => []
      end
   ++ match s with
      | String a (String b r) =>
          alt (Ascii.eqb a " " && in_range 49 57 b) (digit_val b) r
      | _ => []
      end)%list.

(** [%m]. *)
Definition month_field (s : string) : list (Z * string) :=
  (match s with
   | String a (String b r) =>
       alt (Ascii.eqb a "1" && in_range 48 50 b) (10 + digit_val b) r
       ++ alt (Ascii.eqb a "0" && in_range 49 57 b) (digit_val b) r
   | _ => []
   end
   ++ match s with
      | String a r => alt (in_range 49 57 a) (digit_val a) r
      | _ => []
      end)%list.

(** [%Y]. *)
Definition year_field (s : string) : list (Z * string) :=
  match s with
  | String a (String b (String c (String d r))) =>
      alt (isdigit a && isdigit b && isdigit c && isdigit d)
          (1000 * digit_val a + 100 * digit_val b
           + 10 * digit_val c + digit_val d) r
  | _ => []
  end.

(** A literal dot. *)
Definition dot (s : string) : list string :=
  match s with
  | String c r => if Ascii.eqb c "." then [r] else []
  | "" => []
  end.

Definition strptime_matches (s : string) : list (Z * Z * Z * string) :=
  flat_map (fun '(d, r1) =>
    flat_map (fun r2 =>
      flat_map (fun '(m, r3) =>
        flat_map (fun r4 =>
          map (fun '(y, r5) => (d, m, y, r5)) (year_field r4))
          (dot r3))
        (month_field r2))
      (dot r1))
    (day_field s).

Definition strptime (s : string) : result Date.t :=
  match strptime_matches s with
  | [] =>
      Raise (ValueError ("time data " ++ s ++ " does not match format"))
  | (d, m, y, rest) :: _ =>
      if negb (String.eqb rest "") then
        Raise (ValueError ("unconverted data remains: " ++ rest))
      else Date.new y m d
  end.

Definition nat_str (n : nat) : string :=
  NilEmpty.string_of_uint (Nat.to_uint n).

Definition pad2 (n : Z) : string :=
  let s := nat_str (Z.to_nat n) in
  if (n <? 10)%Z then "0" ++ s else s.

(** The year on four digits, as [%Y] reads it. *)
Definition pad4 (n : Z) : string :=
  let s := nat_str (Z.to_nat n) in
  if (n <? 10)%Z then "000" ++ s
  else if (n <? 100)%Z then "00" ++ s
  else if (n <? 1000)%Z then "0" ++ s else s.

(** [d.strftime('%d.%m.%Y')]: day and month on two digits, the year
    as the C library prints it, without padding (987 for the year 987). *)
Definition strftime (d : Date.t) : string :=
  pad2 (Date.day d) ++ "." ++ pad2 (Date.month d) ++ "."
  ++ nat_str (Z.to_nat (Date.year d)).

Module Birthday.

(** The stored value is a [datetime] at midnight: its date. *)
Record t : Type := mk { value : Date.t }.

(** [Birthday(value)]: every [ValueError] of the parse is replaced. *)
Definition init (v : string) : result t :=
  match strptime v with
  | Return d => Return (mk d)
  | Raise (ValueError _) =>
      Raise (ValueError "Invalid date format. Use DD.MM.YYYY")
  | Raise e => Raise e
  end.

End Birthday.

(* ================================================================== *)
(** ** Record

    The class [Record]; the module is [Rcd], [Record] being a keyword. *)

Module Rcd.

Record t : Type := mk {
  name : Name.t;
  phones : list Phone.t;
  birthday : option Birthday.t
}.

Definition set_phones (r : t) (ps : list Phone.t) : t :=
  mk (name r) ps (birthday r).

Definition set_birthday (r : t) (b : option Birthday.t) : t :=
  mk (name r) (phones r) b.

(** [Record(name)]. *)
Definition init (n : string) : result t :=
  rbind (Name.init n) (fun nm => Return (mk nm [] None)).

(** [add_phone]: the phone is built first, then appended. *)
Definition add_phone (r : t) (phone : string) : result t :=
  rbind (Phone.init phone) (fun p => Return (set_phones r (phones r ++ [p])%list)).

Definition remove_phone (r : t) (phone : string) : t :=
  set_phones r
    (filter (fun p => negb (String.eqb (Phone.value p) phone)) (phones r)).

(** The loop of [edit_phone] over the entries from index [i] on: the
    first entry equal to [old_phone] is overwritten with
    [Phone(new_phone)], built only there, and the loop breaks. *)
Fixpoint edit_loop (ps : list Phone.t) (old_phone new_phone : string)
  : result (list Phone.t) :=
  match ps with
  | [] => Return []
  | p :: rest =>
      if String.eqb (Phone.value p) old_phone then
        rbind (Phone.init new_phone) (fun q => Return (q :: rest))
      else
        rbind (edit_loop rest old_phone new_phone)
              (fun rest' => Return (p :: rest'))
  end.

Definition edit_phone (r : t) (old_phone new_phone : string) : result t :=
  rbind (edit_loop (phones r) old_phone new_phone)
        (fun ps => Return (set_phones r ps)).

Fixpoint find_loop (ps : list Phone.t) (phone : string) : option string :=
  match ps with
  | [] => None
  | p :: rest =>
      if String.eqb (Phone.value p) phone then Some (Phone.value p)
      else find_loop rest phone
  end.

Definition find_phone (r : t) (phone : string) : option string :=
  find_loop (phones r) phone.

Definition add_birthday (r : t) (b : string) : result t :=
  rbind (Birthday.init b) (fun bd => Return (set_birthday r (Some bd))).

(** [__str__]. *)
Definition to_str (r : t) : string :=
  "Contact name: " ++ Name.value (name r)
  ++ ", phones: " ++ join "; " (map Phone.value (phones r))
  ++ ", birthday: "
  ++ match birthday r with
     | Some b => strftime (Birthday.value b)
     | None => "No birthday"
     end.

(** The values of the phone entries, in order. *)
Definition phone_values (r : t) : list string := map Phone.value (phones r).

End Rcd.

(* ================================================================== *)
(** ** AddressBook

    [UserDict.data] is a [dict]: an insertion-ordered mapping.  It is an
    association list in insertion order; assigning to a key that is
    present overwrites its value where it stands, assigning to a new key
    appends.  A list that really is a [dict] has no key twice ([wf]). *)

Module AddressBook.

Definition t : Type := list (string * Rcd.t).

Definition keys (d : t) : list string := map fst d.
Definition values (d : t) : list Rcd.t := map snd d.

Definition wf (d : t) : Prop := NoDup (keys d).

(** [d.get(k)]. *)
Fixpoint get (d : t) (k : string) : option Rcd.t :=
  match d with
  | [] => None
  | (k', v) :: rest => if String.eqb k' k then Some v else get rest k
  end.

(** [d[k] = v]. *)
Fixpoint setitem (d : t) (k : string) (v : Rcd.t) : t :=
  match d with
  | [] => [(k, v)]
  | (k', v') :: rest =>
      if String.eqb k' k then (k', v) :: rest
      else (k', v') :: setitem rest k v
  end.

(** [del d[k]], for a key that is present. *)
Fixpoint delitem (d : t) (k : string) : t :=
  match d with
  | [] => []
  | (k', v) :: rest =>
      if String.eqb k' k then rest else (k', v) :: delitem rest k
  end.

(** [k in d]. *)
Definition contains (d : t) (k : string) : bool :=
  match get d k with Some _ => true | None => false end.

Definition empty : t := [].

Definition add_record (book : t) (record : Rcd.t) : t :=
  setitem book (Name.value (Rcd.name record)) record.

Definition find (book : t) (name : string) : option Rcd.t := get book name.

Definition delete (book : t) (name : string) : t :=
  if contains book name then delitem book name else book.

(** The loop of [get_upcoming_birthdays] over [self.data.values()]. *)
Fixpoint upcoming_loop (today next_week : Date.t) (rs : list Rcd.t)
  (upcoming : list string) : result (list string) :=
  match rs with
  | [] => Return upcoming
  | record :: rest =>
      match Rcd.birthday record with
      | Some b =>
          rbind (Date.replace_year (Birthday.value b) (Date.year today))
            (fun bday_this_year =>
               if Date.le today bday_this_year
                  && Date.le bday_this_year next_week
               then upcoming_loop today next_week rest
                      (upcoming ++ [Name.value (Rcd.name record)])%list
               else upcoming_loop today next_week rest upcoming)
      | None => upcoming_loop today next_week rest upcoming
      end
  end.

(** [get_upcoming_birthdays], [today] being what the clock gives. *)
Definition get_upcoming_birthdays (today : Date.t) (book : t)
  : result (list string) :=
  rbind (Date.add_days today 7)
        (fun next_week => upcoming_loop today next_week (values book) []).

(** Every key is the name of the record stored under it. *)
Definition keys_match (book : t) : Prop :=
  forall k r, In (k, r) book -> k = Name.value (Rcd.name r).

End AddressBook.

(* ================================================================== *)
(** ** Persistence

    The snapshot is what [pickle] makes of the book.  The [pickle]
    module is not part of the program: its two functions are taken as
    they are, [pickle_dumps] total on books (a book holds strings,
    lists and dates only, which [pickle] always takes) and
    [pickle_loads] free to raise.  The disk maps a path to a file's
    bytes, to something that cannot be opened (a directory, a file
    without permission), to a file on a device that is full, or to
    nothing.  Opening for writing truncates the file before anything is
    written: a write that fails after the opening leaves it empty. *)

Definition bytes : Type := list Byte.byte.

Inductive node : Type :=
| File (content : bytes)
| Locked
| Full (content : bytes).

Definition fs : Type := string -> option node.

Definition fs_write (d : fs) (path : string) (content : bytes) : fs :=
  fun p => if String.eqb p path then Some (File content) else d p.

(** [open(path, "rb")] followed by reading everything. *)
Definition read_file (d : fs) (path : string) : result bytes :=
  match d path with
  | Some (File c) | Some (Full c) => Return c
  | Some Locked => Raise (PermissionError ("Permission denied: " ++ path))
  | None =>
      Raise (FileNotFoundError ("No such file or directory: " ++ path))
  end.

(** The file at [path] truncated, on the device it is on. *)
Definition fs_truncate (d : fs) (path : string) : fs :=
  fun p => if String.eqb p path then Some (Full []) else d p.

(** [open(path, "wb")], writing, closing.  The opening fails on what
    cannot be opened and changes nothing then; once it has succeeded
    the file is empty, and stays so when the writing fails. *)
Definition write_file (d : fs) (path : string) (content : bytes)
  : result unit * fs :=
  match d path with
  | Some Locked =>
      (Raise (PermissionError ("Permission denied: " ++ path)), d)
  | Some (Full _) =>
      (Raise (OSError "[Errno 28] No space left on device"),
       fs_truncate d path)
  | _ => (Return tt, fs_write d path content)
  end.

Definition default_filename : string := "addressbook.pkl".

Section Persistence.

Variable pickle_dumps : AddressBook.t -> bytes.
Variable pickle_loads : bytes -> result AddressBook.t.

Definition save_data (book : AddressBook.t) (filename : string) (d : fs)
  : result unit * fs :=
  write_file d filename (pickle_dumps book).

(** The body of the [try] in [load_data]. *)
Definition load_body (filename : string) (d : fs) : result AddressBook.t :=
  rbind (read_file d filename) pickle_loads.

Definition load_data (filename : string) (d : fs) : result AddressBook.t :=
  match load_body filename d with
  | Raise (FileNotFoundError _) => Return AddressBook.empty
  | r => r
  end.

End Persistence.

(* ================================================================== *)
(** ** Command handlers

    A handler receives the book and mutates it; [M A] is a computation
    that returns or raises and, either way, leaves a book behind. *)

Definition M (A : Type) : Type :=
  AddressBook.t -> result A * AddressBook.t.

Definition ret {A} (a : A) : M A := fun book => (Return a, book).

Definition raise {A} (e : exn) : M A := fun book => (Raise e, book).

Definition bind {A B} (c : M A) (k : A -> M B) : M B :=
  fun book =>
    match c book with
    | (Return a, book') => k a book'
    | (Raise e, book') => (Raise e, book')
    end.

Notation "x <- c ;; k" := (bind c (fun x => k))
  (at level 61, c at next level, right associativity).
Notation "' p <- c ;; k" := (bind c (fun x => match x with p => k end))
  (at level 61, p pattern, c at next level, right associativity).
Notation "c ;;; k" := (bind c (fun _ => k))
  (at level 61, right associativity).

Definition lift {A} (r : result A) : M A := fun book => (r, book).

Definition gets {A} (f : AddressBook.t -> A) : M A :=
  fun book => (Return (f book), book).

Definition modify (f : AddressBook.t -> AddressBook.t) : M unit :=
  fun book => (Return tt, f book).

(** A method of the book that reads it and may raise. *)
Definition query {A} (f : AddressBook.t -> result A) : M A :=
  fun book => (f book, book).

(** A method call on a record object that sits in the book.  A record
    is referenced from one slot of the dict only, the slot [key] it was
    found under or stored to, so its mutation in place is a rewrite of
    that slot; a method that raises has not mutated it. *)
Definition mutate (key : string) (method : Rcd.t -> result Rcd.t) : M unit :=
  fun book =>
    match AddressBook.get book key with
    | Some r =>
        match method r with
        | Return r' => (Return tt, AddressBook.setitem book key r')
        | Raise e => (Raise e, book)
        end
    | None => (Return tt, book)
    end.

(** The classes [input_error] names in its [except]. *)
Definition caught (e : exn) : bool :=
  match e with
  | KeyError _ | ValueError _ | IndexError _ => true
  | _ => false
  end.

Definition handler : Type := list string -> M string.

Definition input_error (func : handler) : handler :=
  fun args book =>
    match func args book with
    | (Raise e, book') =>
        if caught e then (Return (exn_str e), book') else (Raise e, book')
    | r => r
    end.

(** [a, b = args]. *)
Definition unpack2 (args : list string) : result (string * string) :=
  match args with
  | [a; b] => Return (a, b)
  | _ =>
      if (length args <? 2)%nat then
        Raise (ValueError ("not enough values to unpack (expected 2, got "
                           ++ nat_str (length args) ++ ")"))
      else Raise (ValueError "too many values to unpack (expected 2)")
  end.

(** [a, b, c = args]. *)
Definition unpack3 (args : list string)
  : result (string * string * string) :=
  match args with
  | [a; b; c] => Return (a, b, c)
  | _ =>
      if (length args <? 3)%nat then
        Raise (ValueError ("not enough values to unpack (expected 3, got "
                           ++ nat_str (length args) ++ ")"))
      else Raise (ValueError "too many values to unpack (expected 3)")
  end.

(** [args[0]]. *)
Definition item0 (args : list string) : result string :=
  match args with
  | a :: _ => Return a
  | [] => Raise (IndexError "list index out of range")
  end.

Definition add_contact_body : handler := fun args =>
  if (length args <? 2)%nat then
    raise (ValueError "Please provide both name and phone number.")
  else
    let name := nth 0 args "" in
    let phone := nth 1 args "" in
    found <- gets (fun book => AddressBook.find book name) ;;
    ' (slot, message) <-
      match found with
      | None =>
          record <- lift (Rcd.init name) ;;
          modify (fun book => AddressBook.add_record book record) ;;;
          ret (Name.value (Rcd.name record), "Contact added.")
      | Some _ => ret (name, "Contact updated.")
      end ;;
    mutate slot (fun record => Rcd.add_phone record phone) ;;;
    ret message.

Definition add_contact : handler := input_error add_contact_body.

Definition change_contact_body : handler := fun args =>
  ' (name, old_phone, new_phone) <- lift (unpack3 args) ;;
  found <- gets (fun book => AddressBook.find book name) ;;
  match found with
  | Some _ =>
      mutate name (fun record => Rcd.edit_phone record old_phone new_phone) ;;;
      ret "Phone updated."
  | None => ret "Contact not found."
  end.

Definition change_contact : handler := input_error change_contact_body.

Definition show_phone_body : handler := fun args =>
  name <- lift (item0 args) ;;
  found <- gets (fun book => AddressBook.find book name) ;;
  match found with
  | Some record => ret (join "; " (Rcd.phone_values record))
  | None => ret "Contact not found."
  end.

Definition show_phone : handler := input_error show_phone_body.

Definition show_all_body : handler := fun args =>
  gets (fun book =>
    join (String newline "")
      (map (fun record =>
              "Name: " ++ Name.value (Rcd.name record)
              ++ ", Phones: " ++ join ", " (Rcd.phone_values record))
           (AddressBook.values book))).

Definition show_all : handler := input_error show_all_body.

Definition add_birthday_body : handler := fun args =>
  ' (name, birthday) <- lift (unpack2 args) ;;
  found <- gets (fun book => AddressBook.find book name) ;;
  match found with
  | Some _ =>
      mutate name (fun record => Rcd.add_birthday record birthday) ;;;
      ret "Birthday added."
  | None => ret "Contact not found."
  end.

Definition add_birthday : handler := input_error add_birthday_body.

Definition show_birthday_body : handler := fun args =>
  name <- lift (item0 args) ;;
  found <- gets (fun book => AddressBook.find book name) ;;
  match found with
  | Some record =>
      match Rcd.birthday record with
      | Some b => ret (strftime (Birthday.value b))
      | None => ret "Birthday not found."
      end
  | None => ret "Birthday not found."
  end.

Definition show_birthday : handler := input_error show_birthday_body.

Definition birthdays_body (today : Date.t) : handler := fun args =>
  upcoming <- query (AddressBook.get_upcoming_birthdays today) ;;
  match upcoming with
  | [] => ret "No upcoming birthdays."
  | _ => ret ("Upcoming birthdays: " ++ join ", " upcoming)
  end.

Definition birthdays (today : Date.t) : handler :=
  input_error (birthdays_body today).

(** The handlers behind [input_error], under their command words. *)
Definition handler_bodies (today : Date.t) : list (string * handler) :=
  [ ("add", add_contact_body);
    ("change", change_contact_body);
    ("phone", show_phone_body);
    ("all", show_all_body);
    ("add-birthday", add_birthday_body);
    ("show-birthday", show_birthday_body);
    ("birthdays", birthdays_body today) ].

(* ================================================================== *)
(** ** The read-eval loop *)

(** [cmd, *args = user_input.split()], then the command lower-cased. *)
Definition parse_input (user_input : string) : result (string * list string) :=
  match split user_input with
  | [] =>
      Raise (ValueError
               "not enough values to unpack (expected at least 1, got 0)")
  | cmd :: args => Return (lower (strip cmd), args)
  end.

Inductive status : Type :=
| Running
| Exited
| Crashed (e : exn).

(** What the process has around it: the book, the disk, and the lines
    printed so far (without the prompts). *)
Record world : Type := mkWorld {
  book : AddressBook.t;
  disk : fs;
  printed : list string
}.

Definition print (w : world) (line : string) : world :=
  mkWorld (book w) (disk w) (printed w ++ [line])%list.

(** A handler called from the loop: an exception that leaves it ends
    the process. *)
Definition call (h : handler) (args : list string) (w : world)
  : status * world :=
  match h args (book w) with
  | (Return s, book') =>
      (Running, mkWorld book' (disk w) (printed w ++ [s])%list)
  | (Raise e, book') => (Crashed e, mkWorld book' (disk w) (printed w))
  end.

Section Loop.

Variable pickle_dumps : AddressBook.t -> bytes.
Variable pickle_loads : bytes -> result AddressBook.t.
Variable today : Date.t.

(** One turn of [while True], the line being what [input] returned. *)
Definition main_step (user_input : string) (w : world) : status * world :=
  match parse_input user_input with
  | Raise e => (Crashed e, w)
  | Return (command, args) =>
      if String.eqb command "close" || String.eqb command "exit" then
        match save_data pickle_dumps (book w) default_filename (disk w) with
        | (Return _, disk') =>
            (Exited, print (mkWorld (book w) disk' (printed w)) "Good bye!")
        | (Raise e, disk') =>
            (Crashed e, mkWorld (book w) disk' (printed w))
        end
      else if String.eqb command "hello" then
        (Running, print w "How can I help you?")
      else if String.eqb command "add" then call add_contact args w
      else if String.eqb command "change" then call change_contact args w
      else if String.eqb command "phone" then call show_phone args w
      else if String.eqb command "all" then call show_all args w
      else if String.eqb command "add-birthday" then call add_birthday args w
      else if String.eqb command "show-birthday" then
        call show_birthday args w
      else if String.eqb command "birthdays" then
        call (birthdays today) args w
      else (Running, print w "Invalid command.")
  end.

(** The loop over the lines the operator types; when they run out,
    [input] raises [EOFError]. *)
Fixpoint main_loop (inputs : list string) (w : world) : status * world :=
  match inputs with
  | [] => (Crashed (EOFError "EOF when reading a line"), w)
  | user_input :: rest =>
      match main_step user_input w with
      | (Running, w') => main_loop rest w'
      | stopped => stopped
      end
  end.

Definition main (inputs : list string) (d : fs) : status * world :=
  match load_data pickle_loads default_filename d with
  | Raise e => (Crashed e, mkWorld AddressBook.empty d [])
  | Return b =>
      main_loop inputs (mkWorld b d ["Welcome to the assistant bot!"])
  end.

End Loop.

(* ================================================================== *)
(** ** The states of a session

    The book invariant, and the books a session can reach: the empty
    book, and whatever the operations of the book and the handlers make
    of a book already reached. *)

Definition book_inv (b : AddressBook.t) : Prop :=
  AddressBook.wf b /\ AddressBook.keys_match b.

Inductive reachable : AddressBook.t -> Prop :=
| reach_empty : reachable AddressBook.empty
| reach_add_record (b : AddressBook.t) (r : Rcd.t) :
    reachable b -> reachable (AddressBook.add_record b r)
| reach_delete (b : AddressBook.t) (name : string) :
    reachable b -> reachable (AddressBook.delete b name)
| reach_handler (today : Date.t) (cmd : string) (body : handler)
    (args : list string) (b : AddressBook.t) :
    In (cmd, body) (handler_bodies today) ->
    reachable b -> reachable (snd (input_error body args b)).

(** A computation keeps the invariant, whether it returns or raises. *)
Definition preserves {A} (c : M A) : Prop :=
  forall b, book_inv b -> book_inv (snd (c b)).

(** The errors of a failed validation (name, phone, date) and of a
    missing argument: each is a [ValueError] or an [IndexError]. *)
Definition validation_or_argument_error (e : exn) : Prop :=
  exists msg, e = ValueError msg \/ e = IndexError msg.

(** A string whose first character is not whitespace. *)
Definition starts_nonblank (t : string) : Prop :=
  exists c t', t = String c t' /\ isspace c = false.

(** A computation raises nothing outside [P]. *)
Definition raises_only {A} (P : exn -> Prop) (c : M A) : Prop :=
  forall b e b', c b = (Raise e, b') -> P e.

(* ================================================================== *)
(** ** A snapshot format

    One concrete pair of functions that can stand for [pickle]: a tagged
    byte format for books, numbers in unary, [x01] before each element
    of a sequence and [x00] after the last.  It is used to run the
    persistence functions on sample books. *)

Module Snapshot.

Import Byte.

Definition enc_nat (n : nat) : bytes := (repeat x01 n ++ [x00])%list.

Fixpoint dec_nat (bs : bytes) : option (nat * bytes) :=
  match bs with
  | x00 :: r => Some (0, r)
  | x01 :: r =>
      match dec_nat r with
      | Some (n, r') => Some (S n, r')
      | None => None
      end
  | _ => None
  end.

Definition enc_Z (z : Z) : bytes :=
  (if (z <? 0)%Z then x01 else x00) :: enc_nat (Z.abs_nat z).

Definition dec_Z (bs : bytes) : option (Z * bytes) :=
  match bs with
  | sign :: r =>
      match dec_nat r with
      | Some (n, r') =>
          Some (if Byte.eqb sign x01 then (- Z.of_nat n)%Z else Z.of_nat n,
                r')
      | None => None
      end
  | [] => None
  end.

Fixpoint enc_string (s : string) : bytes :=
  match s with
  | "" => [x00]
  | String c s' => x01 :: byte_of_ascii c :: enc_string s'
  end.

Fixpoint dec_string (bs : bytes) : option (string * bytes) :=
  match bs with
  | x00 :: r => Some ("", r)
  | x01 :: c :: r =>
      match dec_string r with
      | Some (s, r') => Some (String (ascii_of_byte c) s, r')
      | None => None
      end
  | _ => None
  end.

Section Sequences.

Variable A : Type.
Variable enc : A -> bytes.
Variable dec : bytes -> option (A * bytes).

Fixpoint enc_list (l : list A) : bytes :=
  match l with
  | [] => [x00]
  | a :: l' => (x01 :: enc a ++ enc_list l')%list
  end.

Fixpoint dec_list (fuel : nat) (bs : bytes) : option (list A * bytes) :=
  match fuel with
  | 0 => None
  | S fuel' =>
      match bs with
      | x00 :: r => Some ([], r)
      | x01 :: r =>
          match dec r with
          | Some (a, r') =>
              match dec_list fuel' r' with
              | Some (l, r'') => Some (a :: l, r'')
              | None => None
              end
          | None => None
          end
      | _ => None
      end
  end.

Definition enc_option (o : option A) : bytes :=
  match o with
  | None => [x00]
  | Some a => x01 :: enc a
  end.

Definition dec_option (bs : bytes) : option (option A * bytes) :=
  match bs with
  | x00 :: r => Some (None, r)
  | x01 :: r =>
      match dec r with
      | Some (a, r') => Some (Some a, r')
      | None => None
      end
  | _ => None
  end.

End Sequences.

Definition enc_date (d : Date.t) : bytes :=
  (enc_Z (Date.year d) ++ enc_Z (Date.month d) ++ enc_Z (Date.day d))%list.

Definition dec_date (bs : bytes) : option (Date.t * bytes) :=
  match dec_Z bs with
  | Some (y, r1) =>
      match dec_Z r1 with
      | Some (m, r2) =>
          match dec_Z r2 with
          | Some (d, r3) => Some (Date.mk y m d, r3)
          | None => None
          end
      | None => None
      end
  | None => None
  end.

Definition enc_record (r : Rcd.t) : bytes :=
  (enc_string (Name.value (Rcd.name r))
   ++ enc_list string enc_string (map Phone.value (Rcd.phones r))
   ++ enc_option Date.t enc_date
        (option_map Birthday.value (Rcd.birthday r)))%list.

Definition dec_record (bs : bytes) : option (Rcd.t * bytes) :=
  match dec_string bs with
  | Some (n, r1) =>
      match dec_list string dec_string (length r1) r1 with
      | Some (ps, r2) =>
          match dec_option Date.t dec_date r2 with
          | Some (bd, r3) =>
              Some (Rcd.mk (Name.mk n) (map Phone.mk ps)
                      (option_map Birthday.mk bd), r3)
          | None => None
          end
      | None => None
      end
  | None => None
  end.

Definition enc_entry (e : string * Rcd.t) : bytes :=
  (enc_string (fst e) ++ enc_record (snd e))%list.

Definition dec_entry (bs : bytes) : option ((string * Rcd.t) * bytes) :=
  match dec_string bs with
  | Some (k, r1) =>
      match dec_record r1 with
      | Some (v, r2) => Some ((k, v), r2)
      | None => None
      end
  | None => None
  end.

Definition dumps (b : AddressBook.t) : bytes :=
  enc_list (string * Rcd.t) enc_entry b.

Definition loads (bs : bytes) : result AddressBook.t :=
  match dec_list (string * Rcd.t) dec_entry (length bs) bs with
  | Some (b, []) => Return b
  | _ => Raise (UnpicklingError "invalid snapshot")
  end.

End Snapshot.

(* ================================================================== *)
(** ** The birthday query as a filter *)

(** The test of [get_upcoming_birthdays] on one record: it has a
    birthday whose month and day, put into the year of [today], make a
    date from [today] to [next_week], both included. *)
Definition in_window (today next_week : Date.t) (r : Rcd.t) : bool :=
  match Rcd.birthday r with
  | Some b =>
      match Date.replace_year (Birthday.value b) (Date.year today) with
      | Return d => Date.le today d && Date.le d next_week
      | Raise _ => false
      end
  | None => false
  end.

(** The birthday of the record, if any, exists in the year [y]. *)
Definition replaceable (y : Z) (r : Rcd.t) : bool :=
  match Rcd.birthday r with
  | Some b => is_return (Date.replace_year (Birthday.value b) y)
  | None => true
  end.

(* ================================================================== *)
(** ** Words and records in good standing *)

Definition nonspace (c : ascii) : bool := negb (isspace c).

(** A word: not empty, no whitespace in it. *)
Definition word (t : string) : bool :=
  negb (String.eqb t "") && str_all nonspace t.

(** A record as the constructors leave it: a name that is not blank,
    phones that [Phone] accepts, a birthday that is a date. *)
Definition record_ok (r : Rcd.t) : bool :=
  negb (str_all isspace (Name.value (Rcd.name r)))
  && forallb Phone.validate (Rcd.phone_values r)
  && match Rcd.birthday r with
     | Some b => Date.valid (Birthday.value b)
     | None => true
     end.

Definition records_ok (b : AddressBook.t) : Prop :=
  forall k r, In (k, r) b -> record_ok r = true.

(** The books of a session: the empty book and what the wrapped
    handlers make of a book of the session. *)
Inductive session_book : AddressBook.t -> Prop :=
| session_start : session_book AddressBook.empty
| session_turn (today : Date.t) (cmd : string) (body : handler)
    (args : list string) (b : AddressBook.t) :
    In (cmd, body) (handler_bodies today) ->
    session_book b -> session_book (snd (input_error body args b)).

(** A computation keeps a property of the book, whether it returns or
    raises. *)
Definition keeps {A} (I : AddressBook.t -> Prop) (c : M A) : Prop :=
  forall b, I b -> I (snd (c b)).

(** A computation leaves the book as it found it. *)
Definition read_only {A} (c : M A) : Prop :=
  forall b, snd (c b) = b.

(** The command words the loop knows. *)
Definition known_commands : list string :=
  [ "close"; "exit"; "hello"; "add"; "change"; "phone"; "all";
    "add-birthday"; "show-birthday"; "birthdays" ].

Definition welcome : string := "Welcome to the assistant bot!".

(** The decimal digit [k] put before the digits [d], and its character. *)
Definition dig (k : nat) (d : Decimal.uint) : Decimal.uint :=
  match k with
  | 0 => Decimal.D0 d | 1 => Decimal.D1 d | 2 => Decimal.D2 d
  | 3 => Decimal.D3 d | 4 => Decimal.D4 d | 5 => Decimal.D5 d
  | 6 => Decimal.D6 d | 7 => Decimal.D7 d | 8 => Decimal.D8 d
  | _ => Decimal.D9 d
  end.

Definition digit_char (k : nat) : ascii := ascii_of_nat (48 + k).

(** Every name but [n] is looked up in [b] as it is in [b0]. *)
Definition others_kept (n : string) (b0 b : AddressBook.t) : Prop :=
  forall k, k <> n -> AddressBook.get b k = AddressBook.get b0 k.

(* ================================================================== *)
(** ** The texts [Birthday] reads as a date *)

(** The text made of four decimal digits. *)
Definition four_digits (a b c d : nat) : string :=
  String (digit_char a)
    (String (digit_char b) (String (digit_char c) (String (digit_char d) ""))).

(** The ways to write the day [n]: on two digits, or, below 10, as the
    one digit alone or after a space. *)
Definition day_text (n : Z) (t : string) : Prop :=
  t = pad2 n
  \/ ((n < 10)%Z
      /\ (t = nat_str (Z.to_nat n) \/ t = " " ++ nat_str (Z.to_nat n))).

(** The ways to write the month [n]: on two digits, or, below 10, as
    the one digit alone. *)
Definition month_text (n : Z) (t : string) : Prop :=
  t = pad2 n \/ ((n < 10)%Z /\ t = nat_str (Z.to_nat n)).

(** [s] is the date [d] written day, month, year with dots between,
    the year on four digits. *)
Definition date_text (d : Date.t) (s : string) : Prop :=
  exists td tm,
    day_text (Date.day d) td /\ month_text (Date.month d) tm
    /\ s = td ++ "." ++ tm ++ "." ++ pad4 (Date.year d).

(* ================================================================== *)
(** ** The parts of [ord2ymd], named *)

(** The month and the day of the month of the day number [n] (from 0)
    of a year, as the last lines of [ord2ymd] find them. *)
Definition month_day (leapyear : bool) (n : Z) : Z * Z :=
  (let m := Z.shiftr (n + 50) 5 in
   let preceding :=
     Date.DAYS_BEFORE_MONTH m + (if (2 <? m) && leapyear then 1 else 0) in
   if n <? preceding then
     let m' := m - 1 in
     let preceding' :=
       preceding
       - (Date.DAYS_IN_MONTH m'
          + (if (m' =? 2) && leapyear then 1 else 0)) in
     (m', n - preceding' + 1)
   else (m, n - preceding + 1))%Z.

(** What is asked of [month_day]: a month, a day of that month, and
    the day number they stand for. *)
Definition month_day_ok (leapyear : bool) (n : Z) : bool :=
  (let '(m, d) := month_day leapyear n in
   (1 <=? m) && (m <=? 12) && (1 <=? d)
   && (d <=? (if (m =? 2) && leapyear then 29 else Date.DAYS_IN_MONTH m))
   && (Date.DAYS_BEFORE_MONTH m
       + (if (2 <? m) && leapyear then 1 else 0) + d =? n + 1))%Z.

(** [P] on the [fuel] integers from [o] on. *)
Fixpoint all_from (P : Z -> bool) (fuel : nat) (o : Z) : bool :=
  match fuel with
  | 0 => true
  | S fuel' => P o && all_from P fuel' (o + 1)%Z
  end.


(* ================================================================== *)
(** ** Sample values *)

Definition phone_with_newline : string := "1234567890" ++ String newline "".

Definition bob_one_phone : Rcd.t :=
  Rcd.mk (Name.mk "bob") [Phone.mk "1234567890"] None.

Definition bob_three_phones : Rcd.t :=
  Rcd.mk (Name.mk "bob")
    [Phone.mk "1111111111"; Phone.mk "2222222222"; Phone.mk "2222222222"]
    None.

Definition amy_and_bob : AddressBook.t :=
  [ ("amy", Rcd.mk (Name.mk "amy")
              [Phone.mk "1234567890"; Phone.mk "1234567891"]
              (Some (Birthday.mk (Date.mk 2000 3 1))));
    ("bob", Rcd.mk (Name.mk "bob") [] None) ].

Definition no_files : fs := fun _ => None.

(** A book two [add] and two [add-birthday] commands build: bob, born
    on a 29 February, and amy, born on a 1 March. *)
Definition leap_book : AddressBook.t :=
  [ ("bob", Rcd.mk (Name.mk "bob") [Phone.mk "1234567890"]
              (Some (Birthday.mk (Date.mk 2024 2 29))));
    ("amy", Rcd.mk (Name.mk "amy") [Phone.mk "1234567891"]
              (Some (Birthday.mk (Date.mk 2000 3 1)))) ].

Definition leap_session : list string :=
  [ "add bob 1234567890"; "add-birthday bob 29.02.2024";
    "add amy 1234567891"; "add-birthday amy 01.03.2000" ].

Definition march_first_2025 : Date.t := Date.mk 2025 3 1.

(** Two birthdays around the turn of the year. *)
Definition new_year_book : AddressBook.t :=
  [ ("eve", Rcd.mk (Name.mk "eve") []
              (Some (Birthday.mk (Date.mk 1990 12 31))));
    ("jan", Rcd.mk (Name.mk "jan") []
              (Some (Birthday.mk (Date.mk 1990 1 1)))) ].

(** A disk whose device is full, with an earlier snapshot on it. *)
Definition full_disk : fs :=
  fun p => if String.eqb p default_filename
           then Some (Full (Snapshot.dumps amy_and_bob)) else None.

(** A [pickle.load] that fails as it does when rebuilding a pickled
    object opens a file that is not there. *)
Definition loads_missing_resource (_ : bytes) : result AddressBook.t :=
  Raise (FileNotFoundError "No such file or directory: 'photo.png'").

(** A disk with a snapshot file on it. *)
Definition snapshot_on_disk : fs :=
  fs_write no_files default_filename (Snapshot.dumps amy_and_bob).

(* ================================================================== *)
(** * Properties *)

(** ** Text *)

Lemma str_all_app (p : ascii -> bool) (a b : string) :
  str_all p (a ++ b) = str_all p a && str_all p b.
Proof.
  induction a as [|c a IH]; simpl; [reflexivity|].
  now rewrite IH, andb_assoc.
Qed.

Lemma append_empty_r (s : string) : s ++ "" = s.
Proof. induction s as [|c s IH]; simpl; congruence. Qed.

Lemma length_append (a b : string) :
  String.length (a ++ b) = String.length a + String.length b.
Proof. induction a as [|c a IH]; simpl; congruence. Qed.

(** ** Phone *)

(** [\d{n}] passes exactly over [n] digits. *)
Lemma rmatch_repeat_digit (n : nat) :
  forall k s k' s',
    rmatch (Repeat n Digit) (k, s) = Some (k', s') <->
    exists d, s = d ++ s' /\ String.length d = n
              /\ str_all isdigit d = true /\ k' = k + n.
Proof.
  induction n as [|n IH]; intros k s k' s'.
  - simpl. split.
    + intros H. inversion H; subst. exists "". repeat split. lia.
    + intros (d & -> & Hl & _ & ->). destruct d; [|discriminate].
      simpl. do 2 f_equal. lia.
  - change (rmatch (Repeat (S n) Digit) (k, s))
      with (match rmatch Digit (k, s) with
            | Some q' => rmatch (Repeat n Digit) q'
            | None => None
            end).
    split.
    + destruct s as [|c s]; simpl; [discriminate|].
      destruct (isdigit c) eqn:Hc; [|discriminate].
      intros H. apply IH in H. destruct H as (d & -> & Hl & Hd & ->).
      exists (String c d). simpl. rewrite Hc, Hd, Hl. repeat split. lia.
    + intros (d & -> & Hl & Hd & ->).
      destruct d as [|c d]; [discriminate|]. simpl in *.
      apply andb_true_iff in Hd. destruct Hd as [Hc Hd]. rewrite Hc.
      apply IH. exists d. repeat split; auto; lia.
Qed.

(** What [validate] accepts: ten digits, then nothing or one newline. *)
Lemma validate_spec (v : string) :
  Phone.validate v = true <->
  exists d tail, v = d ++ tail /\ Phone.ten_digits d = true
                 /\ (tail = "" \/ tail = String newline "").
Proof.
  unfold Phone.validate, re_match, Phone.pattern, Phone.ten_digits.
  change (rmatch (Seq Caret (Seq (Repeat 10 Digit) Dollar)) (0, v))
    with (match rmatch (Repeat 10 Digit) (0, v) with
          | Some q => rmatch Dollar q
          | None => None
          end).
  split.
  - destruct (rmatch (Repeat 10 Digit) (0, v)) as [[k s]|] eqn:E;
      [|discriminate].
    apply rmatch_repeat_digit in E. destruct E as (d & -> & Hl & Hd & _).
    intros H. exists d, s. split; [reflexivity|]. split.
    + rewrite Hl, Hd. reflexivity.
    + simpl in H. destruct s as [|c [|c' s]]; auto; [|discriminate].
      destruct (Ascii.eqb c newline) eqn:Hc; [|discriminate].
      apply Ascii.eqb_eq in Hc. subst. auto.
  - intros (d & tail & -> & Hd & Ht).
    apply andb_true_iff in Hd. destruct Hd as [Hl Hd].
    apply Nat.eqb_eq in Hl.
    assert (E : rmatch (Repeat 10 Digit) (0, d ++ tail) = Some (10, tail)).
    { apply rmatch_repeat_digit. exists d. repeat split; auto. }
    rewrite E. destruct Ht as [-> | ->]; reflexivity.
Qed.

(** Every string of exactly ten digits is accepted and stored as is. *)
Lemma Phone_init_ten_digits (v : string) :
  Phone.ten_digits v = true -> Phone.init v = Return (Phone.mk v).
Proof.
  intros H. unfold Phone.init.
  assert (Hv : Phone.validate v = true).
  { apply validate_spec. exists v, "". rewrite append_empty_r. auto. }
  now rewrite Hv.
Qed.

(** A string that is accepted is stored unchanged; one that is refused
    raises the [ValueError] that quotes it. *)
Lemma Phone_init_cases (v : string) :
  (Phone.validate v = true /\ Phone.init v = Return (Phone.mk v)) \/
  (Phone.validate v = false
   /\ Phone.init v = Raise (ValueError (Phone.invalid_msg v))).
Proof.
  unfold Phone.init. destruct (Phone.validate v); simpl; auto.
Qed.

(** A string that is neither ten digits nor ten digits and a final
    newline is refused. *)
Lemma Phone_init_rejects (v : string) :
  Phone.ten_digits v = false ->
  (forall d, v = d ++ String newline "" -> Phone.ten_digits d = false) ->
  Phone.init v = Raise (ValueError (Phone.invalid_msg v)).
Proof.
  intros H1 H2. destruct (Phone_init_cases v) as [[Hv _]|[_ H]]; [|exact H].
  apply validate_spec in Hv. destruct Hv as (d & tail & -> & Hd & [-> | ->]).
  - rewrite append_empty_r in H1. congruence.
  - rewrite (H2 d eq_refl) in Hd. discriminate.
Qed.


(** Ten digits followed by one newline are accepted, whatever the
    digits. *)
Lemma Phone_init_digits_newline (d : string) :
  Phone.ten_digits d = true ->
  Phone.init (d ++ String newline "")
  = Return (Phone.mk (d ++ String newline "")).
Proof.
  intros H. unfold Phone.init.
  assert (Hv : Phone.validate (d ++ String newline "") = true).
  { apply validate_spec. exists d, (String newline ""). auto. }
  now rewrite Hv.
Qed.

(** C1 (code_bug).  A string of eleven characters, ten digits and then a
    line feed, is not a string of exactly ten decimal digits, and
    [Phone] accepts and stores it: the [$] of the pattern also matches
    just before a final newline. *)
Theorem Phone_accepts_trailing_newline :
  Phone.ten_digits phone_with_newline = false /\
  String.length phone_with_newline = 11 /\
  Phone.init phone_with_newline = Return (Phone.mk phone_with_newline).
Proof. repeat split. Qed.

(** ** Record.edit_phone *)

Lemma edit_loop_absent (ps : list Phone.t) (old new : string) :
  ~ In old (map Phone.value ps) -> Rcd.edit_loop ps old new = Return ps.
Proof.
  induction ps as [|p ps IH]; simpl; intros H; [reflexivity|].
  destruct (String.eqb (Phone.value p) old) eqn:E.
  - apply String.eqb_eq in E. tauto.
  - rewrite IH by tauto. reflexivity.
Qed.

Lemma edit_loop_first (pre : list Phone.t) (p : Phone.t)
  (post : list Phone.t) (old new : string) :
  Phone.value p = old -> ~ In old (map Phone.value pre) ->
  Rcd.edit_loop (pre ++ p :: post) old new
  = rbind (Phone.init new) (fun q => Return (pre ++ q :: post)%list).
Proof.
  intros Hp. induction pre as [|a pre IH]; simpl; intros H.
  - rewrite Hp, String.eqb_refl. reflexivity.
  - destruct (String.eqb (Phone.value a) old) eqn:E.
    + apply String.eqb_eq in E. tauto.
    + rewrite IH by tauto. destruct (Phone.init new); reflexivity.
Qed.

Lemma set_phones_same (r : Rcd.t) : Rcd.set_phones r (Rcd.phones r) = r.
Proof. destruct r; reflexivity. Qed.

Lemma edit_phone_absent (r : Rcd.t) (old new : string) :
  ~ In old (Rcd.phone_values r) -> Rcd.edit_phone r old new = Return r.
Proof.
  intros H. unfold Rcd.edit_phone.
  rewrite (edit_loop_absent _ _ _ H). simpl. now rewrite set_phones_same.
Qed.


(** C2, the claim as stated fails: with no entry equal to [old] a [new]
    that [Phone] refuses raises nothing, the record is returned as it
    was. *)
Lemma edit_phone_invalid_new_unnoticed :
  Phone.init "abc" = Raise (ValueError (Phone.invalid_msg "abc")) /\
  Rcd.edit_phone bob_one_phone "0000000000" "abc" = Return bob_one_phone.
Proof. split; reflexivity. Qed.

(** C2 (corrected).  [edit_phone old new] on any record: when no entry
    equals [old] the record is left as it is and nothing is raised,
    whatever [new] is; when an entry equals [old], [Phone(new)] is built:
    if that succeeds the first such entry is replaced by it and every
    other entry stays, and if it fails the call fails with the same
    error, the [ValueError] about the invalid phone number. *)
Theorem edit_phone_spec (r : Rcd.t) (old new : string) :
  (~ In old (Rcd.phone_values r) -> Rcd.edit_phone r old new = Return r) /\
  (forall pre p post,
      Rcd.phones r = (pre ++ p :: post)%list ->
      Phone.value p = old ->
      ~ In old (map Phone.value pre) ->
      (forall q, Phone.init new = Return q ->
                 Phone.value q = new /\
                 Rcd.edit_phone r old new
                 = Return (Rcd.set_phones r (pre ++ q :: post)%list)) /\
      (forall e, Phone.init new = Raise e ->
                 e = ValueError (Phone.invalid_msg new) /\
                 Rcd.edit_phone r old new = Raise e)).
Proof.
  split; [apply edit_phone_absent|].
  intros pre p post Hr Hp Hpre. unfold Rcd.edit_phone.
  rewrite Hr, (edit_loop_first pre p post old new Hp Hpre).
  split.
  - intros q Hq. rewrite Hq. simpl. split; [|reflexivity].
    destruct (Phone_init_cases new) as [[_ H]|[_ H]];
      rewrite H in Hq; inversion Hq; reflexivity.
  - intros e He. rewrite He. simpl. split; [|reflexivity].
    destruct (Phone_init_cases new) as [[_ H]|[_ H]];
      rewrite H in He; inversion He; reflexivity.
Qed.


Lemma edit_phone_spec_witness :
  Rcd.edit_phone bob_one_phone "0000000000" "abc" = Return bob_one_phone /\
  Rcd.edit_phone bob_three_phones "2222222222" "3333333333"
  = Return (Rcd.mk (Name.mk "bob")
              [Phone.mk "1111111111"; Phone.mk "3333333333";
               Phone.mk "2222222222"] None) /\
  Rcd.edit_phone bob_three_phones "2222222222" "33"
  = Raise (ValueError (Phone.invalid_msg "33")).
Proof.
  split; [|split].
  - apply (edit_phone_spec bob_one_phone "0000000000" "abc").
    simpl. intros [H|[]]. discriminate H.
  - apply (proj2 (edit_phone_spec bob_three_phones "2222222222" "3333333333")
             [Phone.mk "1111111111"] (Phone.mk "2222222222")
             [Phone.mk "2222222222"]); try reflexivity.
    simpl. intros [H|[]]. discriminate H.
  - assert (E : Phone.init "33" = Raise (ValueError (Phone.invalid_msg "33")))
      by reflexivity.
    apply (proj2 (proj2 (edit_phone_spec bob_three_phones "2222222222" "33")
             [Phone.mk "1111111111"] (Phone.mk "2222222222")
             [Phone.mk "2222222222"] eq_refl eq_refl
             ltac:(simpl; intros [H|[]]; discriminate H)) _ E).
Defined.

(** ** The dict behind the book *)

Lemma get_None_iff (d : AddressBook.t) (k : string) :
  AddressBook.get d k = None <-> ~ In k (AddressBook.keys d).
Proof.
  induction d as [|[k' v] d IH]; simpl; [tauto|].
  destruct (String.eqb k' k) eqn:E.
  - apply String.eqb_eq in E. split; [discriminate|tauto].
  - apply String.eqb_neq in E. tauto.
Qed.

Lemma get_Some_In (d : AddressBook.t) (k : string) (v : Rcd.t) :
  AddressBook.get d k = Some v -> In (k, v) d.
Proof.
  induction d as [|[k' v'] d IH]; simpl; [discriminate|].
  destruct (String.eqb k' k) eqn:E.
  - apply String.eqb_eq in E. intros H. inversion H; subst. auto.
  - auto.
Qed.

Lemma get_setitem_same (d : AddressBook.t) (k : string) (v : Rcd.t) :
  AddressBook.get (AddressBook.setitem d k v) k = Some v.
Proof.
  induction d as [|[k' v'] d IH]; simpl.
  - now rewrite String.eqb_refl.
  - destruct (String.eqb k' k) eqn:E; simpl; now rewrite E.
Qed.

Lemma get_setitem_other (d : AddressBook.t) (k k' : string) (v : Rcd.t) :
  k <> k' ->
  AddressBook.get (AddressBook.setitem d k v) k' = AddressBook.get d k'.
Proof.
  intros Hk. induction d as [|[k0 v0] d IH]; simpl.
  - apply String.eqb_neq in Hk. now rewrite Hk.
  - destruct (String.eqb k0 k) eqn:E; simpl.
    + apply String.eqb_eq in E. subst k0.
      apply String.eqb_neq in Hk. now rewrite Hk.
    + now rewrite IH.
Qed.

(** Storing under a key what is already there changes nothing. *)
Lemma setitem_get_same (d : AddressBook.t) (k : string) (v : Rcd.t) :
  AddressBook.get d k = Some v -> AddressBook.setitem d k v = d.
Proof.
  induction d as [|[k' v'] d IH]; simpl; [discriminate|].
  destruct (String.eqb k' k) eqn:E.
  - intros H. inversion H. reflexivity.
  - intros H. now rewrite IH.
Qed.

(** Assigning twice to a key is assigning the last value. *)
Lemma setitem_setitem (d : AddressBook.t) (k : string) (v0 v1 : Rcd.t) :
  AddressBook.setitem (AddressBook.setitem d k v0) k v1
  = AddressBook.setitem d k v1.
Proof.
  induction d as [|[k' v'] d IH]; simpl.
  - now rewrite String.eqb_refl.
  - destruct (String.eqb k' k) eqn:E; simpl; rewrite E; [reflexivity|].
    now rewrite IH.
Qed.

Lemma keys_setitem_present (d : AddressBook.t) (k : string) (v : Rcd.t) :
  In k (AddressBook.keys d) ->
  AddressBook.keys (AddressBook.setitem d k v) = AddressBook.keys d.
Proof.
  induction d as [|[k' v'] d IH]; simpl; [tauto|].
  destruct (String.eqb k' k) eqn:E; simpl; [reflexivity|].
  apply String.eqb_neq in E. intros [H|H]; [congruence|]. now rewrite IH.
Qed.

Lemma keys_setitem_absent (d : AddressBook.t) (k : string) (v : Rcd.t) :
  ~ In k (AddressBook.keys d) ->
  AddressBook.keys (AddressBook.setitem d k v)
  = (AddressBook.keys d ++ [k])%list.
Proof.
  induction d as [|[k' v'] d IH]; simpl; [reflexivity|].
  destruct (String.eqb k' k) eqn:E; simpl.
  - apply String.eqb_eq in E. tauto.
  - intros H. rewrite IH by tauto. reflexivity.
Qed.

Lemma In_setitem (d : AddressBook.t) (k : string) (v : Rcd.t)
  (k' : string) (v' : Rcd.t) :
  In (k', v') (AddressBook.setitem d k v) ->
  (k' = k /\ v' = v) \/ In (k', v') d.
Proof.
  induction d as [|[k0 v0] d IH]; simpl.
  - intros [H|[]]. inversion H. auto.
  - destruct (String.eqb k0 k) eqn:E; simpl.
    + apply String.eqb_eq in E. subst k0.
      intros [H|H]; [inversion H; auto | auto].
    + intros [H|H]; [auto|]. destruct (IH H); auto.
Qed.

Lemma In_delitem (d : AddressBook.t) (k : string) (k' : string)
  (v' : Rcd.t) :
  In (k', v') (AddressBook.delitem d k) -> In (k', v') d.
Proof.
  induction d as [|[k0 v0] d IH]; simpl; [tauto|].
  destruct (String.eqb k0 k); simpl; [auto|]. intros [H|H]; auto.
Qed.

Lemma wf_setitem (d : AddressBook.t) (k : string) (v : Rcd.t) :
  AddressBook.wf d -> AddressBook.wf (AddressBook.setitem d k v).
Proof.
  unfold AddressBook.wf. intros H.
  destruct (in_dec string_dec k (AddressBook.keys d)) as [Hin|Hout].
  - now rewrite keys_setitem_present.
  - rewrite keys_setitem_absent by assumption.
    apply NoDup_rev in H. rewrite <- (rev_involutive (_ ++ _)).
    apply NoDup_rev. rewrite rev_app_distr. simpl. constructor; [|exact H].
    now rewrite <- in_rev.
Qed.

Lemma wf_delitem (d : AddressBook.t) (k : string) :
  AddressBook.wf d -> AddressBook.wf (AddressBook.delitem d k).
Proof.
  unfold AddressBook.wf.
  induction d as [|[k' v'] d IH]; simpl; intros H; [exact H|].
  inversion H as [|? ? Hn Hd]; subst.
  destruct (String.eqb k' k); simpl; [exact Hd|].
  constructor; [|auto]. intros Hin. apply Hn.
  apply in_map_iff in Hin. destruct Hin as ([k0 v0] & <- & Hin).
  apply In_delitem in Hin. apply in_map_iff. now exists (k0, v0).
Qed.

(** In a dict, deleting a key leaves no entry under it. *)
Lemma get_delitem_same (d : AddressBook.t) (k : string) :
  AddressBook.wf d -> AddressBook.get (AddressBook.delitem d k) k = None.
Proof.
  unfold AddressBook.wf.
  induction d as [|[k' v'] d IH]; simpl; intros H; [reflexivity|].
  inversion H as [|? ? Hn Hd]; subst.
  destruct (String.eqb k' k) eqn:E; simpl.
  - apply String.eqb_eq in E. subst. now apply get_None_iff.
  - rewrite E. auto.
Qed.

(** ** The change handler *)

(** C3 (confirmed).  For a name that is in the book and an old phone
    that is not among that record's phones, the change handler returns
    "Phone updated." and leaves the book, and so the record's phone list,
    exactly as it was, whatever the new phone is. *)
Theorem change_contact_absent_old (b : AddressBook.t)
  (name old_phone new_phone : string) (r : Rcd.t) :
  AddressBook.find b name = Some r ->
  ~ In old_phone (Rcd.phone_values r) ->
  change_contact [name; old_phone; new_phone] b
  = (Return "Phone updated.", b) /\
  AddressBook.find (snd (change_contact [name; old_phone; new_phone] b)) name
  = Some r.
Proof.
  intros Hf Hold.
  assert (E : change_contact [name; old_phone; new_phone] b
              = (Return "Phone updated.", b)).
  { unfold change_contact, input_error, change_contact_body, bind, lift,
      gets, mutate, ret. simpl.
    unfold AddressBook.find in *. rewrite Hf. simpl. rewrite Hf.
    rewrite (edit_phone_absent r old_phone new_phone Hold).
    now rewrite (setitem_get_same b name r Hf). }
  rewrite E. split; [reflexivity | exact Hf].
Qed.

Lemma change_contact_absent_old_witness :
  change_contact ["bob"; "0000000000"; "not a phone"] [("bob", bob_one_phone)]
  = (Return "Phone updated.", [("bob", bob_one_phone)]).
Proof.
  apply (change_contact_absent_old [("bob", bob_one_phone)] "bob"
           "0000000000" "not a phone" bob_one_phone).
  - reflexivity.
  - simpl. intros [H|[]]. discriminate H.
Defined.

(** ** The book invariant *)

Lemma book_inv_empty : book_inv AddressBook.empty.
Proof.
  split; [constructor | intros k r []].
Qed.

Lemma book_inv_setitem (b : AddressBook.t) (k : string) (v : Rcd.t) :
  book_inv b -> k = Name.value (Rcd.name v) ->
  book_inv (AddressBook.setitem b k v).
Proof.
  intros [Hwf Hk] Hv. split; [now apply wf_setitem|].
  intros k' v' Hin. apply In_setitem in Hin.
  destruct Hin as [[-> ->]|Hin]; [exact Hv | now apply Hk].
Qed.

Lemma book_inv_add_record (b : AddressBook.t) (r : Rcd.t) :
  book_inv b -> book_inv (AddressBook.add_record b r).
Proof. intros H. now apply book_inv_setitem. Qed.

Lemma book_inv_delete (b : AddressBook.t) (name : string) :
  book_inv b -> book_inv (AddressBook.delete b name).
Proof.
  intros [Hwf Hk]. unfold AddressBook.delete.
  destruct (AddressBook.contains b name); [|now split].
  split; [now apply wf_delitem|].
  intros k r Hin. apply In_delitem in Hin. now apply Hk.
Qed.

(** [find] changes nothing and hands out a record named as its key. *)
Lemma book_inv_find (b : AddressBook.t) (name : string) (r : Rcd.t) :
  book_inv b -> AddressBook.find b name = Some r ->
  Name.value (Rcd.name r) = name.
Proof.
  intros [_ Hk] Hf. symmetry. apply Hk. now apply get_Some_In.
Qed.

Lemma preserves_ret {A} (a : A) : preserves (ret a).
Proof. intros b H. exact H. Qed.

Lemma preserves_raise {A} (e : exn) : preserves (@raise A e).
Proof. intros b H. exact H. Qed.

Lemma preserves_lift {A} (r : result A) : preserves (lift r).
Proof. intros b H. exact H. Qed.

Lemma preserves_gets {A} (f : AddressBook.t -> A) : preserves (gets f).
Proof. intros b H. exact H. Qed.

Lemma preserves_bind {A B} (c : M A) (k : A -> M B) :
  preserves c -> (forall a, preserves (k a)) -> preserves (bind c k).
Proof.
  intros Hc Hk b Hb. unfold bind. specialize (Hc b Hb).
  destruct (c b) as [[a|e] b']; simpl in *; [now apply Hk | exact Hc].
Qed.

Lemma preserves_modify (f : AddressBook.t -> AddressBook.t) :
  (forall b, book_inv b -> book_inv (f b)) -> preserves (modify f).
Proof. intros Hf b Hb. now apply Hf. Qed.

(** A method that keeps the record's name keeps the invariant. *)
Lemma preserves_mutate (key : string) (method : Rcd.t -> result Rcd.t) :
  (forall r r', method r = Return r' -> Rcd.name r' = Rcd.name r) ->
  preserves (mutate key method).
Proof.
  intros Hm b Hb. unfold mutate.
  destruct (AddressBook.get b key) as [r|] eqn:Hg; [|exact Hb].
  destruct (method r) as [r'|e] eqn:Hr; simpl; [|exact Hb].
  apply book_inv_setitem; [exact Hb|].
  rewrite (Hm r r' Hr). symmetry. now apply (book_inv_find b key r Hb).
Qed.

Lemma add_phone_name (phone : string) (r r' : Rcd.t) :
  Rcd.add_phone r phone = Return r' -> Rcd.name r' = Rcd.name r.
Proof.
  unfold Rcd.add_phone. destruct (Phone.init phone); simpl; [|discriminate].
  intros H. inversion H. reflexivity.
Qed.

Lemma edit_phone_name (old new : string) (r r' : Rcd.t) :
  Rcd.edit_phone r old new = Return r' -> Rcd.name r' = Rcd.name r.
Proof.
  unfold Rcd.edit_phone.
  destruct (Rcd.edit_loop (Rcd.phones r) old new); simpl; [|discriminate].
  intros H. inversion H. reflexivity.
Qed.

Lemma add_birthday_name (bd : string) (r r' : Rcd.t) :
  Rcd.add_birthday r bd = Return r' -> Rcd.name r' = Rcd.name r.
Proof.
  unfold Rcd.add_birthday. destruct (Birthday.init bd); simpl; [|discriminate].
  intros H. inversion H. reflexivity.
Qed.

Lemma preserves_input_error (body : handler) (args : list string) :
  preserves (body args) -> preserves (input_error body args).
Proof.
  intros H b Hb. specialize (H b Hb). unfold input_error.
  destruct (body args b) as [[s|e] b']; simpl in *; [exact H|].
  destruct (caught e); exact H.
Qed.

Ltac preserve :=
  repeat first
    [ apply preserves_ret | apply preserves_raise | apply preserves_lift
    | apply preserves_gets
    | apply preserves_modify; intros; now apply book_inv_add_record
    | apply preserves_mutate; intros;
      first [ eapply add_phone_name; eassumption
            | eapply edit_phone_name; eassumption
            | eapply add_birthday_name; eassumption ]
    | apply preserves_bind; intros
    | match goal with
      | |- preserves (match ?x with _ => _ end) => destruct x
      end ].

Lemma preserves_add_contact (args : list string) :
  preserves (add_contact_body args).
Proof. unfold add_contact_body. preserve. Qed.

Lemma preserves_change_contact (args : list string) :
  preserves (change_contact_body args).
Proof. unfold change_contact_body. preserve. Qed.

Lemma preserves_show_phone (args : list string) :
  preserves (show_phone_body args).
Proof. unfold show_phone_body. preserve. Qed.

Lemma preserves_show_all (args : list string) :
  preserves (show_all_body args).
Proof. unfold show_all_body. preserve. Qed.

Lemma preserves_add_birthday (args : list string) :
  preserves (add_birthday_body args).
Proof. unfold add_birthday_body. preserve. Qed.

Lemma preserves_show_birthday (args : list string) :
  preserves (show_birthday_body args).
Proof. unfold show_birthday_body. preserve. Qed.

Lemma preserves_birthdays (today : Date.t) (args : list string) :
  preserves (birthdays_body today args).
Proof.
  unfold birthdays_body. apply preserves_bind; [|intros; preserve].
  intros b Hb. exact Hb.
Qed.

Lemma preserves_handler (today : Date.t) (cmd : string) (body : handler)
  (args : list string) :
  In (cmd, body) (handler_bodies today) -> preserves (input_error body args).
Proof.
  intros Hin. apply preserves_input_error. simpl in Hin.
  repeat (destruct Hin as [Hin|Hin]; [inversion Hin; subst; clear Hin|]);
    [ apply preserves_add_contact | apply preserves_change_contact
    | apply preserves_show_phone | apply preserves_show_all
    | apply preserves_add_birthday | apply preserves_show_birthday
    | apply preserves_birthdays | destruct Hin ].
Qed.

Lemma call_book (h : handler) (args : list string) (w : world) :
  book (snd (call h args w)) = snd (h args (book w)).
Proof. unfold call. destruct (h args (book w)) as [[s|e] b']; reflexivity. Qed.

(** One turn of the loop keeps the invariant of the book it works on. *)
Lemma main_step_book_inv (pickle_dumps : AddressBook.t -> bytes)
  (today : Date.t) (user_input : string) (w : world) :
  book_inv (book w) ->
  book_inv (book (snd (main_step pickle_dumps today user_input w))).
Proof.
  intros H. unfold main_step.
  destruct (parse_input user_input) as [[command args]|e]; [|exact H].
  destruct (_ || _).
  { destruct (save_data _ _ _ _) as [[u|e] d']; exact H. }
  repeat match goal with
         | |- context [if String.eqb command ?c then _ else _] =>
             destruct (String.eqb command c)
         end;
    try exact H; rewrite call_book;
    refine (preserves_input_error _ _ _ _ H);
    first [ apply preserves_add_contact | apply preserves_change_contact
          | apply preserves_show_phone | apply preserves_show_all
          | apply preserves_add_birthday | apply preserves_show_birthday
          | apply preserves_birthdays ].
Qed.

(** C9 (confirmed).  In every book a session reaches, the keys are
    pairwise distinct and each key is the name string of the record
    stored under it; [add_record], [delete] and every command handler
    keep this, and [find], which changes nothing, returns a record whose
    name is the key asked for. *)
Theorem book_invariant :
  (forall b, reachable b -> book_inv b) /\
  (forall b r, book_inv b -> book_inv (AddressBook.add_record b r)) /\
  (forall b name r,
      book_inv b -> AddressBook.find b name = Some r ->
      Name.value (Rcd.name r) = name) /\
  (forall b name, book_inv b -> book_inv (AddressBook.delete b name)) /\
  (forall today cmd body args b,
      In (cmd, body) (handler_bodies today) -> book_inv b ->
      book_inv (snd (input_error body args b))).
Proof.
  assert (Hh : forall today cmd body args b,
             In (cmd, body) (handler_bodies today) -> book_inv b ->
             book_inv (snd (input_error body args b))).
  { intros today cmd body args b Hin Hb.
    exact (preserves_handler today cmd body args Hin b Hb). }
  split; [|split; [|split; [|split]]].
  - intros b Hr. induction Hr as [|b r _ IH|b name _ IH
                                  |today cmd body args b Hin _ IH].
    + apply book_inv_empty.
    + now apply book_inv_add_record.
    + now apply book_inv_delete.
    + now apply (Hh today cmd).
  - apply book_inv_add_record.
  - apply book_inv_find.
  - apply book_inv_delete.
  - exact Hh.
Qed.

Lemma book_invariant_witness :
  book_inv
    (snd (add_contact ["bob"; "bad phone"]
            (snd (add_contact ["amy"; "1234567890"] AddressBook.empty)))).
Proof.
  apply (proj1 book_invariant).
  apply (reach_handler (Date.mk 2025 3 1) "add" add_contact_body).
  - simpl. left. reflexivity.
  - apply (reach_handler (Date.mk 2025 3 1) "add" add_contact_body).
    + simpl. left. reflexivity.
    + apply reach_empty.
Defined.

(** ** Tokens of a command line *)

Lemma starts_nonblank_app (t : string) (c : ascii) :
  starts_nonblank t -> starts_nonblank (t ++ String c "").
Proof. intros (a & t' & -> & Ha). now exists a, (t' ++ String c ""). Qed.

Lemma split_scan_tokens (s : string) :
  forall cur t,
    match cur with Some w => starts_nonblank w | None => True end ->
    In t (split_scan cur s) -> starts_nonblank t.
Proof.
  induction s as [|c s IH]; simpl; intros cur t Hcur Hin.
  - destruct cur as [w|]; [|destruct Hin].
    destruct Hin as [<-|[]]. exact Hcur.
  - destruct (isspace c) eqn:Hc.
    + destruct cur as [w|].
      * destruct Hin as [<-|Hin]; [exact Hcur|]. now apply (IH None).
      * now apply (IH None).
    + destruct cur as [w|].
      * apply (IH (Some (w ++ String c ""))); [|exact Hin].
        now apply starts_nonblank_app.
      * apply (IH (Some (String c ""))); [|exact Hin].
        now exists c, "".
Qed.

(** Every token of [split] starts with a character that is not
    whitespace, and so passes the check of [Name]. *)
Lemma split_tokens_are_names (s t : string) :
  In t (split s) -> Name.init t = Return (Name.mk t).
Proof.
  intros Hin. destruct (split_scan_tokens s None t I Hin) as (c & t' & -> & Hc).
  unfold Name.init, strip. simpl. rewrite Hc. simpl.
  destruct (rstrip t'); [rewrite Hc|]; reflexivity.
Qed.

(** ** The add handler *)

Lemma strip_nonblank_init (n : string) :
  String.eqb (strip n) "" = false -> Name.init n = Return (Name.mk n).
Proof. intros H. unfold Name.init. now rewrite H. Qed.

Lemma validate_init (p : string) :
  Phone.validate p = true -> Phone.init p = Return (Phone.mk p).
Proof. intros H. unfold Phone.init. now rewrite H. Qed.

(** A new name: the record is created, stored, and given the phone. *)
Lemma add_contact_absent (b : AddressBook.t) (n p : string) :
  AddressBook.find b n = None ->
  String.eqb (strip n) "" = false ->
  Phone.validate p = true ->
  add_contact [n; p] b
  = (Return "Contact added.",
     AddressBook.setitem b n (Rcd.mk (Name.mk n) [Phone.mk p] None)).
Proof.
  intros Hf Hn Hp.
  unfold add_contact, input_error, add_contact_body, bind, lift, gets,
    modify, mutate, ret, Rcd.init, Rcd.add_phone, AddressBook.add_record.
  simpl. rewrite Hf, (strip_nonblank_init n Hn). simpl.
  rewrite get_setitem_same, (validate_init p Hp). simpl.
  f_equal. apply setitem_setitem.
Qed.

(** A name already there: the phone is appended to its record. *)
Lemma add_contact_present (b : AddressBook.t) (n p : string) (r : Rcd.t) :
  AddressBook.find b n = Some r ->
  Phone.validate p = true ->
  add_contact [n; p] b
  = (Return "Contact updated.",
     AddressBook.setitem b n
       (Rcd.set_phones r (Rcd.phones r ++ [Phone.mk p])%list)).
Proof.
  intros Hf Hp.
  unfold add_contact, input_error, add_contact_body, bind, lift, gets,
    modify, mutate, ret, Rcd.add_phone.
  simpl. rewrite Hf. simpl. unfold AddressBook.find in Hf. rewrite Hf.
  rewrite (validate_init p Hp). reflexivity.
Qed.

Lemma wf_count_one (d : AddressBook.t) (k : string) :
  AddressBook.wf d -> In k (AddressBook.keys d) ->
  count_occ string_dec (AddressBook.keys d) k = 1.
Proof.
  intros Hwf Hin. exact (proj1 (NoDup_count_occ' string_dec _) Hwf k Hin).
Qed.

Lemma In_keys_setitem (d : AddressBook.t) (k : string) (v : Rcd.t) :
  In k (AddressBook.keys (AddressBook.setitem d k v)).
Proof.
  destruct (AddressBook.get (AddressBook.setitem d k v) k) as [v'|] eqn:E.
  - apply get_Some_In in E. apply in_map_iff. now exists (k, v').
  - now rewrite get_setitem_same in E.
Qed.

(** C8, the claim as stated fails: for the empty name, absent from the
    book, both calls return the message of the name check, neither
    "Contact added." nor "Contact updated.", and no record is stored. *)
Lemma add_contact_blank_name :
  add_contact [""; "1234567890"] AddressBook.empty
  = (Return "Name cannot be empty or just whitespace.", AddressBook.empty) /\
  add_contact [""; "1234567891"] AddressBook.empty
  = (Return "Name cannot be empty or just whitespace.", AddressBook.empty) /\
  AddressBook.find AddressBook.empty "" = None.
Proof. repeat split. Qed.

(** C8 (corrected).  From any book, for a name [n] that is not empty or
    whitespace-only, or that is already a key of the book, and phones
    [p1], [p2] that [Phone] accepts: the add handler run with [n], [p1]
    and then with [n], [p2] leaves exactly one record keyed by [n], whose
    phones are those it had before (none if [n] was absent) followed by
    [p1] and [p2]; the first call returns "Contact added." when [n] was
    absent ("Contact updated." otherwise) and the second returns
    "Contact updated.". *)
Theorem add_contact_twice (b : AddressBook.t) (n p1 p2 : string) :
  AddressBook.wf b ->
  String.eqb (strip n) "" = false \/ AddressBook.contains b n = true ->
  Phone.validate p1 = true ->
  Phone.validate p2 = true ->
  exists b1 b2 r,
    add_contact [n; p1] b
    = (Return (if AddressBook.contains b n
               then "Contact updated." else "Contact added."), b1) /\
    add_contact [n; p2] b1 = (Return "Contact updated.", b2) /\
    count_occ string_dec (AddressBook.keys b2) n = 1 /\
    AddressBook.find b2 n = Some r /\
    Rcd.phone_values r
    = (match AddressBook.find b n with
       | Some r0 => Rcd.phone_values r0
       | None => []
       end ++ [p1; p2])%list.
Proof.
  intros Hwf Hn Hp1 Hp2.
  assert (Hstep2 : forall b1 r1,
             AddressBook.wf b1 -> AddressBook.find b1 n = Some r1 ->
             exists b2 r,
               add_contact [n; p2] b1 = (Return "Contact updated.", b2) /\
               count_occ string_dec (AddressBook.keys b2) n = 1 /\
               AddressBook.find b2 n = Some r /\
               Rcd.phone_values r = (Rcd.phone_values r1 ++ [p2])%list).
  { intros b1 r1 Hwf1 Hf1. eexists. eexists.
    split; [apply (add_contact_present b1 n p2 r1 Hf1 Hp2)|].
    split; [apply wf_count_one;
            [now apply wf_setitem | apply In_keys_setitem]|].
    split; [apply get_setitem_same|].
    unfold Rcd.phone_values. simpl. now rewrite map_app. }
  unfold AddressBook.contains in *.
  destruct (AddressBook.find b n) as [r0|] eqn:Hf;
    unfold AddressBook.find in Hf; rewrite Hf in *.
  - destruct (Hstep2 (AddressBook.setitem b n
                        (Rcd.set_phones r0 (Rcd.phones r0 ++ [Phone.mk p1])%list))
                     (Rcd.set_phones r0 (Rcd.phones r0 ++ [Phone.mk p1])%list))
      as (b2 & r & H2 & Hc & Hf2 & Hv).
    + now apply wf_setitem.
    + apply get_setitem_same.
    + exists (AddressBook.setitem b n
                (Rcd.set_phones r0 (Rcd.phones r0 ++ [Phone.mk p1])%list)),
        b2, r.
      split; [now apply add_contact_present|].
      repeat (split; [assumption|]).
      rewrite Hv. unfold Rcd.phone_values. simpl.
      now rewrite map_app, <- app_assoc.
  - destruct Hn as [Hn|Hn]; [|discriminate].
    destruct (Hstep2 (AddressBook.setitem b n
                        (Rcd.mk (Name.mk n) [Phone.mk p1] None))
                     (Rcd.mk (Name.mk n) [Phone.mk p1] None))
      as (b2 & r & H2 & Hc & Hf2 & Hv).
    + now apply wf_setitem.
    + apply get_setitem_same.
    + exists (AddressBook.setitem b n
                (Rcd.mk (Name.mk n) [Phone.mk p1] None)), b2, r.
      split; [now apply add_contact_absent|].
      repeat (split; [assumption|]). exact Hv.
Qed.

Lemma add_contact_twice_witness :
  exists b1 b2 r,
    add_contact ["alice"; "1234567890"] AddressBook.empty
    = (Return "Contact added.", b1) /\
    add_contact ["alice"; "1234567891"] b1
    = (Return "Contact updated.", b2) /\
    count_occ string_dec (AddressBook.keys b2) "alice" = 1 /\
    AddressBook.find b2 "alice" = Some r /\
    Rcd.phone_values r = ["1234567890"; "1234567891"].
Proof.
  apply (add_contact_twice AddressBook.empty "alice"
           "1234567890" "1234567891").
  - constructor.
  - left. reflexivity.
  - reflexivity.
  - reflexivity.
Defined.

(** ** The loop and its error boundary *)

Lemma split_blank (s : string) : str_all isspace s = true -> split s = [].
Proof.
  unfold split. induction s as [|c s IH]; simpl; [reflexivity|].
  intros H. apply andb_true_iff in H. destruct H as [Hc Hs].
  rewrite Hc. auto.
Qed.

(** C10 (confirmed).  For a line that is empty or made of whitespace
    only, [parse_input] raises [ValueError] (there is no token to unpack
    the command from); the loop calls it outside every handler, so the
    turn ends the process with that error, nothing is printed, and the
    lines that follow are never read. *)
Theorem blank_line_ends_loop (pickle_dumps : AddressBook.t -> bytes)
  (today : Date.t) (user_input : string) (rest : list string) (w : world) :
  str_all isspace user_input = true ->
  exists msg,
    parse_input user_input = Raise (ValueError msg) /\
    main_step pickle_dumps today user_input w = (Crashed (ValueError msg), w) /\
    main_loop pickle_dumps today (user_input :: rest) w
    = (Crashed (ValueError msg), w).
Proof.
  intros H.
  exists "not enough values to unpack (expected at least 1, got 0)".
  assert (E : parse_input user_input
              = Raise (ValueError
                  "not enough values to unpack (expected at least 1, got 0)")).
  { unfold parse_input. now rewrite (split_blank user_input H). }
  split; [exact E|].
  assert (E' : main_step pickle_dumps today user_input w
               = (Crashed (ValueError
                    "not enough values to unpack (expected at least 1, got 0)"),
                  w)).
  { unfold main_step. now rewrite E. }
  split; [exact E'|]. simpl. now rewrite E'.
Qed.

Lemma blank_line_ends_loop_witness :
  exists msg,
    parse_input "   " = Raise (ValueError msg) /\
    main_step (fun _ => []) (Date.mk 2025 3 1) "   "
      (mkWorld AddressBook.empty (fun _ => None) [])
    = (Crashed (ValueError msg),
       mkWorld AddressBook.empty (fun _ => None) []) /\
    main_loop (fun _ => []) (Date.mk 2025 3 1) ["   "; "hello"]
      (mkWorld AddressBook.empty (fun _ => None) [])
    = (Crashed (ValueError msg),
       mkWorld AddressBook.empty (fun _ => None) []).
Proof.
  apply (blank_line_ends_loop (fun _ => []) (Date.mk 2025 3 1) "   "
           ["hello"] (mkWorld AddressBook.empty (fun _ => None) [])).
  reflexivity.
Defined.

Lemma caught_validation (e : exn) :
  validation_or_argument_error e -> caught e = true.
Proof. intros (m & [-> | ->]); reflexivity. Qed.

Section RaisesOnly.

Variable P : exn -> Prop.

Lemma raises_only_ret {A} (a : A) : raises_only P (ret a).
Proof. intros b e b' H. discriminate H. Qed.

Lemma raises_only_gets {A} (f : AddressBook.t -> A) :
  raises_only P (gets f).
Proof. intros b e b' H. discriminate H. Qed.

Lemma raises_only_modify (f : AddressBook.t -> AddressBook.t) :
  raises_only P (modify f).
Proof. intros b e b' H. discriminate H. Qed.

Lemma raises_only_raise {A} (e : exn) : P e -> raises_only P (@raise A e).
Proof. intros He b e' b' H. inversion H; subst. exact He. Qed.

Lemma raises_only_lift {A} (r : result A) :
  (forall e, r = Raise e -> P e) -> raises_only P (lift r).
Proof. intros Hr b e b' H. inversion H; subst. now apply Hr. Qed.

Lemma raises_only_bind {A B} (c : M A) (k : A -> M B) :
  raises_only P c -> (forall a, raises_only P (k a)) ->
  raises_only P (bind c k).
Proof.
  intros Hc Hk b e b' H. unfold bind in H.
  destruct (c b) as [[a|e0] b0] eqn:E.
  - exact (Hk a b0 e b' H).
  - inversion H; subst. exact (Hc b e b' E).
Qed.

Lemma raises_only_mutate (key : string) (method : Rcd.t -> result Rcd.t) :
  (forall r e, method r = Raise e -> P e) ->
  raises_only P (mutate key method).
Proof.
  intros Hm b e b' H. unfold mutate in H.
  destruct (AddressBook.get b key) as [r|]; [|discriminate].
  destruct (method r) as [r'|e0] eqn:E; [discriminate|].
  inversion H; subst. exact (Hm r e E).
Qed.

End RaisesOnly.

Lemma Name_init_raises (n : string) (e : exn) :
  Name.init n = Raise e -> validation_or_argument_error e.
Proof.
  unfold Name.init. destruct (String.eqb (strip n) ""); [|discriminate].
  intros H. inversion H. eexists. left. reflexivity.
Qed.

Lemma Phone_init_raises (p : string) (e : exn) :
  Phone.init p = Raise e -> validation_or_argument_error e.
Proof.
  unfold Phone.init. destruct (negb (Phone.validate p)); [|discriminate].
  intros H. inversion H. eexists. left. reflexivity.
Qed.

Lemma Date_new_raises (y m d : Z) (e : exn) :
  Date.new y m d = Raise e -> exists msg, e = ValueError msg.
Proof.
  unfold Date.new.
  repeat match goal with
         | |- context [if ?c then _ else _] => destruct c
         end; intros H; inversion H; eexists; reflexivity.
Qed.

Lemma strptime_raises (s : string) (e : exn) :
  strptime s = Raise e -> exists msg, e = ValueError msg.
Proof.
  unfold strptime. destruct (strptime_matches s) as [|[[[d m] y] rest] l].
  - intros H. inversion H. eexists. reflexivity.
  - destruct (negb (String.eqb rest "")).
    + intros H. inversion H. eexists. reflexivity.
    + apply Date_new_raises.
Qed.

Lemma Birthday_init_raises (s : string) (e : exn) :
  Birthday.init s = Raise e ->
  e = ValueError "Invalid date format. Use DD.MM.YYYY".
Proof.
  unfold Birthday.init. destruct (strptime s) as [d|e0] eqn:E; [discriminate|].
  destruct (strptime_raises s e0 E) as (m & ->).
  intros H. now inversion H.
Qed.

Lemma Rcd_init_raises (n : string) (e : exn) :
  Rcd.init n = Raise e -> validation_or_argument_error e.
Proof.
  unfold Rcd.init. destruct (Name.init n) eqn:E; [discriminate|].
  simpl. intros H. inversion H; subst. exact (Name_init_raises n e E).
Qed.

Lemma add_phone_raises (r : Rcd.t) (p : string) (e : exn) :
  Rcd.add_phone r p = Raise e -> validation_or_argument_error e.
Proof.
  unfold Rcd.add_phone. destruct (Phone.init p) eqn:E; [discriminate|].
  simpl. intros H. inversion H; subst. exact (Phone_init_raises p e E).
Qed.

Lemma edit_loop_raises (ps : list Phone.t) (old new : string) (e : exn) :
  Rcd.edit_loop ps old new = Raise e -> validation_or_argument_error e.
Proof.
  induction ps as [|p ps IH]; simpl; [discriminate|].
  destruct (String.eqb (Phone.value p) old).
  - destruct (Phone.init new) eqn:E; [discriminate|].
    simpl. intros H. inversion H; subst. exact (Phone_init_raises new e E).
  - destruct (Rcd.edit_loop ps old new); [discriminate|].
    simpl. intros H. inversion H; subst. now apply IH.
Qed.

Lemma edit_phone_raises (r : Rcd.t) (old new : string) (e : exn) :
  Rcd.edit_phone r old new = Raise e -> validation_or_argument_error e.
Proof.
  unfold Rcd.edit_phone.
  destruct (Rcd.edit_loop (Rcd.phones r) old new) eqn:E; [discriminate|].
  simpl. intros H. inversion H; subst. exact (edit_loop_raises _ _ _ _ E).
Qed.

Lemma add_birthday_raises (r : Rcd.t) (s : string) (e : exn) :
  Rcd.add_birthday r s = Raise e -> validation_or_argument_error e.
Proof.
  unfold Rcd.add_birthday. destruct (Birthday.init s) eqn:E; [discriminate|].
  simpl. intros H. inversion H; subst.
  rewrite (Birthday_init_raises s e E). eexists. left. reflexivity.
Qed.

Lemma unpack2_raises (args : list string) (e : exn) :
  unpack2 args = Raise e -> validation_or_argument_error e.
Proof.
  unfold unpack2. destruct args as [|a [|b [|c l]]]; simpl;
    intros H; inversion H; eexists; left; reflexivity.
Qed.

Lemma unpack3_raises (args : list string) (e : exn) :
  unpack3 args = Raise e -> validation_or_argument_error e.
Proof.
  unfold unpack3. destruct args as [|a [|b [|c [|d l]]]]; simpl;
    intros H; inversion H; eexists; left; reflexivity.
Qed.

Lemma item0_raises (args : list string) (e : exn) :
  item0 args = Raise e -> validation_or_argument_error e.
Proof.
  destruct args; simpl; intros H; inversion H.
  eexists. right. reflexivity.
Qed.

Ltac raises :=
  repeat first
    [ apply raises_only_ret | apply raises_only_gets
    | apply raises_only_modify
    | apply raises_only_raise; eexists; left; reflexivity
    | apply raises_only_lift; intros;
      first [ eapply Rcd_init_raises; eassumption
            | eapply unpack2_raises; eassumption
            | eapply unpack3_raises; eassumption
            | eapply item0_raises; eassumption ]
    | apply raises_only_mutate; intros;
      first [ eapply add_phone_raises; eassumption
            | eapply edit_phone_raises; eassumption
            | eapply add_birthday_raises; eassumption ]
    | apply raises_only_bind; intros
    | match goal with
      | |- raises_only _ (match ?x with _ => _ end) => destruct x
      | |- raises_only _ (if ?x then _ else _) => destruct x
      end ].

(** The bodies of the six handlers that do not read the clock raise
    nothing but validation and missing-argument errors. *)
Lemma handler_body_raises (today : Date.t) (cmd : string) (body : handler)
  (args : list string) :
  In (cmd, body) (handler_bodies today) -> cmd <> "birthdays" ->
  raises_only validation_or_argument_error (body args).
Proof.
  intros Hin Hc. simpl in Hin.
  repeat (destruct Hin as [Hin|Hin]; [inversion Hin; subst; clear Hin|]);
    try contradiction; try congruence.
  - unfold add_contact_body. raises.
  - unfold change_contact_body. raises.
  - unfold show_phone_body. raises.
  - unfold show_all_body. raises.
  - unfold add_birthday_body. raises.
  - unfold show_birthday_body. raises.
Qed.

Lemma upcoming_loop_raises (today next_week : Date.t) (rs : list Rcd.t) :
  forall acc e,
    AddressBook.upcoming_loop today next_week rs acc = Raise e ->
    validation_or_argument_error e.
Proof.
  induction rs as [|r rs IH]; simpl; intros acc e; [discriminate|].
  destruct (Rcd.birthday r) as [bd|]; [|apply IH].
  destruct (Date.replace_year _ _) as [d|e0] eqn:E; simpl.
  - destruct (_ && _); apply IH.
  - intros H. inversion H; subst.
    destruct (Date_new_raises _ _ _ _ E) as (m & ->).
    eexists. left. reflexivity.
Qed.

(** The body of [birthdays] raises a validation error (from the change
    of year) or, when [today + 7 days] is past the last date, the
    [OverflowError] of that sum. *)
Lemma birthdays_body_raises (today : Date.t) (args : list string) :
  raises_only
    (fun e => validation_or_argument_error e
              \/ Date.add_days today 7 = Raise e)
    (birthdays_body today args).
Proof.
  intros b e b' H. unfold birthdays_body, bind, query in H.
  destruct (AddressBook.get_upcoming_birthdays today b) as [l|e0] eqn:E.
  - destruct l; discriminate H.
  - inversion H; subst. unfold AddressBook.get_upcoming_birthdays in E.
    destruct (Date.add_days today 7) as [nw|e1]; simpl in E.
    + left. exact (upcoming_loop_raises _ _ _ _ _ E).
    + right. inversion E. reflexivity.
Qed.

Lemma input_error_catches (body : handler) (args : list string)
  (b b' : AddressBook.t) (e : exn) :
  body args b = (Raise e, b') -> caught e = true ->
  input_error body args b = (Return (exn_str e), b').
Proof. intros H Hc. unfold input_error. now rewrite H, Hc. Qed.

Lemma input_error_returns (body : handler) (args : list string)
  (b b' : AddressBook.t) (s : string) :
  body args b = (Return s, b') -> input_error body args b = (Return s, b').
Proof. intros H. unfold input_error. now rewrite H. Qed.

(** A turn of the loop on a handler's command word is a call of the
    wrapped handler. *)
Lemma main_step_dispatch (pickle_dumps : AddressBook.t -> bytes)
  (today : Date.t) (user_input command : string) (args : list string)
  (body : handler) (w : world) :
  parse_input user_input = Return (command, args) ->
  In (command, body) (handler_bodies today) ->
  main_step pickle_dumps today user_input w
  = call (input_error body) args w.
Proof.
  intros Hp Hin. unfold main_step. rewrite Hp. simpl in Hin.
  repeat (destruct Hin as [Hin|Hin]; [inversion Hin; subst; clear Hin|]);
    try reflexivity.
  destruct Hin.
Qed.

(** C5 (confirmed).  For every wrapped handler, reached through its
    command word, and every input on which the handler's body raises a
    validation error (bad name, phone or date) or a missing-argument
    error: the wrapper catches it and returns its message, the loop
    prints that message and goes on to the next turn. *)
Theorem handler_errors_are_reported (pickle_dumps : AddressBook.t -> bytes)
  (today : Date.t) (user_input command : string) (args : list string)
  (body : handler) (w : world) (e : exn) (b' : AddressBook.t) :
  parse_input user_input = Return (command, args) ->
  In (command, body) (handler_bodies today) ->
  body args (book w) = (Raise e, b') ->
  validation_or_argument_error e ->
  input_error body args (book w) = (Return (exn_str e), b') /\
  main_step pickle_dumps today user_input w
  = (Running, mkWorld b' (disk w) (printed w ++ [exn_str e])%list).
Proof.
  intros Hp Hin Hb He.
  assert (E : input_error body args (book w) = (Return (exn_str e), b'))
    by exact (input_error_catches body args (book w) b' e Hb
                (caught_validation e He)).
  split; [exact E|].
  rewrite (main_step_dispatch pickle_dumps today user_input command args
             body w Hp Hin).
  unfold call. now rewrite E.
Qed.

Lemma handler_errors_are_reported_witness :
  input_error add_contact_body ["bob"; "123"] AddressBook.empty
  = (Return (Phone.invalid_msg "123"),
     [("bob", Rcd.mk (Name.mk "bob") [] None)]) /\
  main_step (fun _ => []) (Date.mk 2025 3 1) "add bob 123"
    (mkWorld AddressBook.empty (fun _ => None) [])
  = (Running,
     mkWorld [("bob", Rcd.mk (Name.mk "bob") [] None)] (fun _ => None)
       [Phone.invalid_msg "123"]).
Proof.
  apply (handler_errors_are_reported (fun _ => []) (Date.mk 2025 3 1)
           "add bob 123" "add" ["bob"; "123"] add_contact_body
           (mkWorld AddressBook.empty (fun _ => None) [])
           (ValueError (Phone.invalid_msg "123"))
           [("bob", Rcd.mk (Name.mk "bob") [] None)]).
  - reflexivity.
  - simpl. left. reflexivity.
  - reflexivity.
  - exists (Phone.invalid_msg "123"). left. reflexivity.
Defined.

(** No turn on a handler's command word ends the loop, the one
    exception being [birthdays] when [today + 7 days] overflows. *)
Lemma handler_turn_runs (pickle_dumps : AddressBook.t -> bytes)
  (today : Date.t) (user_input command : string) (args : list string)
  (body : handler) (w : world) :
  parse_input user_input = Return (command, args) ->
  In (command, body) (handler_bodies today) ->
  command <> "birthdays" \/ is_return (Date.add_days today 7) = true ->
  fst (main_step pickle_dumps today user_input w) = Running.
Proof.
  intros Hp Hin Hc.
  rewrite (main_step_dispatch pickle_dumps today user_input command args
             body w Hp Hin).
  unfold call. destruct (body args (book w)) as [[s|e] b'] eqn:E.
  - now rewrite (input_error_returns body args (book w) b' s E).
  - assert (He : validation_or_argument_error e).
    { destruct (string_dec command "birthdays") as [->|Hne].
      - assert (body = birthdays_body today).
        { simpl in Hin.
          repeat (destruct Hin as [Hin|Hin];
                  [inversion Hin; subst; clear Hin|]);
            try reflexivity; try discriminate. destruct Hin. }
        subst body.
        destruct (birthdays_body_raises today args (book w) e b' E)
          as [H|H]; [exact H|].
        destruct Hc as [Hc|Hc]; [congruence|].
        rewrite H in Hc. discriminate.
      - exact (handler_body_raises today command body args Hin Hne
                 (book w) e b' E). }
    now rewrite (input_error_catches body args (book w) b' e E
                   (caught_validation e He)).
Qed.

(** ** Persistence *)

(** C6, the claim as stated fails: the snapshot file exists and can be
    read, the deserialization fails, and the failure does not leave
    [load_data]: being a [FileNotFoundError], raised inside the [try],
    it is caught and an empty book is returned in place of the
    snapshot. *)
Lemma load_data_swallows_pickle_error :
  read_file snapshot_on_disk default_filename
  = Return (Snapshot.dumps amy_and_bob) /\
  load_body loads_missing_resource default_filename snapshot_on_disk
  = Raise (FileNotFoundError "No such file or directory: 'photo.png'") /\
  load_data loads_missing_resource default_filename snapshot_on_disk
  = Return AddressBook.empty.
Proof. repeat split. Qed.

(** C6 (corrected).  [load_data] returns what [pickle] makes of the
    snapshot file when reading and deserialization succeed.  It returns
    a fresh empty book when the snapshot file does not exist, and also
    whenever the opening or the deserialization raises
    [FileNotFoundError] for any other reason, as [pickle.load] may on a
    file that exists.  Every failure that is not a [FileNotFoundError]
    leaves [load_data] as it was raised: a file that cannot be opened
    gives its [PermissionError], a content that [pickle] refuses gives
    the error of [pickle]. *)
Theorem load_data_spec (pickle_loads : bytes -> result AddressBook.t)
  (filename : string) (d : fs) :
  (forall b,
      load_body pickle_loads filename d = Return b ->
      load_data pickle_loads filename d = Return b) /\
  (d filename = None ->
   load_data pickle_loads filename d = Return AddressBook.empty) /\
  (forall msg,
      load_body pickle_loads filename d = Raise (FileNotFoundError msg) ->
      load_data pickle_loads filename d = Return AddressBook.empty) /\
  (forall content msg,
      read_file d filename = Return content ->
      pickle_loads content = Raise (FileNotFoundError msg) ->
      load_data pickle_loads filename d = Return AddressBook.empty) /\
  (d filename = Some Locked ->
   load_data pickle_loads filename d
   = Raise (PermissionError ("Permission denied: " ++ filename))) /\
  (forall content e,
      read_file d filename = Return content ->
      pickle_loads content = Raise e ->
      (forall msg, e <> FileNotFoundError msg) ->
      load_data pickle_loads filename d = Raise e) /\
  (forall e,
      load_body pickle_loads filename d = Raise e ->
      (forall msg, e <> FileNotFoundError msg) ->
      load_data pickle_loads filename d = Raise e).
Proof.
  assert (G : forall e,
             load_body pickle_loads filename d = Raise e ->
             (forall msg, e <> FileNotFoundError msg) ->
             load_data pickle_loads filename d = Raise e).
  { intros e He Hn. unfold load_data. rewrite He.
    destruct e; try reflexivity. now elim (Hn msg). }
  assert (S : forall msg,
             load_body pickle_loads filename d
             = Raise (FileNotFoundError msg) ->
             load_data pickle_loads filename d = Return AddressBook.empty).
  { intros msg He. unfold load_data. now rewrite He. }
  split; [|split; [|split; [|split; [|split; [|split]]]]].
  - intros b H. unfold load_data. now rewrite H.
  - intros H. unfold load_data, load_body, read_file. now rewrite H.
  - exact S.
  - intros content msg H He. apply (S msg).
    unfold load_body. now rewrite H.
  - intros H. unfold load_data, load_body, read_file. now rewrite H.
  - intros content e H He Hn. apply G; [|exact Hn].
    unfold load_body. now rewrite H.
  - exact G.
Qed.

Lemma load_data_spec_witness :
  load_data Snapshot.loads default_filename no_files
  = Return AddressBook.empty /\
  load_data loads_missing_resource default_filename snapshot_on_disk
  = Return AddressBook.empty /\
  load_data Snapshot.loads default_filename
    (fun p => if String.eqb p default_filename then Some Locked else None)
  = Raise (PermissionError ("Permission denied: " ++ default_filename)) /\
  load_data Snapshot.loads default_filename
    (fs_write no_files default_filename [Byte.x07])
  = Raise (UnpicklingError "invalid snapshot") /\
  load_data Snapshot.loads default_filename snapshot_on_disk
  = Return amy_and_bob.
Proof.
  split; [|split; [|split; [|split]]].
  - apply (proj1 (proj2
             (load_data_spec Snapshot.loads default_filename no_files))).
    reflexivity.
  - apply (proj1 (proj2 (proj2 (proj2
             (load_data_spec loads_missing_resource default_filename
                snapshot_on_disk))))
             (Snapshot.dumps amy_and_bob)
             "No such file or directory: 'photo.png'");
      reflexivity.
  - apply (proj1 (proj2 (proj2 (proj2 (proj2
             (load_data_spec Snapshot.loads default_filename
                (fun p => if String.eqb p default_filename
                          then Some Locked else None))))))).
    reflexivity.
  - apply (proj1 (proj2 (proj2 (proj2 (proj2 (proj2
             (load_data_spec Snapshot.loads default_filename
                (fs_write no_files default_filename [Byte.x07])))))))
             [Byte.x07]).
    + reflexivity.
    + reflexivity.
    + intros msg H. discriminate H.
  - apply (proj1 (load_data_spec Snapshot.loads default_filename
                    snapshot_on_disk)).
    reflexivity.
Defined.

(** At startup a failed load ends the process before the loop. *)
Lemma main_load_failure (pickle_dumps : AddressBook.t -> bytes)
  (pickle_loads : bytes -> result AddressBook.t) (today : Date.t)
  (inputs : list string) (d : fs) (e : exn) :
  load_data pickle_loads default_filename d = Raise e ->
  fst (main pickle_dumps pickle_loads today inputs d) = Crashed e.
Proof. intros H. unfold main. now rewrite H. Qed.

(** A save that succeeds has written the pickled book under the name. *)
Lemma save_data_writes (pickle_dumps : AddressBook.t -> bytes)
  (b : AddressBook.t) (filename : string) (d d' : fs) :
  save_data pickle_dumps b filename d = (Return tt, d') ->
  d' = fs_write d filename (pickle_dumps b).
Proof.
  unfold save_data, write_file. intros Hs.
  destruct (d filename) as [[c| |c]|]; now inversion Hs.
Qed.

(** A load reads what was last written under the name. *)
Lemma load_data_written (pickle_loads : bytes -> result AddressBook.t)
  (filename : string) (d : fs) (content : bytes) :
  load_body pickle_loads filename (fs_write d filename content)
  = pickle_loads content.
Proof.
  unfold load_body, read_file, fs_write. now rewrite String.eqb_refl.
Qed.

(** C7 (confirmed).  For every book that [pickle] itself restores (its
    [loads] gives back what its [dumps] was given), a save to the
    snapshot file that succeeds followed by a load from that file
    returns the same book: the same names, under the same keys and in
    the same order, with the same phone lists and the same birthdays. *)
Theorem save_then_load (pickle_dumps : AddressBook.t -> bytes)
  (pickle_loads : bytes -> result AddressBook.t)
  (b : AddressBook.t) (filename : string) (d d' : fs) :
  pickle_loads (pickle_dumps b) = Return b ->
  save_data pickle_dumps b filename d = (Return tt, d') ->
  load_data pickle_loads filename d' = Return b.
Proof.
  intros Hp Hs.
  rewrite (save_data_writes pickle_dumps b filename d d' Hs).
  unfold load_data. rewrite load_data_written, Hp. reflexivity.
Qed.

Lemma save_then_load_witness :
  load_data Snapshot.loads default_filename
    (fs_write no_files default_filename (Snapshot.dumps amy_and_bob))
  = Return amy_and_bob.
Proof.
  apply (save_then_load Snapshot.dumps Snapshot.loads amy_and_bob
           default_filename no_files).
  - vm_compute. reflexivity.
  - reflexivity.
Defined.

(** A session that ends on [exit] leaves a disk from which the next
    session starts with the book the first one ended with. *)
Lemma exit_then_restart (pickle_dumps : AddressBook.t -> bytes)
  (pickle_loads : bytes -> result AddressBook.t) (today : Date.t)
  (w w' : world) :
  pickle_loads (pickle_dumps (book w)) = Return (book w) ->
  main_step pickle_dumps today "exit" w = (Exited, w') ->
  load_data pickle_loads default_filename (disk w') = Return (book w).
Proof.
  intros Hp Hs.
  change (main_step pickle_dumps today "exit" w)
    with (match save_data pickle_dumps (book w) default_filename (disk w)
          with
          | (Return _, disk') =>
              (Exited, print (mkWorld (book w) disk' (printed w)) "Good bye!")
          | (Raise e, disk') =>
              (Crashed e, mkWorld (book w) disk' (printed w))
          end) in Hs.
  destruct (save_data pickle_dumps (book w) default_filename (disk w))
    as [[[]|e] d'] eqn:E; inversion Hs; subst; simpl.
  rewrite (save_data_writes pickle_dumps (book w) default_filename
             (disk w) d' E).
  unfold load_data. rewrite load_data_written, Hp. reflexivity.
Qed.

(** ** Upcoming birthdays *)

(** As long as every birthday exists in the year of [today], the loop
    collects, in the order of the book, the names of the records in the
    window. *)
Lemma upcoming_loop_spec (today next_week : Date.t) (rs : list Rcd.t) :
  forallb (replaceable (Date.year today)) rs = true ->
  forall acc,
    AddressBook.upcoming_loop today next_week rs acc
    = Return (acc ++ map (fun r => Name.value (Rcd.name r))
                         (filter (in_window today next_week) rs))%list.
Proof.
  induction rs as [|r rs IH]; simpl; intros H acc.
  - now rewrite app_nil_r.
  - apply andb_true_iff in H. destruct H as [Hr Hrs].
    unfold in_window, replaceable in *.
    destruct (Rcd.birthday r) as [b|]; [|now apply IH].
    destruct (Date.replace_year (Birthday.value b) (Date.year today))
      as [d|e]; [|discriminate]. simpl.
    destruct (Date.le today d && Date.le d next_week); rewrite IH by exact Hrs.
    + simpl. now rewrite <- app_assoc.
    + reflexivity.
Qed.

(** [get_upcoming_birthdays] where it is defined: [today + 7 days] is a
    date and no birthday is a 29 February missing from this year.  A
    name is returned exactly for the records with a birthday in the
    window; records without a birthday are left out. *)
Lemma get_upcoming_birthdays_spec (today next_week : Date.t)
  (b : AddressBook.t) :
  Date.add_days today 7 = Return next_week ->
  forallb (replaceable (Date.year today)) (AddressBook.values b) = true ->
  AddressBook.get_upcoming_birthdays today b
  = Return (map (fun r => Name.value (Rcd.name r))
                (filter (in_window today next_week) (AddressBook.values b))).
Proof.
  intros Hn Hr. unfold AddressBook.get_upcoming_birthdays. rewrite Hn. simpl.
  now rewrite (upcoming_loop_spec today next_week _ Hr).
Qed.

Lemma get_upcoming_birthdays_In (today next_week : Date.t)
  (b : AddressBook.t) (names : list string) (n : string) :
  Date.add_days today 7 = Return next_week ->
  forallb (replaceable (Date.year today)) (AddressBook.values b) = true ->
  AddressBook.get_upcoming_birthdays today b = Return names ->
  (In n names <->
   exists r bd d,
     In r (AddressBook.values b) /\ Name.value (Rcd.name r) = n /\
     Rcd.birthday r = Some bd /\
     Date.replace_year (Birthday.value bd) (Date.year today) = Return d /\
     Date.le today d = true /\ Date.le d next_week = true).
Proof.
  intros Hn Hr Hg.
  rewrite (get_upcoming_birthdays_spec today next_week b Hn Hr) in Hg.
  inversion Hg; subst names; clear Hg. rewrite in_map_iff. split.
  - intros (r & Hname & Hin). apply filter_In in Hin.
    destruct Hin as [Hin Hw]. unfold in_window in Hw.
    destruct (Rcd.birthday r) as [bd|] eqn:Hb; [|discriminate].
    destruct (Date.replace_year _ _) as [d|e] eqn:Hd; [|discriminate].
    apply andb_true_iff in Hw. destruct Hw as [H1 H2].
    exists r, bd, d. auto 10.
  - intros (r & bd & d & Hin & Hname & Hb & Hd & H1 & H2).
    exists r. split; [exact Hname|]. apply filter_In. split; [exact Hin|].
    unfold in_window. now rewrite Hb, Hd, H1, H2.
Qed.

(** The change of year fails on valid dates only for a 29 February put
    into a year that is not a leap year. *)
Lemma replace_year_fails (d : Date.t) (y : Z) :
  Date.valid d = true -> (1 <= y <= 9999)%Z ->
  (is_return (Date.replace_year d y) = false <->
   Date.month d = 2%Z /\ Date.day d = 29%Z /\ Date.is_leap y = false).
Proof.
  destruct d as [y0 m dd]. unfold Date.valid, Date.replace_year, Date.new.
  simpl. intros Hv Hy.
  repeat (apply andb_true_iff in Hv; destruct Hv as [Hv ?]).
  unfold Date.MINYEAR, Date.MAXYEAR in *.
  assert (Hy1 : ((1 <=? y) && (y <=? 9999))%Z = true).
  { apply andb_true_iff. split; apply Z.leb_le; lia. }
  rewrite Hy1. simpl.
  assert (Hm : ((1 <=? m) && (m <=? 12))%Z = true)
    by (apply andb_true_iff; split; assumption).
  rewrite Hm. simpl.
  assert (Hd1 : (1 <=? dd)%Z = true) by assumption.
  rewrite Hd1. simpl.
  assert (Hcases : (m = 1 \/ m = 2 \/ m = 3 \/ m = 4 \/ m = 5 \/ m = 6 \/
                    m = 7 \/ m = 8 \/ m = 9 \/ m = 10 \/ m = 11 \/ m = 12)%Z)
    by (apply Z.leb_le in H1, H2; lia).
  unfold Date.days_in_month in *.
  match goal with
  | H : (dd <=? _)%Z = true |- _ => apply Z.leb_le in H; rename H into Hdd
  end.
  destruct (Date.is_leap y) eqn:Ly; destruct (Date.is_leap y0) eqn:Ly0;
    repeat (destruct Hcases as [->|Hcases]); try subst m; simpl in *;
    match goal with
    | |- context [(dd <=? ?k)%Z] =>
        destruct (Z.leb_spec dd k); simpl; split;
        try discriminate; try lia; try (intros (? & ? & ?); lia);
        try (intros; repeat split; try reflexivity; try lia; try discriminate)
    end.
Qed.

(** One birthday that does not exist in the year of [today] makes the
    loop raise, whatever the other records are. *)
Lemma upcoming_loop_fails (today next_week : Date.t) (rs : list Rcd.t) :
  forallb (replaceable (Date.year today)) rs = false ->
  forall acc,
    is_return (AddressBook.upcoming_loop today next_week rs acc) = false.
Proof.
  induction rs as [|r rs IH]; simpl; intros H acc; [discriminate|].
  unfold replaceable in H at 1.
  destruct (Rcd.birthday r) as [b|]; [|now apply IH].
  destruct (Date.replace_year (Birthday.value b) (Date.year today))
    as [d|e]; simpl in *; [|reflexivity].
  destruct (Date.le today d && Date.le d next_week); now apply IH.
Qed.

Lemma get_upcoming_birthdays_fails (today : Date.t) (b : AddressBook.t) :
  forallb (replaceable (Date.year today)) (AddressBook.values b) = false ->
  is_return (AddressBook.get_upcoming_birthdays today b) = false.
Proof.
  intros H. unfold AddressBook.get_upcoming_birthdays.
  destruct (Date.add_days today 7) as [nw|e]; simpl; [|reflexivity].
  now apply upcoming_loop_fails.
Qed.

(** The sample book is what four commands of a session build. *)
Lemma leap_session_book :
  forall cmd,
    main_loop Snapshot.dumps march_first_2025 (leap_session ++ [cmd])
      (mkWorld AddressBook.empty no_files [])
    = main_loop Snapshot.dumps march_first_2025 [cmd]
        (mkWorld leap_book no_files
           ["Contact added."; "Birthday added.";
            "Contact added."; "Birthday added."]).
Proof. intros cmd. reflexivity. Qed.

(** C4 (code_bug).  On 1 March 2025, with bob born on 29.02.2024 and amy
    on 01.03.2000: amy's birthday of this year is today, inside the
    window, so her name is due; but bob's 29 February does not exist in
    2025, the change of year raises, and [get_upcoming_birthdays]
    returns no list at all.  The [birthdays] command prints the error
    text of the date constructor instead of amy's name. *)
Theorem upcoming_birthdays_leap_day :
  in_window march_first_2025 (Date.mk 2025 3 8)
    (Rcd.mk (Name.mk "amy") [Phone.mk "1234567891"]
       (Some (Birthday.mk (Date.mk 2000 3 1)))) = true /\
  Date.add_days march_first_2025 7 = Return (Date.mk 2025 3 8) /\
  AddressBook.get_upcoming_birthdays march_first_2025 leap_book
  = Raise (ValueError "day is out of range for month") /\
  birthdays march_first_2025 [] leap_book
  = (Return "day is out of range for month", leap_book).
Proof. repeat split. Qed.

(** ** Checks of the runtime model on concrete inputs *)

Example split_tokens : split "  add  bob 123 " = ["add"; "bob"; "123"].
Proof. reflexivity. Qed.

Example parse_input_lowercases :
  parse_input "ADD Bob 1234567890" = Return ("add", ["Bob"; "1234567890"]).
Proof. reflexivity. Qed.

Example strptime_leap_day :
  strptime "29.02.2024" = Return (Date.mk 2024 2 29).
Proof. reflexivity. Qed.

Example strptime_no_leap_day : is_return (strptime "29.02.2025") = false.
Proof. reflexivity. Qed.

Example strptime_short_fields :
  strptime "1.2.2025" = Return (Date.mk 2025 2 1).
Proof. reflexivity. Qed.

Example strptime_trailing :
  strptime "01.02.2025x" = Raise (ValueError "unconverted data remains: x").
Proof. reflexivity. Qed.

Example strftime_pads : strftime (Date.mk 2025 2 1) = "01.02.2025".
Proof. reflexivity. Qed.

Example strftime_year_below_1000 :
  strftime (Date.mk 987 8 7) = "07.08.987".
Proof. reflexivity. Qed.

Example save_on_full_device :
  save_data Snapshot.dumps amy_and_bob default_filename full_disk
  = (Raise (OSError "[Errno 28] No space left on device"),
     fs_truncate full_disk default_filename) /\
  read_file (fs_truncate full_disk default_filename) default_filename
  = Return [].
Proof. split; reflexivity. Qed.

Example add_days_over_new_year :
  Date.add_days (Date.mk 2024 12 28) 7 = Return (Date.mk 2025 1 4).
Proof. reflexivity. Qed.

Example add_days_over_leap_day :
  Date.add_days (Date.mk 2024 2 25) 7 = Return (Date.mk 2024 3 3).
Proof. reflexivity. Qed.

Example add_days_overflow :
  Date.add_days (Date.mk 9999 12 25) 7
  = Raise (OverflowError "date value out of range").
Proof. reflexivity. Qed.

Example max_ordinal : Date.ymd2ord 9999 12 31 = Date.MAXORDINAL.
Proof. reflexivity. Qed.

(** On the 10200 ordinals from 1 January 1999 on, [ord2ymd] gives a
    valid date whose ordinal is the one it was given. *)
Example ord2ymd_inverts :
  forallb (fun k =>
             let o := (729755 + Z.of_nat k)%Z in
             Date.valid (Date.ord2ymd o)
             && (Date.toordinal (Date.ord2ymd o) =? o)%Z)
          (seq 0 (100 * 102)) = true.
Proof. vm_compute. reflexivity. Qed.

Example snapshot_restores :
  Snapshot.loads (Snapshot.dumps amy_and_bob) = Return amy_and_bob.
Proof. vm_compute. reflexivity. Qed.

Example session_ends_on_exit :
  fst (main Snapshot.dumps Snapshot.loads march_first_2025
         ["add bob 1234567890"; "change bob 1234567890 0987654321";
          "phone bob"; "exit"; "hello"] no_files) = Exited.
Proof. vm_compute. reflexivity. Qed.

Example session_prints :
  printed (snd (main Snapshot.dumps Snapshot.loads march_first_2025
                  ["add bob 1234567890"; "change bob 1234567890 0987654321";
                   "phone bob"; "nonsense"; "exit"] no_files))
  = ["Welcome to the assistant bot!"; "Contact added."; "Phone updated.";
     "0987654321"; "Invalid command."; "Good bye!"].
Proof. vm_compute. reflexivity. Qed.

(* ================================================================== *)
(** * Further properties of the program *)

(** ** Names and words *)

Lemma lstrip_blank (s : string) :
  str_all isspace s = true -> lstrip s = "".
Proof.
  induction s as [|c s IH]; simpl; [reflexivity|].
  intros H. apply andb_true_iff in H. destruct H as [Hc Hs].
  rewrite Hc. auto.
Qed.

Lemma lstrip_nonblank (s : string) :
  str_all isspace s = false ->
  exists c s', lstrip s = String c s' /\ isspace c = false.
Proof.
  induction s as [|c s IH]; simpl; [discriminate|].
  destruct (isspace c) eqn:Hc; simpl.
  - exact IH.
  - intros _. now exists c, s.
Qed.

Lemma rstrip_head (c : ascii) (s : string) :
  isspace c = false -> exists s', rstrip (String c s) = String c s'.
Proof.
  intros Hc. simpl. destruct (rstrip s) as [|a r].
  - rewrite Hc. now exists "".
  - now exists (String a r).
Qed.

Lemma strip_blank (s : string) : str_all isspace s = true -> strip s = "".
Proof. intros H. unfold strip. now rewrite (lstrip_blank s H). Qed.

Lemma strip_nonblank (s : string) :
  str_all isspace s = false -> String.eqb (strip s) "" = false.
Proof.
  intros H. unfold strip.
  destruct (lstrip_nonblank s H) as (c & s' & -> & Hc).
  destruct (rstrip_head c s' Hc) as (r & ->). reflexivity.
Qed.

(** X1.  [Name(value)] fails exactly on the strings made of whitespace
    only, the empty string among them, with the message of the name
    check; every other string is accepted and stored as given, its own
    leading and trailing whitespace included. *)
Theorem Name_init_spec (v : string) :
  (str_all isspace v = true ->
   Name.init v
   = Raise (ValueError "Name cannot be empty or just whitespace.")) /\
  (str_all isspace v = false -> Name.init v = Return (Name.mk v)).
Proof.
  unfold Name.init. split; intros H.
  - now rewrite (strip_blank v H).
  - now rewrite (strip_nonblank v H).
Qed.

Lemma Name_init_spec_witness :
  Name.init "   "
  = Raise (ValueError "Name cannot be empty or just whitespace.") /\
  Name.init " bob " = Return (Name.mk " bob ").
Proof.
  split.
  - apply (proj1 (Name_init_spec "   ")). reflexivity.
  - apply (proj2 (Name_init_spec " bob ")). reflexivity.
Defined.

Lemma word_cons (t : string) :
  word t = true ->
  exists c t', t = String c t' /\ isspace c = false
               /\ str_all nonspace t' = true.
Proof.
  unfold word. destruct t as [|c t']; simpl; [discriminate|].
  intros H. apply andb_true_iff in H. destruct H as [Hc Ht].
  exists c, t'. repeat split; [|exact Ht].
  unfold nonspace in Hc. now destruct (isspace c).
Qed.

Lemma rstrip_nonspace (t : string) :
  str_all nonspace t = true -> rstrip t = t.
Proof.
  induction t as [|c t IH]; simpl; [reflexivity|].
  intros H. apply andb_true_iff in H. destruct H as [Hc Ht].
  rewrite (IH Ht). unfold nonspace in Hc.
  destruct t; [|reflexivity]. now destruct (isspace c).
Qed.

(** Stripping a word changes nothing. *)
Lemma strip_word (t : string) : word t = true -> strip t = t.
Proof.
  intros H. destruct (word_cons t H) as (c & t' & -> & Hc & Ht).
  unfold strip. simpl lstrip. rewrite Hc. apply rstrip_nonspace.
  simpl. unfold nonspace at 1. now rewrite Hc.
Qed.

Lemma word_snoc (w : string) (c : ascii) :
  word w = true -> isspace c = false -> word (w ++ String c "") = true.
Proof.
  intros Hw Hc. destruct (word_cons w Hw) as (a & w' & -> & Ha & Hw').
  unfold word. simpl. unfold nonspace at 1. rewrite Ha. simpl.
  rewrite str_all_app, Hw'. simpl. unfold nonspace. now rewrite Hc.
Qed.

Lemma split_scan_words (s : string) :
  forall cur t,
    match cur with Some w => word w = true | None => True end ->
    In t (split_scan cur s) -> word t = true.
Proof.
  induction s as [|c s IH]; simpl; intros cur t Hcur Hin.
  - destruct cur as [w|]; [|destruct Hin].
    destruct Hin as [<-|[]]. exact Hcur.
  - destruct (isspace c) eqn:Hc.
    + destruct cur as [w|].
      * destruct Hin as [<-|Hin]; [exact Hcur|]. now apply (IH None).
      * now apply (IH None).
    + destruct cur as [w|].
      * apply (IH (Some (w ++ String c ""))); [|exact Hin].
        now apply word_snoc.
      * apply (IH (Some (String c ""))); [|exact Hin].
        unfold word. simpl. unfold nonspace. now rewrite Hc.
  Qed.

(** What [split] returns are words. *)
Lemma split_words (s t : string) : In t (split s) -> word t = true.
Proof. apply (split_scan_words s None t I). Qed.

(** Scanning over a run of characters that are not whitespace extends
    the open token by the run. *)
Lemma split_scan_run (t rest : string) :
  str_all nonspace t = true ->
  forall w, split_scan (Some w) (t ++ rest) = split_scan (Some (w ++ t)) rest.
Proof.
  induction t as [|c t IH]; simpl; intros H w.
  - now rewrite append_empty_r.
  - apply andb_true_iff in H. destruct H as [Hc Ht].
    unfold nonspace in Hc. destruct (isspace c); [discriminate|].
    rewrite (IH Ht). f_equal. f_equal.
    clear. induction w as [|a w IHw]; simpl; [reflexivity|].
    now rewrite IHw.
Qed.

Lemma split_scan_word (t rest : string) :
  word t = true -> split_scan None (t ++ rest) = split_scan (Some t) rest.
Proof.
  intros H. destruct (word_cons t H) as (c & t' & -> & Hc & Ht).
  simpl. rewrite Hc. apply (split_scan_run t' rest Ht).
Qed.

(** Words joined by single spaces split into the same words. *)
Lemma split_join (ts : list string) :
  forallb word ts = true -> split (join " " ts) = ts.
Proof.
  unfold split. induction ts as [|t ts IH]; simpl; [reflexivity|].
  intros H. apply andb_true_iff in H. destruct H as [Ht Hts].
  destruct ts as [|u ts].
  - rewrite <- (append_empty_r t) at 1. rewrite (split_scan_word t "" Ht).
    reflexivity.
  - rewrite (split_scan_word t _ Ht). simpl split_scan at 1.
    change (isspace " ") with true. cbv iota. f_equal. exact (IH Hts).
Qed.

(** ** Parsing a command line *)

(** X2.  A command line written as a command word and argument words
    separated by single spaces parses into the lower-cased command word
    and the argument words, unchanged and in order. *)
Theorem parse_input_join (cmd : string) (args : list string) :
  forallb word (cmd :: args) = true ->
  parse_input (join " " (cmd :: args)) = Return (lower cmd, args).
Proof.
  intros H. unfold parse_input. rewrite (split_join (cmd :: args) H).
  simpl in H. apply andb_true_iff in H. destruct H as [Hc _].
  now rewrite (strip_word cmd Hc).
Qed.

Lemma parse_input_join_witness :
  parse_input "ADD Bob 1234567890" = Return ("add", ["Bob"; "1234567890"]).
Proof.
  apply (parse_input_join "ADD" ["Bob"; "1234567890"]). reflexivity.
Defined.

Lemma parse_input_of_split (user_input cmd : string) (args : list string) :
  split user_input = cmd :: args ->
  parse_input user_input = Return (lower cmd, args).
Proof.
  intros H. unfold parse_input. rewrite H.
  assert (Hw : word cmd = true).
  { apply (split_words user_input). rewrite H. now left. }
  now rewrite (strip_word cmd Hw).
Qed.

(** X3.  The command word is matched without regard to case and the
    arguments are taken as typed: two lines with the same arguments
    whose command words differ only in case make the same turn of the
    loop. *)
Theorem command_case_insensitive (pickle_dumps : AddressBook.t -> bytes)
  (today : Date.t) (line1 line2 cmd1 cmd2 : string) (args : list string)
  (w : world) :
  split line1 = cmd1 :: args ->
  split line2 = cmd2 :: args ->
  lower cmd1 = lower cmd2 ->
  main_step pickle_dumps today line1 w = main_step pickle_dumps today line2 w.
Proof.
  intros H1 H2 Hl. unfold main_step.
  rewrite (parse_input_of_split line1 cmd1 args H1).
  rewrite (parse_input_of_split line2 cmd2 args H2).
  now rewrite Hl.
Qed.

Lemma command_case_insensitive_witness :
  main_step Snapshot.dumps march_first_2025 "Add bob 1234567890"
    (mkWorld AddressBook.empty no_files [])
  = main_step Snapshot.dumps march_first_2025 "  ADD   bob 1234567890 "
      (mkWorld AddressBook.empty no_files []).
Proof.
  apply (command_case_insensitive Snapshot.dumps march_first_2025
           "Add bob 1234567890" "  ADD   bob 1234567890 " "Add" "ADD"
           ["bob"; "1234567890"]); reflexivity.
Defined.

Lemma split_scan_nonblank (s : string) :
  forall cur, str_all isspace s = false -> split_scan cur s <> [].
Proof.
  induction s as [|c s IH]; simpl; intros cur H; [discriminate|].
  destruct (isspace c) eqn:Hc; simpl in H.
  - destruct cur as [w|]; [discriminate | now apply IH].
  - assert (G : forall w, split_scan (Some w) s <> []).
    { clear. induction s as [|a s IHs]; simpl; intros w; [discriminate|].
      destruct (isspace a); [discriminate | apply IHs]. }
    destruct cur; apply G.
Qed.

(** A line that is not blank parses. *)
Lemma parse_input_nonblank (user_input : string) :
  str_all isspace user_input = false ->
  exists cmd args, parse_input user_input = Return (cmd, args).
Proof.
  intros H. unfold parse_input.
  destruct (split user_input) as [|c args] eqn:E.
  - now elim (split_scan_nonblank user_input None H).
  - eauto.
Qed.

(** X4.  While [today + 7 days] is a date, a line that is not blank
    either carries the command [close] or [exit] or leaves the loop
    running: no other command, known or unknown, with good or bad
    arguments, ends the session. *)
Theorem nonblank_turn_runs (pickle_dumps : AddressBook.t -> bytes)
  (today : Date.t) (user_input : string) (w : world) :
  str_all isspace user_input = false ->
  is_return (Date.add_days today 7) = true ->
  fst (main_step pickle_dumps today user_input w) = Running \/
  exists cmd args,
    parse_input user_input = Return (cmd, args)
    /\ (cmd = "close" \/ cmd = "exit").
Proof.
  intros Hb Ht.
  destruct (parse_input_nonblank user_input Hb) as (cmd & args & Hp).
  assert (Hh : forall body,
             In (cmd, body) (handler_bodies today) ->
             fst (main_step pickle_dumps today user_input w) = Running).
  { intros body Hin.
    exact (handler_turn_runs pickle_dumps today user_input cmd args body w
             Hp Hin (or_intror Ht)). }
  destruct (string_dec cmd "add") as [->|N1];
    [left; apply (Hh add_contact_body); simpl; auto|].
  destruct (string_dec cmd "change") as [->|N2];
    [left; apply (Hh change_contact_body); simpl; auto|].
  destruct (string_dec cmd "phone") as [->|N3];
    [left; apply (Hh show_phone_body); simpl; auto|].
  destruct (string_dec cmd "all") as [->|N4];
    [left; apply (Hh show_all_body); simpl; auto|].
  destruct (string_dec cmd "add-birthday") as [->|N5];
    [left; apply (Hh add_birthday_body); simpl; auto 6|].
  destruct (string_dec cmd "show-birthday") as [->|N6];
    [left; apply (Hh show_birthday_body); simpl; auto 7|].
  destruct (string_dec cmd "birthdays") as [->|N7];
    [left; apply (Hh (birthdays_body today)); simpl; auto 8|].
  clear Hh. unfold main_step. rewrite Hp.
  destruct (String.eqb cmd "close") eqn:E1;
    [apply String.eqb_eq in E1; right; eauto|].
  destruct (String.eqb cmd "exit") eqn:E2;
    [apply String.eqb_eq in E2; right; eauto|].
  left. simpl.
  apply String.eqb_neq in N1, N2, N3, N4, N5, N6, N7.
  rewrite N1, N2, N3, N4, N5, N6, N7.
  destruct (String.eqb cmd "hello"); reflexivity.
Qed.

Lemma nonblank_turn_runs_witness :
  fst (main_step Snapshot.dumps march_first_2025 "change nobody"
         (mkWorld leap_book no_files [])) = Running \/
  exists cmd args,
    parse_input "change nobody" = Return (cmd, args)
    /\ (cmd = "close" \/ cmd = "exit").
Proof.
  apply (nonblank_turn_runs Snapshot.dumps march_first_2025 "change nobody"
           (mkWorld leap_book no_files [])); reflexivity.
Defined.

(** ** The phones of a record *)

Lemma find_loop_In (ps : list Phone.t) (phone : string) :
  In phone (map Phone.value ps) -> Rcd.find_loop ps phone = Some phone.
Proof.
  induction ps as [|p ps IH]; simpl; [tauto|].
  destruct (String.eqb (Phone.value p) phone) eqn:E.
  - apply String.eqb_eq in E. now rewrite E.
  - apply String.eqb_neq in E. intros [H|H]; [congruence | auto].
Qed.

Lemma find_loop_not_In (ps : list Phone.t) (phone : string) :
  ~ In phone (map Phone.value ps) -> Rcd.find_loop ps phone = None.
Proof.
  induction ps as [|p ps IH]; simpl; [reflexivity|].
  destruct (String.eqb (Phone.value p) phone) eqn:E.
  - apply String.eqb_eq in E. tauto.
  - intros H. apply IH. tauto.
Qed.

Lemma find_phone_In (r : Rcd.t) (phone : string) :
  In phone (Rcd.phone_values r) -> Rcd.find_phone r phone = Some phone.
Proof. apply find_loop_In. Qed.

Lemma find_phone_not_In (r : Rcd.t) (phone : string) :
  ~ In phone (Rcd.phone_values r) -> Rcd.find_phone r phone = None.
Proof. apply find_loop_not_In. Qed.

(** X5.  [find_phone] returns the phone asked for when some entry of
    the record has that value, and nothing otherwise; it never returns
    another value than the one asked for. *)
Theorem find_phone_spec (r : Rcd.t) (phone : string) :
  (In phone (Rcd.phone_values r) -> Rcd.find_phone r phone = Some phone) /\
  (~ In phone (Rcd.phone_values r) -> Rcd.find_phone r phone = None) /\
  (forall q, Rcd.find_phone r phone = Some q -> q = phone).
Proof.
  unfold Rcd.find_phone, Rcd.phone_values.
  split; [apply find_loop_In|]. split; [apply find_loop_not_In|].
  intros q H.
  destruct (in_dec string_dec phone (map Phone.value (Rcd.phones r)))
    as [Hin|Hout].
  - rewrite (find_loop_In _ _ Hin) in H. now inversion H.
  - rewrite (find_loop_not_In _ _ Hout) in H. discriminate.
Qed.

Lemma find_phone_spec_witness :
  Rcd.find_phone bob_three_phones "2222222222" = Some "2222222222" /\
  Rcd.find_phone bob_three_phones "3333333333" = None.
Proof.
  split.
  - apply (proj1 (find_phone_spec bob_three_phones "2222222222")).
    simpl. auto.
  - apply (proj1 (proj2 (find_phone_spec bob_three_phones "3333333333"))).
    simpl. intros [H|[H|[H|[]]]]; discriminate H.
Defined.

Lemma map_value_filter (ps : list Phone.t) (phone : string) :
  map Phone.value
    (filter (fun p => negb (String.eqb (Phone.value p) phone)) ps)
  = filter (fun v => negb (String.eqb v phone)) (map Phone.value ps).
Proof.
  induction ps as [|p ps IH]; simpl; [reflexivity|].
  destruct (String.eqb (Phone.value p) phone); simpl; now rewrite IH.
Qed.

Lemma filter_absent (ps : list Phone.t) (phone : string) :
  ~ In phone (map Phone.value ps) ->
  filter (fun p => negb (String.eqb (Phone.value p) phone)) ps = ps.
Proof.
  induction ps as [|p ps IH]; simpl; [reflexivity|].
  intros H. destruct (String.eqb (Phone.value p) phone) eqn:E.
  - apply String.eqb_eq in E. tauto.
  - simpl. rewrite IH by tauto. reflexivity.
Qed.

(** X6.  [remove_phone] deletes every entry with the given value, not
    only the first: the phone cannot be found afterwards, every other
    phone is found exactly when it was before, name and birthday stay,
    and a phone that is not on the record leaves the record as it is. *)
Theorem remove_phone_spec (r : Rcd.t) (phone : string) :
  Rcd.find_phone (Rcd.remove_phone r phone) phone = None /\
  (forall q, q <> phone ->
             Rcd.find_phone (Rcd.remove_phone r phone) q
             = Rcd.find_phone r q) /\
  Rcd.name (Rcd.remove_phone r phone) = Rcd.name r /\
  Rcd.birthday (Rcd.remove_phone r phone) = Rcd.birthday r /\
  (~ In phone (Rcd.phone_values r) -> Rcd.remove_phone r phone = r).
Proof.
  assert (Hv : Rcd.phone_values (Rcd.remove_phone r phone)
               = filter (fun v => negb (String.eqb v phone))
                        (Rcd.phone_values r)).
  { unfold Rcd.phone_values, Rcd.remove_phone. simpl.
    apply map_value_filter. }
  split; [|split; [|split; [|split]]]; try reflexivity.
  - apply find_phone_not_In. rewrite Hv. intros H. apply filter_In in H.
    destruct H as [_ H]. now rewrite String.eqb_refl in H.
  - intros q Hq.
    destruct (in_dec string_dec q (Rcd.phone_values r)) as [Hin|Hout].
    + rewrite (find_phone_In r q Hin).
      apply find_phone_In. rewrite Hv. apply filter_In. split; [exact Hin|].
      apply String.eqb_neq in Hq. now rewrite Hq.
    + rewrite (find_phone_not_In r q Hout).
      apply find_phone_not_In. rewrite Hv. intros H. apply filter_In in H.
      tauto.
  - intros H. unfold Rcd.remove_phone.
    rewrite (filter_absent _ _ H). apply set_phones_same.
Qed.

Lemma remove_phone_spec_witness :
  Rcd.find_phone (Rcd.remove_phone bob_three_phones "2222222222")
    "1111111111" = Some "1111111111" /\
  Rcd.remove_phone bob_three_phones "3333333333" = bob_three_phones.
Proof.
  split.
  - apply (proj1 (proj2 (remove_phone_spec bob_three_phones "2222222222"))
             "1111111111").
    intros H. discriminate H.
  - apply (proj2 (proj2 (proj2 (proj2
             (remove_phone_spec bob_three_phones "3333333333"))))).
    simpl. intros [H|[H|[H|[]]]]; discriminate H.
Defined.

(** X7.  [add_phone] with a phone that [Phone] accepts appends it as
    the last entry, also when the record has that phone already (the
    list grows by one in every case), and leaves name and birthday; with
    a phone that [Phone] refuses it raises the invalid-phone error. *)
Theorem add_phone_spec (r : Rcd.t) (phone : string) :
  (Phone.validate phone = true ->
   exists r',
     Rcd.add_phone r phone = Return r' /\
     Rcd.phone_values r' = (Rcd.phone_values r ++ [phone])%list /\
     length (Rcd.phones r') = S (length (Rcd.phones r)) /\
     Rcd.find_phone r' phone = Some phone /\
     Rcd.name r' = Rcd.name r /\ Rcd.birthday r' = Rcd.birthday r) /\
  (Phone.validate phone = false ->
   Rcd.add_phone r phone = Raise (ValueError (Phone.invalid_msg phone))).
Proof.
  unfold Rcd.add_phone. split; intros H.
  - rewrite (validate_init phone H). simpl. eexists. split; [reflexivity|].
    assert (Hv : Rcd.phone_values
                   (Rcd.set_phones r (Rcd.phones r ++ [Phone.mk phone])%list)
                 = (Rcd.phone_values r ++ [phone])%list).
    { unfold Rcd.phone_values. simpl. now rewrite map_app. }
    split; [exact Hv|]. split; [simpl; rewrite length_app; simpl; lia|].
    split; [|split; reflexivity].
    apply find_phone_In. rewrite Hv. apply in_or_app. right. now left.
  - unfold Phone.init. now rewrite H.
Qed.

Lemma add_phone_spec_witness :
  (exists r',
      Rcd.add_phone bob_one_phone "1234567890" = Return r' /\
      Rcd.phone_values r' = ["1234567890"; "1234567890"] /\
      length (Rcd.phones r') = 2 /\
      Rcd.find_phone r' "1234567890" = Some "1234567890" /\
      Rcd.name r' = Name.mk "bob" /\ Rcd.birthday r' = None) /\
  Rcd.add_phone bob_one_phone "12345"
  = Raise (ValueError (Phone.invalid_msg "12345")).
Proof.
  split.
  - apply (proj1 (add_phone_spec bob_one_phone "1234567890")). reflexivity.
  - apply (proj2 (add_phone_spec bob_one_phone "12345")). reflexivity.
Defined.

Lemma filter_app_last (ps : list Phone.t) (phone : string) :
  ~ In phone (map Phone.value ps) ->
  filter (fun p => negb (String.eqb (Phone.value p) phone))
         (ps ++ [Phone.mk phone])
  = ps.
Proof.
  intros H. rewrite filter_app, (filter_absent ps phone H). simpl.
  rewrite String.eqb_refl. simpl. apply app_nil_r.
Qed.

(** X8.  Adding a phone the record did not have and then removing it
    gives the record back as it was. *)
Theorem add_then_remove_phone (r r' : Rcd.t) (phone : string) :
  ~ In phone (Rcd.phone_values r) ->
  Rcd.add_phone r phone = Return r' ->
  Rcd.remove_phone r' phone = r.
Proof.
  intros Hn Ha. unfold Rcd.add_phone in Ha.
  destruct (Phone_init_cases phone) as [[_ E]|[_ E]]; rewrite E in Ha;
    simpl in Ha; inversion Ha; subst r'; clear Ha.
  unfold Rcd.remove_phone. simpl.
  rewrite (filter_app_last (Rcd.phones r) phone Hn).
  destruct r; reflexivity.
Qed.

Lemma add_then_remove_phone_witness :
  Rcd.remove_phone
    (Rcd.mk (Name.mk "bob")
       [Phone.mk "1234567890"; Phone.mk "5555555555"] None)
    "5555555555"
  = bob_one_phone.
Proof.
  apply (add_then_remove_phone bob_one_phone _ "5555555555").
  - simpl. intros [H|[]]. discriminate H.
  - reflexivity.
Defined.

(** X9.  Editing a phone into one the record did not have and then
    editing it back gives the record back as it was, provided the old
    phone is one [Phone] accepts. *)
Theorem edit_phone_back (r r' : Rcd.t) (old new : string) :
  In old (Rcd.phone_values r) ->
  ~ In new (Rcd.phone_values r) ->
  Phone.validate old = true ->
  Rcd.edit_phone r old new = Return r' ->
  Rcd.edit_phone r' new old = Return r.
Proof.
  intros Hin Hnew Hold He. unfold Rcd.phone_values in *.
  apply in_map_iff in Hin. destruct Hin as (p0 & Hp0 & Hin0).
  assert (Hsplit : exists pre p post,
             Rcd.phones r = (pre ++ p :: post)%list /\ Phone.value p = old
             /\ ~ In old (map Phone.value pre)).
  { clear He Hnew. revert Hin0. generalize (Rcd.phones r) as ps.
    induction ps as [|a ps IH]; [intros []|]. intros Hin.
    destruct (string_dec (Phone.value a) old) as [Ha|Ha].
    - exists [], a, ps. repeat split; auto.
    - destruct Hin as [->|Hin]; [congruence|].
      destruct (IH Hin) as (pre & p & post & -> & Hp & Hpre).
      exists (a :: pre), p, post. repeat split; auto.
      simpl. intros [H|H]; [congruence | auto]. }
  destruct Hsplit as (pre & p & post & Hr & Hp & Hpre).
  unfold Rcd.edit_phone in *. rewrite Hr in *.
  rewrite (edit_loop_first pre p post old new Hp Hpre) in He.
  destruct (Phone_init_cases new) as [[_ E]|[_ E]]; rewrite E in He;
    simpl in He; inversion He; subst r'; clear He. simpl.
  assert (Hpre' : ~ In new (map Phone.value pre)).
  { intros H. apply Hnew. rewrite map_app. apply in_or_app. now left. }
  rewrite (edit_loop_first pre (Phone.mk new) post new old eq_refl Hpre').
  rewrite (validate_init old Hold). simpl. f_equal.
  destruct r as [n ps b]. simpl in *. subst ps. unfold Rcd.set_phones. simpl.
  destruct p as [v]. simpl in Hp. now subst v.
Qed.

Lemma edit_phone_back_witness :
  Rcd.edit_phone
    (Rcd.mk (Name.mk "bob")
       [Phone.mk "1111111111"; Phone.mk "3333333333"; Phone.mk "2222222222"]
       None)
    "3333333333" "2222222222"
  = Return bob_three_phones.
Proof.
  apply (edit_phone_back bob_three_phones _ "2222222222" "3333333333").
  - simpl. auto.
  - simpl. intros [H|[H|[H|[]]]]; discriminate H.
  - reflexivity.
  - reflexivity.
Defined.

(** ** The book as a mapping *)

Lemma get_delitem_other (d : AddressBook.t) (k k' : string) :
  k <> k' ->
  AddressBook.get (AddressBook.delitem d k) k' = AddressBook.get d k'.
Proof.
  intros Hk. induction d as [|[k0 v0] d IH]; simpl; [reflexivity|].
  destruct (String.eqb k0 k) eqn:E; simpl.
  - apply String.eqb_eq in E. subst k0.
    apply String.eqb_neq in Hk. now rewrite Hk.
  - now rewrite IH.
Qed.

Lemma keys_delitem (d : AddressBook.t) (k : string) :
  AddressBook.wf d ->
  AddressBook.keys (AddressBook.delitem d k)
  = filter (fun k' => negb (String.eqb k' k)) (AddressBook.keys d).
Proof.
  unfold AddressBook.wf.
  induction d as [|[k0 v0] d IH]; simpl; intros H; [reflexivity|].
  inversion H as [|? ? Hn Hd]; subst.
  destruct (String.eqb k0 k) eqn:E; simpl.
  - apply String.eqb_eq in E. subst k0.
    clear IH H Hd. induction (AddressBook.keys d) as [|a l IHl];
      simpl in *; [reflexivity|].
    destruct (String.eqb a k) eqn:Ea.
    + apply String.eqb_eq in Ea. tauto.
    + simpl. rewrite <- IHl by tauto. reflexivity.
  - now rewrite IH.
Qed.

Lemma filter_keys_absent (l : list string) (k : string) :
  ~ In k l -> filter (fun k' => negb (String.eqb k' k)) l = l.
Proof.
  induction l as [|a l IH]; simpl; [reflexivity|]. intros H.
  destruct (String.eqb a k) eqn:E.
  - apply String.eqb_eq in E. tauto.
  - simpl. rewrite IH by tauto. reflexivity.
Qed.

(** X10.  [add_record] stores the record under its own name: a lookup
    of that name finds the record, a lookup of any other name finds what
    it found before; a name that was present keeps its place in the
    order of the book, and a new name goes last. *)
Theorem add_record_spec (b : AddressBook.t) (r : Rcd.t) :
  AddressBook.find (AddressBook.add_record b r) (Name.value (Rcd.name r))
  = Some r /\
  (forall name, name <> Name.value (Rcd.name r) ->
                AddressBook.find (AddressBook.add_record b r) name
                = AddressBook.find b name) /\
  AddressBook.keys (AddressBook.add_record b r)
  = (if AddressBook.contains b (Name.value (Rcd.name r))
     then AddressBook.keys b
     else AddressBook.keys b ++ [Name.value (Rcd.name r)])%list.
Proof.
  unfold AddressBook.add_record, AddressBook.find, AddressBook.contains.
  split; [apply get_setitem_same|]. split.
  - intros name Hn. apply get_setitem_other. congruence.
  - destruct (AddressBook.get b (Name.value (Rcd.name r))) as [r0|] eqn:E.
    + apply keys_setitem_present. apply get_Some_In in E.
      apply in_map_iff. now exists (Name.value (Rcd.name r), r0).
    + apply keys_setitem_absent. now apply get_None_iff.
Qed.

Lemma add_record_spec_witness :
  AddressBook.find (AddressBook.add_record amy_and_bob bob_one_phone) "amy"
  = AddressBook.find amy_and_bob "amy".
Proof.
  apply (proj1 (proj2 (add_record_spec amy_and_bob bob_one_phone)) "amy").
  intros H. discriminate H.
Defined.

(** X11.  [delete] on a book: the name cannot be found afterwards, every
    other name is found as before, and the other keys keep their order;
    a name that is not in the book leaves the book as it is. *)
Theorem delete_spec (b : AddressBook.t) (name : string) :
  AddressBook.wf b ->
  AddressBook.find (AddressBook.delete b name) name = None /\
  (forall other, other <> name ->
                 AddressBook.find (AddressBook.delete b name) other
                 = AddressBook.find b other) /\
  AddressBook.keys (AddressBook.delete b name)
  = filter (fun k => negb (String.eqb k name)) (AddressBook.keys b) /\
  (AddressBook.find b name = None -> AddressBook.delete b name = b).
Proof.
  intros Hwf. unfold AddressBook.delete, AddressBook.contains,
    AddressBook.find.
  destruct (AddressBook.get b name) as [r|] eqn:E.
  - split; [now apply get_delitem_same|]. split.
    + intros other Ho. apply get_delitem_other. congruence.
    + split; [now apply keys_delitem | discriminate].
  - split; [exact E|]. split; [reflexivity|]. split; [|reflexivity].
    symmetry. apply filter_keys_absent. now apply get_None_iff.
Qed.

Lemma delete_spec_witness :
  AddressBook.find (AddressBook.delete amy_and_bob "amy") "amy" = None /\
  AddressBook.find (AddressBook.delete amy_and_bob "amy") "bob"
  = AddressBook.find amy_and_bob "bob" /\
  AddressBook.delete amy_and_bob "carl" = amy_and_bob.
Proof.
  assert (Hwf : AddressBook.wf amy_and_bob).
  { unfold AddressBook.wf. simpl. constructor.
    - simpl. intros [H|[]]. discriminate H.
    - constructor; [intros [] | constructor]. }
  split; [|split].
  - apply (proj1 (delete_spec amy_and_bob "amy" Hwf)).
  - apply (proj1 (proj2 (delete_spec amy_and_bob "amy" Hwf)) "bob").
    intros H. discriminate H.
  - apply (proj2 (proj2 (proj2 (delete_spec amy_and_bob "carl" Hwf)))).
    reflexivity.
Defined.

(** ** Records in good standing *)

Lemma Date_new_valid (y m d : Z) (x : Date.t) :
  Date.new y m d = Return x -> x = Date.mk y m d /\ Date.valid x = true.
Proof.
  unfold Date.new, Date.valid.
  destruct ((Date.MINYEAR <=? y)%Z && (y <=? Date.MAXYEAR)%Z) eqn:Hy;
    simpl; [|discriminate].
  destruct ((1 <=? m)%Z && (m <=? 12)%Z) eqn:Hm; simpl; [|discriminate].
  destruct ((1 <=? d)%Z && (d <=? Date.days_in_month y m)%Z) eqn:Hd;
    simpl; [|discriminate].
  intros H. inversion H; subst x. split; [reflexivity|]. simpl.
  apply andb_true_iff in Hy, Hm, Hd.
  destruct Hy as [-> ->], Hm as [-> ->], Hd as [-> ->]. reflexivity.
Qed.

Lemma strptime_valid (s : string) (x : Date.t) :
  strptime s = Return x -> Date.valid x = true.
Proof.
  unfold strptime. destruct (strptime_matches s) as [|[[[d m] y] rest] l];
    [discriminate|].
  destruct (negb (String.eqb rest "")); [discriminate|].
  intros H. now apply Date_new_valid in H.
Qed.

Lemma Birthday_init_valid (s : string) (b : Birthday.t) :
  Birthday.init s = Return b -> Date.valid (Birthday.value b) = true.
Proof.
  unfold Birthday.init. destruct (strptime s) as [d|e] eqn:E.
  - intros H. inversion H; subst b. simpl. exact (strptime_valid s d E).
  - destruct e; discriminate.
Qed.

Lemma Rcd_init_ok (n : string) (r : Rcd.t) :
  Rcd.init n = Return r -> record_ok r = true.
Proof.
  unfold Rcd.init, Name.init.
  destruct (String.eqb (strip n) "") eqn:E; simpl; [discriminate|].
  intros H. inversion H; subst r. unfold record_ok. simpl.
  destruct (str_all isspace n) eqn:Hb; [|reflexivity].
  rewrite (strip_blank n Hb) in E. discriminate.
Qed.

Lemma add_phone_ok (p : string) (r r' : Rcd.t) :
  record_ok r = true -> Rcd.add_phone r p = Return r' ->
  record_ok r' = true.
Proof.
  unfold Rcd.add_phone, Phone.init. intros Hr.
  destruct (Phone.validate p) eqn:Hp; simpl; [|discriminate].
  intros H. inversion H; subst r'. unfold record_ok, Rcd.phone_values in *.
  simpl. rewrite map_app, forallb_app. simpl. rewrite Hp.
  apply andb_true_iff in Hr. destruct Hr as [Hr Hbd].
  apply andb_true_iff in Hr. destruct Hr as [Hnm Hph].
  rewrite Hnm, Hph, Hbd. reflexivity.
Qed.

Lemma edit_loop_ok (old new : string) (ps ps' : list Phone.t) :
  forallb Phone.validate (map Phone.value ps) = true ->
  Rcd.edit_loop ps old new = Return ps' ->
  forallb Phone.validate (map Phone.value ps') = true.
Proof.
  revert ps'. induction ps as [|p ps IH]; simpl; intros ps' Hv.
  - intros H. now inversion H.
  - apply andb_true_iff in Hv. destruct Hv as [Hp Hps].
    destruct (String.eqb (Phone.value p) old).
    + unfold Phone.init. destruct (Phone.validate new) eqn:Hn; simpl;
        [|discriminate].
      intros H. inversion H; subst ps'. simpl. now rewrite Hn, Hps.
    + destruct (Rcd.edit_loop ps old new) as [l|e]; simpl; [|discriminate].
      intros H. inversion H; subst ps'. simpl. rewrite Hp.
      now apply IH.
Qed.

Lemma edit_phone_ok (old new : string) (r r' : Rcd.t) :
  record_ok r = true -> Rcd.edit_phone r old new = Return r' ->
  record_ok r' = true.
Proof.
  unfold Rcd.edit_phone. intros Hr.
  destruct (Rcd.edit_loop (Rcd.phones r) old new) as [l|e] eqn:E; simpl;
    [|discriminate].
  intros H. inversion H; subst r'. unfold record_ok, Rcd.phone_values in *.
  simpl. apply andb_true_iff in Hr. destruct Hr as [Hr Hbd].
  apply andb_true_iff in Hr. destruct Hr as [Hnm Hph].
  rewrite Hnm, Hbd, (edit_loop_ok old new _ l Hph E). reflexivity.
Qed.

Lemma add_birthday_ok (s : string) (r r' : Rcd.t) :
  record_ok r = true -> Rcd.add_birthday r s = Return r' ->
  record_ok r' = true.
Proof.
  unfold Rcd.add_birthday. intros Hr.
  destruct (Birthday.init s) as [b|e] eqn:E; simpl; [|discriminate].
  intros H. inversion H; subst r'. unfold record_ok in *.
  apply andb_true_iff in Hr. destruct Hr as [Hr Hbd].
  apply andb_true_iff in Hr. destruct Hr as [Hnm Hph].
  unfold Rcd.phone_values in *. simpl Rcd.name. simpl Rcd.phones.
  simpl Rcd.birthday. rewrite Hnm, Hph. simpl.
  exact (Birthday_init_valid s b E).
Qed.

Lemma records_ok_setitem (b : AddressBook.t) (k : string) (v : Rcd.t) :
  records_ok b -> record_ok v = true ->
  records_ok (AddressBook.setitem b k v).
Proof.
  intros Hb Hv k' v' Hin. apply In_setitem in Hin.
  destruct Hin as [[_ ->]|Hin]; [exact Hv | exact (Hb k' v' Hin)].
Qed.

Section Keeps.

Variable I : AddressBook.t -> Prop.

Lemma keeps_ret {A} (a : A) : keeps I (ret a).
Proof. intros b H. exact H. Qed.

Lemma keeps_raise {A} (e : exn) : keeps I (@raise A e).
Proof. intros b H. exact H. Qed.

Lemma keeps_lift {A} (r : result A) : keeps I (lift r).
Proof. intros b H. exact H. Qed.

Lemma keeps_gets {A} (f : AddressBook.t -> A) : keeps I (gets f).
Proof. intros b H. exact H. Qed.

Lemma keeps_query {A} (f : AddressBook.t -> result A) : keeps I (query f).
Proof. intros b H. exact H. Qed.

(** Sequencing, with what is known of the value handed on. *)
Lemma keeps_bind_with {A B} (R : A -> Prop) (c : M A) (k : A -> M B) :
  keeps I c ->
  (forall b a b', c b = (Return a, b') -> R a) ->
  (forall a, R a -> keeps I (k a)) ->
  keeps I (bind c k).
Proof.
  intros Hc HR Hk b Hb. unfold bind. specialize (Hc b Hb).
  destruct (c b) as [[a|e] b'] eqn:E; simpl in *; [|exact Hc].
  exact (Hk a (HR b a b' E) b' Hc).
Qed.

Lemma keeps_bind {A B} (c : M A) (k : A -> M B) :
  keeps I c -> (forall a, keeps I (k a)) -> keeps I (bind c k).
Proof.
  intros Hc Hk. apply (keeps_bind_with (fun _ => True)); auto.
Qed.

Lemma keeps_input_error (body : handler) (args : list string) :
  keeps I (body args) -> keeps I (input_error body args).
Proof.
  intros H b Hb. specialize (H b Hb). unfold input_error.
  destruct (body args b) as [[s|e] b']; simpl in *; [exact H|].
  destruct (caught e); exact H.
Qed.

End Keeps.

Lemma keeps_ok_mutate (key : string) (method : Rcd.t -> result Rcd.t) :
  (forall r r', record_ok r = true -> method r = Return r' ->
                record_ok r' = true) ->
  keeps records_ok (mutate key method).
Proof.
  intros Hm b Hb. unfold mutate.
  destruct (AddressBook.get b key) as [r|] eqn:Hg; [|exact Hb].
  destruct (method r) as [r'|e] eqn:Hr; simpl; [|exact Hb].
  apply records_ok_setitem; [exact Hb|].
  apply (Hm r r'); [|exact Hr]. apply (Hb key). now apply get_Some_In.
Qed.

Ltac keep :=
  repeat first
    [ apply keeps_ret | apply keeps_raise | apply keeps_lift
    | apply keeps_gets | apply keeps_query
    | apply keeps_ok_mutate; intros;
      first [ eapply add_phone_ok; eassumption
            | eapply edit_phone_ok; eassumption
            | eapply add_birthday_ok; eassumption ]
    | apply keeps_bind; intros
    | match goal with
      | |- keeps _ (match ?x with _ => _ end) => destruct x
      | |- keeps _ (if ?x then _ else _) => destruct x
      end ].

Lemma keeps_ok_add_contact (args : list string) :
  keeps records_ok (add_contact_body args).
Proof.
  unfold add_contact_body.
  destruct (length args <? 2)%nat; [apply keeps_raise|].
  apply keeps_bind; [apply keeps_gets|]. intros found.
  apply keeps_bind; [|intros [slot message]; keep].
  destruct found as [r|]; [apply keeps_ret|].
  apply (keeps_bind_with records_ok (fun r => record_ok r = true));
    [apply keeps_lift| |].
  - intros b a b' H. unfold lift in H. inversion H.
    now apply (Rcd_init_ok (nth 0 args "")).
  - intros a Ha. apply keeps_bind; [|intros; apply keeps_ret].
    intros b Hb. simpl. unfold AddressBook.add_record.
    now apply records_ok_setitem.
Qed.

Lemma keeps_ok_handler (today : Date.t) (cmd : string) (body : handler)
  (args : list string) :
  In (cmd, body) (handler_bodies today) ->
  keeps records_ok (input_error body args).
Proof.
  intros Hin. apply keeps_input_error. simpl in Hin.
  repeat (destruct Hin as [Hin|Hin]; [inversion Hin; subst; clear Hin|]);
    try (destruct Hin).
  - apply keeps_ok_add_contact.
  - unfold change_contact_body. keep.
  - unfold show_phone_body. keep.
  - unfold show_all_body. keep.
  - unfold add_birthday_body. keep.
  - unfold show_birthday_body. keep.
  - unfold birthdays_body. keep.
Qed.

(** X12.  In every book of a session, built from the empty book by the
    command handlers with any arguments, every record has a name that is
    not blank, only phones that [Phone] accepts, and, if it has a
    birthday, one that is a date of the calendar. *)
Theorem session_records_ok (b : AddressBook.t) :
  session_book b -> records_ok b.
Proof.
  intros H. induction H as [|today cmd body args b Hin _ IH].
  - intros k r [].
  - exact (keeps_ok_handler today cmd body args Hin b IH).
Qed.

Lemma session_records_ok_witness :
  records_ok
    (snd (add_birthday ["amy"; "29.02.2024"]
            (snd (add_contact ["amy"; "1234567890"] AddressBook.empty)))).
Proof.
  apply session_records_ok.
  apply (session_turn march_first_2025 "add-birthday" add_birthday_body).
  - simpl. auto 6.
  - apply (session_turn march_first_2025 "add" add_contact_body).
    + simpl. auto.
    + apply session_start.
Defined.

(** ** What the handlers do to the book *)

Lemma read_only_ret {A} (a : A) : read_only (ret a).
Proof. intros b. reflexivity. Qed.

Lemma read_only_lift {A} (r : result A) : read_only (lift r).
Proof. intros b. reflexivity. Qed.

Lemma read_only_gets {A} (f : AddressBook.t -> A) : read_only (gets f).
Proof. intros b. reflexivity. Qed.

Lemma read_only_query {A} (f : AddressBook.t -> result A) :
  read_only (query f).
Proof. intros b. reflexivity. Qed.

Lemma read_only_bind {A B} (c : M A) (k : A -> M B) :
  read_only c -> (forall a, read_only (k a)) -> read_only (bind c k).
Proof.
  intros Hc Hk b. unfold bind. specialize (Hc b).
  destruct (c b) as [[a|e] b']; simpl in *; subst b'; [apply Hk|reflexivity].
Qed.

Lemma read_only_input_error (body : handler) (args : list string) :
  read_only (body args) -> read_only (input_error body args).
Proof.
  intros H b. specialize (H b). unfold input_error.
  destruct (body args b) as [[s|e] b']; simpl in *; [exact H|].
  destruct (caught e); exact H.
Qed.

Ltac readonly :=
  repeat first
    [ apply read_only_ret | apply read_only_lift | apply read_only_gets
    | apply read_only_query
    | apply read_only_bind; intros
    | match goal with
      | |- read_only (match ?x with _ => _ end) => destruct x
      end ].

(** X13.  The four handlers that answer a question, [phone], [all],
    [show-birthday] and [birthdays], leave the book exactly as it was,
    for all arguments and whether they answer or report an error. *)
Theorem asking_leaves_book (today : Date.t) (args : list string)
  (b : AddressBook.t) :
  snd (show_phone args b) = b /\
  snd (show_all args b) = b /\
  snd (show_birthday args b) = b /\
  snd (birthdays today args b) = b.
Proof.
  split; [|split; [|split]]; apply read_only_input_error.
  - unfold show_phone_body. readonly.
  - unfold show_all_body. readonly.
  - unfold show_birthday_body. readonly.
  - unfold birthdays_body. readonly.
Qed.

(** X14.  [change] and [add-birthday] are all or nothing: when the body
    of either raises (wrong number of arguments, a new phone or a date
    that is refused), the book is left exactly as it was. *)
Theorem failed_change_leaves_book (args : list string)
  (b b' : AddressBook.t) (e : exn) :
  (change_contact_body args b = (Raise e, b') -> b' = b) /\
  (add_birthday_body args b = (Raise e, b') -> b' = b).
Proof.
  split.
  - unfold change_contact_body, bind, lift, gets, mutate, ret.
    destruct (unpack3 args) as [[[name old] new]|e0];
      [|intros H; now inversion H].
    destruct (AddressBook.find b name) as [r|] eqn:Hf;
      [|intros H; discriminate H].
    unfold AddressBook.find in Hf. rewrite Hf.
    destruct (Rcd.edit_phone r old new); intros H; now inversion H.
  - unfold add_birthday_body, bind, lift, gets, mutate, ret.
    destruct (unpack2 args) as [[name bd]|e0];
      [|intros H; now inversion H].
    destruct (AddressBook.find b name) as [r|] eqn:Hf;
      [|intros H; discriminate H].
    unfold AddressBook.find in Hf. rewrite Hf.
    destruct (Rcd.add_birthday r bd); intros H; now inversion H.
Qed.

Lemma failed_change_leaves_book_witness :
  snd (change_contact_body ["bob"; "1234567890"; "12"]
         [("bob", bob_one_phone)])
  = [("bob", bob_one_phone)].
Proof.
  apply (proj1 (failed_change_leaves_book ["bob"; "1234567890"; "12"]
                  [("bob", bob_one_phone)] _
                  (ValueError (Phone.invalid_msg "12")))).
  reflexivity.
Defined.

Lemma invalid_init (p : string) :
  Phone.validate p = false ->
  Phone.init p = Raise (ValueError (Phone.invalid_msg p)).
Proof. intros H. unfold Phone.init. now rewrite H. Qed.

(** X15.  [add] is not all or nothing.  For a new name that passes the
    name check and a phone that [Phone] refuses, the handler reports the
    invalid phone and yet leaves a record for the name, without phones,
    in the book; the next [add] for that name, with a good phone,
    answers "Contact updated.".  For a name already in the book a
    refused phone changes nothing. *)
Theorem add_contact_bad_phone (b : AddressBook.t) (n p : string) :
  Phone.validate p = false ->
  (AddressBook.find b n = None -> str_all isspace n = false ->
   add_contact [n; p] b
   = (Return (Phone.invalid_msg p),
      AddressBook.setitem b n (Rcd.mk (Name.mk n) [] None)) /\
   forall p', Phone.validate p' = true ->
     add_contact [n; p']
       (AddressBook.setitem b n (Rcd.mk (Name.mk n) [] None))
     = (Return "Contact updated.",
        AddressBook.setitem b n (Rcd.mk (Name.mk n) [Phone.mk p'] None))) /\
  (forall r, AddressBook.find b n = Some r ->
             add_contact [n; p] b = (Return (Phone.invalid_msg p), b)).
Proof.
  intros Hp. split.
  - intros Hf Hn. split.
    + unfold add_contact, input_error, add_contact_body, bind, lift, gets,
        modify, mutate, ret, Rcd.init, Rcd.add_phone,
        AddressBook.add_record.
      simpl. rewrite Hf.
      rewrite (strip_nonblank_init n (strip_nonblank n Hn)). simpl.
      rewrite get_setitem_same, (invalid_init p Hp). reflexivity.
    + intros p' Hp'.
      rewrite (add_contact_present _ n p' (Rcd.mk (Name.mk n) [] None)
                 (get_setitem_same b n _) Hp').
      f_equal. apply setitem_setitem.
  - intros r Hf.
    unfold add_contact, input_error, add_contact_body, bind, lift, gets,
      modify, mutate, ret, Rcd.add_phone.
    simpl. rewrite Hf. simpl. unfold AddressBook.find in Hf. rewrite Hf.
    rewrite (invalid_init p Hp). reflexivity.
Qed.

Lemma add_contact_bad_phone_witness :
  add_contact ["carl"; "12"] amy_and_bob
  = (Return (Phone.invalid_msg "12"),
     AddressBook.setitem amy_and_bob "carl"
       (Rcd.mk (Name.mk "carl") [] None)) /\
  add_contact ["amy"; "12"] amy_and_bob
  = (Return (Phone.invalid_msg "12"), amy_and_bob).
Proof.
  split.
  - apply (proj1 (add_contact_bad_phone amy_and_bob "carl" "12" eq_refl));
      reflexivity.
  - apply (proj2 (add_contact_bad_phone amy_and_bob "amy" "12" eq_refl)
             (Rcd.mk (Name.mk "amy")
                [Phone.mk "1234567890"; Phone.mk "1234567891"]
                (Some (Birthday.mk (Date.mk 2000 3 1))))).
    reflexivity.
Defined.

(** X16.  [add] needs two arguments and reads no more than two: with
    fewer it answers "Please provide both name and phone number." and
    changes nothing; with more it does what it does with the first two. *)
Theorem add_contact_arity (args : list string) (b : AddressBook.t) :
  (length args < 2 ->
   add_contact args b
   = (Return "Please provide both name and phone number.", b)) /\
  (forall n p more, args = n :: p :: more ->
                    add_contact args b = add_contact [n; p] b).
Proof.
  split.
  - intros H. unfold add_contact, input_error, add_contact_body.
    apply Nat.ltb_lt in H. rewrite H. reflexivity.
  - intros n p more ->. reflexivity.
Qed.

Lemma add_contact_arity_witness :
  add_contact ["bob"] amy_and_bob
  = (Return "Please provide both name and phone number.", amy_and_bob) /\
  add_contact ["bob"; "1234567890"; "and"; "more"] amy_and_bob
  = add_contact ["bob"; "1234567890"] amy_and_bob.
Proof.
  split.
  - apply (proj1 (add_contact_arity ["bob"] amy_and_bob)). simpl. lia.
  - apply (proj2 (add_contact_arity
                    ["bob"; "1234567890"; "and"; "more"] amy_and_bob)
             "bob" "1234567890" ["and"; "more"]).
    reflexivity.
Defined.

(** ** Dates written and read back *)

Ltac digit_cases k :=
  do 10 (try (destruct k as [|k]; [|try lia])).

Lemma of_uint_acc_dig (k : nat) (d : Decimal.uint) (acc : nat) :
  k <= 9 ->
  Nat.of_uint_acc (dig k d) acc = Nat.of_uint_acc d (k + 10 * acc).
Proof.
  intros H. digit_cases k; simpl Nat.of_uint_acc;
    rewrite Nat.tail_mul_spec; reflexivity.
Qed.

Lemma of_uint_dig4 (a b c d : nat) :
  a <= 9 -> b <= 9 -> c <= 9 -> d <= 9 ->
  Nat.of_uint (dig a (dig b (dig c (dig d Decimal.Nil))))
  = 1000 * a + 100 * b + 10 * c + d.
Proof.
  intros Ha Hb Hc Hd. unfold Nat.of_uint.
  rewrite !of_uint_acc_dig by assumption. simpl Nat.of_uint_acc. lia.
Qed.

Lemma to_uint_dig4 (a b c d : nat) :
  a <= 9 -> b <= 9 -> c <= 9 -> d <= 9 ->
  Nat.to_uint (1000 * a + 100 * b + 10 * c + d)
  = Decimal.unorm (dig a (dig b (dig c (dig d Decimal.Nil)))).
Proof.
  intros Ha Hb Hc Hd. rewrite <- (of_uint_dig4 a b c d Ha Hb Hc Hd).
  apply DecimalNat.Unsigned.to_of.
Qed.

Lemma unorm_dig (k : nat) (d : Decimal.uint) :
  1 <= k <= 9 -> Decimal.unorm (dig k d) = dig k d.
Proof. intros H. digit_cases k; try lia; reflexivity. Qed.

Lemma string_of_dig (k : nat) (d : Decimal.uint) :
  k <= 9 ->
  NilEmpty.string_of_uint (dig k d)
  = String (digit_char k) (NilEmpty.string_of_uint d).
Proof. intros H. digit_cases k; reflexivity. Qed.

Lemma digit_char_val (k : nat) :
  k <= 9 ->
  isdigit (digit_char k) = true /\ digit_val (digit_char k) = Z.of_nat k.
Proof. intros H. digit_cases k; split; reflexivity. Qed.

Lemma year_field_digits (a b c d : nat) :
  a <= 9 -> b <= 9 -> c <= 9 -> d <= 9 ->
  year_field
    (String (digit_char a)
       (String (digit_char b)
          (String (digit_char c) (String (digit_char d) ""))))
  = [(Z.of_nat (1000 * a + 100 * b + 10 * c + d), "")].
Proof.
  intros Ha Hb Hc Hd. unfold year_field.
  destruct (digit_char_val a Ha) as [-> ->].
  destruct (digit_char_val b Hb) as [-> ->].
  destruct (digit_char_val c Hc) as [-> ->].
  destruct (digit_char_val d Hd) as [-> ->].
  unfold alt. simpl andb. cbv iota. do 2 f_equal. lia.
Qed.

(** The year on four digits is what [%Y] reads. *)
Lemma pad4_digits (a b c d : nat) :
  a <= 9 -> b <= 9 -> c <= 9 -> d <= 9 ->
  1 <= 1000 * a + 100 * b + 10 * c + d ->
  pad4 (Z.of_nat (1000 * a + 100 * b + 10 * c + d))
  = String (digit_char a)
      (String (digit_char b)
         (String (digit_char c) (String (digit_char d) ""))).
Proof.
  intros Ha Hb Hc Hd Hn. unfold pad4, nat_str.
  rewrite Nat2Z.id, (to_uint_dig4 a b c d Ha Hb Hc Hd).
  destruct a as [|a].
  - destruct b as [|b].
    + destruct c as [|c].
      * (* one digit *)
        replace (Z.of_nat (1000 * 0 + 100 * 0 + 10 * 0 + d) <? 10)%Z
          with true by (symmetry; apply Z.ltb_lt; lia).
        change (Decimal.unorm (dig 0 (dig 0 (dig 0 (dig d Decimal.Nil)))))
          with (Decimal.unorm (dig d Decimal.Nil)).
        rewrite unorm_dig by lia. rewrite string_of_dig by lia.
        reflexivity.
      * replace (Z.of_nat (1000 * 0 + 100 * 0 + 10 * S c + d) <? 10)%Z
          with false by (symmetry; apply Z.ltb_ge; lia).
        replace (Z.of_nat (1000 * 0 + 100 * 0 + 10 * S c + d) <? 100)%Z
          with true by (symmetry; apply Z.ltb_lt; lia).
        change (Decimal.unorm
                  (dig 0 (dig 0 (dig (S c) (dig d Decimal.Nil)))))
          with (Decimal.unorm (dig (S c) (dig d Decimal.Nil))).
        rewrite unorm_dig by lia. rewrite !string_of_dig by lia.
        reflexivity.
    + replace (Z.of_nat (1000 * 0 + 100 * S b + 10 * c + d) <? 10)%Z
        with false by (symmetry; apply Z.ltb_ge; lia).
      replace (Z.of_nat (1000 * 0 + 100 * S b + 10 * c + d) <? 100)%Z
        with false by (symmetry; apply Z.ltb_ge; lia).
      replace (Z.of_nat (1000 * 0 + 100 * S b + 10 * c + d) <? 1000)%Z
        with true by (symmetry; apply Z.ltb_lt; lia).
      change (Decimal.unorm
                (dig 0 (dig (S b) (dig c (dig d Decimal.Nil)))))
        with (Decimal.unorm (dig (S b) (dig c (dig d Decimal.Nil)))).
      rewrite unorm_dig by lia. rewrite !string_of_dig by lia.
      reflexivity.
  - replace (Z.of_nat (1000 * S a + 100 * b + 10 * c + d) <? 10)%Z
      with false by (symmetry; apply Z.ltb_ge; lia).
    replace (Z.of_nat (1000 * S a + 100 * b + 10 * c + d) <? 100)%Z
      with false by (symmetry; apply Z.ltb_ge; lia).
    replace (Z.of_nat (1000 * S a + 100 * b + 10 * c + d) <? 1000)%Z
      with false by (symmetry; apply Z.ltb_ge; lia).
    rewrite unorm_dig by lia. rewrite !string_of_dig by lia.
    reflexivity.
Qed.

Lemma year_field_digits_rest (a b c d : nat) (r : string) :
  a <= 9 -> b <= 9 -> c <= 9 -> d <= 9 ->
  year_field
    (String (digit_char a)
       (String (digit_char b)
          (String (digit_char c) (String (digit_char d) r))))
  = [(Z.of_nat (1000 * a + 100 * b + 10 * c + d), r)].
Proof.
  intros Ha Hb Hc Hd. unfold year_field.
  destruct (digit_char_val a Ha) as [-> ->].
  destruct (digit_char_val b Hb) as [-> ->].
  destruct (digit_char_val c Hc) as [-> ->].
  destruct (digit_char_val d Hd) as [-> ->].
  unfold alt. simpl andb. cbv iota. do 2 f_equal. lia.
Qed.

(** A year of the calendar, on four digits. *)
Lemma pad4_chars (y : Z) :
  (1 <= y <= 9999)%Z ->
  exists a b c d,
    a <= 9 /\ b <= 9 /\ c <= 9 /\ d <= 9
    /\ y = Z.of_nat (1000 * a + 100 * b + 10 * c + d)
    /\ pad4 y = four_digits a b c d.
Proof.
  intros H. set (n := Z.to_nat y).
  assert (Hy : y = Z.of_nat n) by (unfold n; lia).
  assert (Hn : 1 <= n < 1000 * 10) by (unfold n; lia).
  set (a := n / 1000). set (b := (n / 100) mod 10).
  set (c := (n / 10) mod 10). set (d := n mod 10).
  assert (Hd : n = 1000 * a + 100 * b + 10 * c + d).
  { unfold a, b, c, d.
    pose proof (Nat.div_mod_eq n 10).
    pose proof (Nat.div_mod_eq (n / 10) 10).
    pose proof (Nat.div_mod_eq (n / 100) 10).
    replace (n / 100) with (n / 10 / 10) in *
      by (rewrite Nat.Div0.div_div; reflexivity).
    replace (n / 1000) with (n / 10 / 10 / 10)
      by (rewrite !Nat.Div0.div_div; reflexivity).
    lia. }
  assert (Ha : a <= 9).
  { unfold a. apply Nat.lt_succ_r. apply Nat.Div0.div_lt_upper_bound. lia. }
  assert (Hb : b <= 9)
    by (unfold b; pose proof (Nat.mod_upper_bound (n / 100) 10); lia).
  assert (Hc : c <= 9)
    by (unfold c; pose proof (Nat.mod_upper_bound (n / 10) 10); lia).
  assert (Hd' : d <= 9)
    by (unfold d; pose proof (Nat.mod_upper_bound n 10); lia).
  exists a, b, c, d. repeat (split; [assumption|]).
  split; [now rewrite Hy, Hd|].
  rewrite Hy, Hd. apply pad4_digits; lia.
Qed.

Lemma year_field_pad4 (y : Z) :
  (1 <= y <= 9999)%Z -> year_field (pad4 y) = [(y, "")].
Proof.
  intros H.
  destruct (pad4_chars y H) as (a & b & c & d & Ha & Hb & Hc & Hd & -> & ->).
  apply year_field_digits; assumption.
Qed.

(** Fewer than four characters are no year. *)
Lemma year_field_short (s : string) :
  String.length s <= 3 -> year_field s = [].
Proof.
  destruct s as [|a [|b [|c [|d s]]]]; simpl; try reflexivity. lia.
Qed.

(** From the year 1000 on the year as printed has its four digits. *)
Lemma nat_str_pad4 (y : Z) :
  (1000 <= y)%Z -> nat_str (Z.to_nat y) = pad4 y.
Proof.
  intros H. unfold pad4.
  replace (y <? 10)%Z with false by (symmetry; apply Z.ltb_ge; lia).
  replace (y <? 100)%Z with false by (symmetry; apply Z.ltb_ge; lia).
  replace (y <? 1000)%Z with false by (symmetry; apply Z.ltb_ge; lia).
  reflexivity.
Qed.

(** Below the year 1000 it has at most three. *)
Lemma nat_str_short (y : Z) :
  (1 <= y < 1000)%Z -> String.length (nat_str (Z.to_nat y)) <= 3.
Proof.
  intros H.
  destruct (pad4_chars y ltac:(lia)) as (a & b & c & d & _ & _ & _ & _ & _ & E).
  apply (f_equal String.length) in E. unfold pad4 in E.
  destruct (y <? 10)%Z; [simpl in E; lia|].
  destruct (y <? 100)%Z; [simpl in E; lia|].
  destruct (y <? 1000)%Z eqn:E3; [simpl in E; lia|].
  apply Z.ltb_ge in E3. lia.
Qed.

Lemma days_in_month_le_31 (y m : Z) : (Date.days_in_month y m <= 31)%Z.
Proof.
  unfold Date.days_in_month.
  destruct ((m =? 2)%Z && Date.is_leap y); [lia|].
  unfold Date.DAYS_IN_MONTH.
  destruct m as [|p|p]; try lia.
  do 4 (try (destruct p as [p|p|]; try lia)).
Qed.

Lemma valid_fields (d : Date.t) :
  Date.valid d = true ->
  (1 <= Date.year d <= 9999)%Z /\ (1 <= Date.month d <= 12)%Z
  /\ (1 <= Date.day d <= Date.days_in_month (Date.year d) (Date.month d))%Z.
Proof.
  unfold Date.valid, Date.MINYEAR, Date.MAXYEAR. intros H.
  repeat (apply andb_true_iff in H; destruct H as [H ?]).
  repeat match goal with
         | H : (_ <=? _)%Z = true |- _ => apply Z.leb_le in H
         end.
  lia.
Qed.

Lemma Date_new_of_valid (d : Date.t) :
  Date.valid d = true ->
  Date.new (Date.year d) (Date.month d) (Date.day d) = Return d.
Proof.
  intros H. destruct (valid_fields d H) as (Hy & Hm & Hd).
  unfold Date.new, Date.MINYEAR, Date.MAXYEAR.
  replace ((1 <=? Date.year d)%Z && (Date.year d <=? 9999)%Z) with true
    by (symmetry; apply andb_true_iff; split; apply Z.leb_le; lia).
  replace ((1 <=? Date.month d)%Z && (Date.month d <=? 12)%Z) with true
    by (symmetry; apply andb_true_iff; split; apply Z.leb_le; lia).
  replace ((1 <=? Date.day d)%Z
           && (Date.day d
               <=? Date.days_in_month (Date.year d) (Date.month d))%Z)
    with true
    by (symmetry; apply andb_true_iff; split; apply Z.leb_le; lia).
  destruct d; reflexivity.
Qed.

(** *** From a text to what the matcher finds *)

(** A day written in one of its ways and followed by a dot: the
    matcher goes on with that day and what follows the dot, and with
    nothing else. *)
Lemma day_dot {X} (F : Z -> string -> list X) (n : Z) (td rest : string) :
  (1 <= n <= 31)%Z -> day_text n td ->
  flat_map (fun '(d, r1) => flat_map (F d) (dot r1))
           (day_field (td ++ "." ++ rest))
  = F n rest.
Proof.
  intros Hn [->|[Hlt [->| ->]]];
    (destruct n as [|p|p]; try lia;
     do 5 (try (destruct p as [p|p|]; try lia)));
    simpl; rewrite ?app_nil_r; reflexivity.
Qed.

Lemma month_dot {X} (F : Z -> string -> list X) (n : Z) (tm rest : string) :
  (1 <= n <= 12)%Z -> month_text n tm ->
  flat_map (fun '(m, r3) => flat_map (F m) (dot r3))
           (month_field (tm ++ "." ++ rest))
  = F n rest.
Proof.
  intros Hn [->|[Hlt ->]];
    (destruct n as [|p|p]; try lia;
     do 4 (try (destruct p as [p|p|]; try lia)));
    simpl; rewrite ?app_nil_r; reflexivity.
Qed.

Lemma strptime_matches_text (dd mm : Z) (td tm ys : string) :
  (1 <= dd <= 31)%Z -> (1 <= mm <= 12)%Z ->
  day_text dd td -> month_text mm tm ->
  strptime_matches (td ++ "." ++ tm ++ "." ++ ys)
  = map (fun '(y, r5) => (dd, mm, y, r5)) (year_field ys).
Proof.
  intros Hd Hm Htd Htm. unfold strptime_matches.
  etransitivity.
  { apply (day_dot
             (fun d r2 =>
                flat_map (fun '(m, r3) =>
                  flat_map (fun r4 =>
                    map (fun '(y, r5) => (d, m, y, r5)) (year_field r4))
                    (dot r3))
                  (month_field r2))
             dd td (tm ++ "." ++ ys) Hd Htd). }
  cbv beta.
  apply (month_dot
           (fun m r4 => map (fun '(y, r5) => (dd, m, y, r5)) (year_field r4))
           mm tm ys Hm Htm).
Qed.

(** *** From what the matcher finds to the text *)













(** *** Birthday *)

Lemma Birthday_init_text (d : Date.t) (s : string) :
  Date.valid d = true -> date_text d s ->
  Birthday.init s = Return (Birthday.mk d).
Proof.
  intros Hv (td & tm & Htd & Htm & ->).
  destruct (valid_fields d Hv) as (Hy & Hm & Hd).
  pose proof (days_in_month_le_31 (Date.year d) (Date.month d)) as H31.
  unfold Birthday.init, strptime.
  rewrite (strptime_matches_text (Date.day d) (Date.month d) td tm _
             ltac:(lia) Hm Htd Htm).
  rewrite (year_field_pad4 (Date.year d) Hy). simpl.
  now rewrite (Date_new_of_valid d Hv).
Qed.


(** X17.  What [show-birthday] prints and what [add-birthday] reads.
    A date of the calendar from the year 1000 on, printed by
    [strftime] as in [show-birthday], is read back by [Birthday] as
    the same date.  Below the year 1000 the year is printed without
    its leading zeros and [Birthday] refuses the text. *)
Theorem Birthday_of_strftime (d : Date.t) :
  Date.valid d = true ->
  ((1000 <= Date.year d)%Z ->
   Birthday.init (strftime d) = Return (Birthday.mk d)) /\
  ((Date.year d < 1000)%Z ->
   Birthday.init (strftime d)
   = Raise (ValueError "Invalid date format. Use DD.MM.YYYY")).
Proof.
  intros Hv. destruct (valid_fields d Hv) as (Hy & Hm & Hd).
  pose proof (days_in_month_le_31 (Date.year d) (Date.month d)) as H31.
  split; intros Hyr.
  - apply (Birthday_init_text d (strftime d) Hv).
    exists (pad2 (Date.day d)), (pad2 (Date.month d)).
    split; [now left|]. split; [now left|].
    unfold strftime. now rewrite (nat_str_pad4 _ Hyr).
  - unfold Birthday.init, strptime, strftime.
    rewrite (strptime_matches_text (Date.day d) (Date.month d)
               (pad2 (Date.day d)) (pad2 (Date.month d)) _
               ltac:(lia) Hm (or_introl eq_refl) (or_introl eq_refl)).
    rewrite (year_field_short _ (nat_str_short (Date.year d) ltac:(lia))).
    reflexivity.
Qed.

Lemma Birthday_of_strftime_witness :
  Birthday.init (strftime (Date.mk 2024 2 29))
  = Return (Birthday.mk (Date.mk 2024 2 29)) /\
  Birthday.init (strftime (Date.mk 987 8 7))
  = Raise (ValueError "Invalid date format. Use DD.MM.YYYY").
Proof.
  split.
  - apply (proj1 (Birthday_of_strftime (Date.mk 2024 2 29) eq_refl)).
    intros H. discriminate H.
  - apply (proj2 (Birthday_of_strftime (Date.mk 987 8 7) eq_refl)).
    reflexivity.
Defined.



(** ** Birthdays through the handlers *)

(** X19.  For a contact in the book and a date string that [Birthday]
    accepts, [add-birthday] answers "Birthday added.", and a
    [show-birthday] for the same name then answers that date as
    [strftime] prints it, day and month on two digits and the year
    without leading zeros ("07.08.987" for the year 987), whatever
    birthday the contact had before. *)
Theorem add_then_show_birthday (b : AddressBook.t) (name s : string)
  (r : Rcd.t) (bd : Birthday.t) :
  AddressBook.find b name = Some r ->
  Birthday.init s = Return bd ->
  exists b',
    add_birthday [name; s] b = (Return "Birthday added.", b') /\
    show_birthday [name] b' = (Return (strftime (Birthday.value bd)), b') /\
    AddressBook.find b' name = Some (Rcd.set_birthday r (Some bd)).
Proof.
  intros Hf Hb.
  exists (AddressBook.setitem b name (Rcd.set_birthday r (Some bd))).
  split; [|split].
  - unfold add_birthday, input_error, add_birthday_body, bind, lift, gets,
      mutate, ret, Rcd.add_birthday. simpl.
    rewrite Hf. unfold AddressBook.find in Hf. simpl. rewrite Hf, Hb.
    reflexivity.
  - unfold show_birthday, input_error, show_birthday_body, bind, lift, gets,
      ret, AddressBook.find. simpl.
    rewrite get_setitem_same. reflexivity.
  - apply get_setitem_same.
Qed.

Lemma add_then_show_birthday_witness :
  exists b',
    add_birthday ["bob"; "7.8.0987"] amy_and_bob
    = (Return "Birthday added.", b') /\
    show_birthday ["bob"] b' = (Return "07.08.987", b') /\
    AddressBook.find b' "bob"
    = Some (Rcd.mk (Name.mk "bob") []
              (Some (Birthday.mk (Date.mk 987 8 7)))).
Proof.
  apply (add_then_show_birthday amy_and_bob "bob" "7.8.0987"
           (Rcd.mk (Name.mk "bob") [] None)
           (Birthday.mk (Date.mk 987 8 7))); reflexivity.
Defined.

(** ** The change and phone handlers *)

(** X20.  The [change] handler, case by case.  With fewer than three
    arguments it answers "not enough values to unpack (expected 3, got
    N)", N being the number given, and with more than three "too many
    values to unpack (expected 3)"; the book is unchanged.  For a name
    that is not in the book it answers "Contact not found." and changes
    nothing, without looking at the phones.  For a name in the book
    whose record has not the old phone it answers "Phone updated." and
    changes nothing.  For a name in the book whose record has the old
    phone: a new phone that [Phone] accepts takes the place of the first
    entry equal to the old one and the answer is "Phone updated."; a new
    phone that [Phone] refuses is reported with the message of [Phone]
    and nothing changes. *)
Theorem change_contact_spec (b : AddressBook.t) :
  (forall args, (length args < 3)%nat ->
     change_contact args b
     = (Return ("not enough values to unpack (expected 3, got "
                ++ nat_str (length args) ++ ")"), b)) /\
  (forall args, (3 < length args)%nat ->
     change_contact args b
     = (Return "too many values to unpack (expected 3)", b)) /\
  (forall name old new,
     AddressBook.find b name = None ->
     change_contact [name; old; new] b = (Return "Contact not found.", b)) /\
  (forall name old new r,
     AddressBook.find b name = Some r ->
     ~ In old (Rcd.phone_values r) ->
     change_contact [name; old; new] b = (Return "Phone updated.", b)) /\
  (forall name old new r pre p post,
     AddressBook.find b name = Some r ->
     Rcd.phones r = (pre ++ p :: post)%list ->
     Phone.value p = old -> ~ In old (map Phone.value pre) ->
     (Phone.validate new = true ->
      change_contact [name; old; new] b
      = (Return "Phone updated.",
         AddressBook.setitem b name
           (Rcd.set_phones r (pre ++ Phone.mk new :: post)%list))) /\
     (Phone.validate new = false ->
      change_contact [name; old; new] b
      = (Return (Phone.invalid_msg new), b))).
Proof.
  split; [|split; [|split; [|split]]].
  - intros args Hl. unfold change_contact, input_error, change_contact_body,
      bind, lift.
    destruct args as [|a [|a1 [|a2 l]]]; simpl in *;
      try reflexivity. lia.
  - intros args Hl. unfold change_contact, input_error, change_contact_body,
      bind, lift.
    destruct args as [|a [|a1 [|a2 [|a3 l]]]]; simpl in *;
      try lia. reflexivity.
  - intros name old new Hf.
    unfold change_contact, input_error, change_contact_body, bind, lift,
      gets, ret. simpl. now rewrite Hf.
  - intros name old new r Hf Hold.
    unfold change_contact, input_error, change_contact_body, bind, lift,
      gets, mutate, ret. simpl.
    unfold AddressBook.find in *. rewrite Hf. simpl. rewrite Hf.
    rewrite (edit_phone_absent r old new Hold).
    now rewrite (setitem_get_same b name r Hf).
  - intros name old new r pre p post Hf Hr Hp Hpre.
    assert (E : Rcd.edit_phone r old new
                = rbind (Phone.init new)
                    (fun q => Return (Rcd.set_phones r
                                        (pre ++ q :: post)%list))).
    { unfold Rcd.edit_phone.
      rewrite Hr, (edit_loop_first pre p post old new Hp Hpre).
      destruct (Phone.init new); reflexivity. }
    split; intros Hn;
      unfold change_contact, input_error, change_contact_body, bind, lift,
        gets, mutate, ret; simpl; rewrite Hf; unfold AddressBook.find in Hf;
      simpl; rewrite Hf, E.
    + now rewrite (validate_init new Hn).
    + now rewrite (invalid_init new Hn).
Qed.

Lemma change_contact_spec_witness :
  change_contact ["bob"; "1234567890"] [("bob", bob_one_phone)]
  = (Return "not enough values to unpack (expected 3, got 2)",
     [("bob", bob_one_phone)]) /\
  change_contact ["bob"; "1234567890"; "0987654321"; "now"]
    [("bob", bob_one_phone)]
  = (Return "too many values to unpack (expected 3)",
     [("bob", bob_one_phone)]) /\
  change_contact ["amy"; "1234567890"; "x"] [("bob", bob_one_phone)]
  = (Return "Contact not found.", [("bob", bob_one_phone)]) /\
  change_contact ["bob"; "5555555555"; "x"] [("bob", bob_one_phone)]
  = (Return "Phone updated.", [("bob", bob_one_phone)]) /\
  change_contact ["bob"; "1234567890"; "0987654321"] [("bob", bob_one_phone)]
  = (Return "Phone updated.",
     [("bob", Rcd.mk (Name.mk "bob") [Phone.mk "0987654321"] None)]) /\
  change_contact ["bob"; "1234567890"; "x"] [("bob", bob_one_phone)]
  = (Return (Phone.invalid_msg "x"), [("bob", bob_one_phone)]).
Proof.
  pose proof (change_contact_spec [("bob", bob_one_phone)])
    as (H1 & H1b & H2 & H2b & H3).
  split; [|split; [|split; [|split; [|split]]]].
  - apply (H1 ["bob"; "1234567890"]). simpl. lia.
  - apply (H1b ["bob"; "1234567890"; "0987654321"; "now"]). simpl. lia.
  - apply (H2 "amy" "1234567890" "x"). reflexivity.
  - apply (H2b "bob" "5555555555" "x" bob_one_phone); [reflexivity|].
    simpl. intros [H|[]]. discriminate H.
  - apply (proj1 (H3 "bob" "1234567890" "0987654321" bob_one_phone
                    [] (Phone.mk "1234567890") []
                    eq_refl eq_refl eq_refl (fun f : False => f))).
    reflexivity.
  - apply (proj2 (H3 "bob" "1234567890" "x" bob_one_phone
                    [] (Phone.mk "1234567890") []
                    eq_refl eq_refl eq_refl (fun f : False => f))).
    reflexivity.
Defined.

(** X21.  After an [add] that succeeded, the [phone] handler for that
    name answers the phones the record had before, in order, and then
    the phone just added, joined by "; ". *)
Theorem phone_after_add (b : AddressBook.t) (n p : string) :
  Phone.validate p = true ->
  str_all isspace n = false \/ AddressBook.contains b n = true ->
  exists b',
    snd (add_contact [n; p] b) = b' /\
    show_phone [n] b'
    = (Return (join "; "
                 (match AddressBook.find b n with
                  | Some r => Rcd.phone_values r
                  | None => []
                  end ++ [p])%list), b').
Proof.
  intros Hp Hn. eexists. split; [reflexivity|].
  unfold AddressBook.contains in Hn.
  destruct (AddressBook.find b n) as [r|] eqn:Hf;
    unfold AddressBook.find in Hf; rewrite Hf in Hn.
  - rewrite (add_contact_present b n p r Hf Hp). simpl snd.
    unfold show_phone, input_error, show_phone_body, bind, lift, gets, ret,
      AddressBook.find. simpl. rewrite get_setitem_same.
    unfold Rcd.phone_values. simpl. now rewrite map_app.
  - destruct Hn as [Hn|Hn]; [|discriminate].
    rewrite (add_contact_absent b n p Hf (strip_nonblank n Hn) Hp).
    simpl snd.
    unfold show_phone, input_error, show_phone_body, bind, lift, gets, ret,
      AddressBook.find. simpl. rewrite get_setitem_same. reflexivity.
Qed.

Lemma phone_after_add_witness :
  exists b',
    snd (add_contact ["amy"; "5555555555"] amy_and_bob) = b' /\
    show_phone ["amy"] b'
    = (Return "1234567890; 1234567891; 5555555555", b').
Proof.
  apply (phone_after_add amy_and_bob "amy" "5555555555").
  - reflexivity.
  - right. reflexivity.
Defined.

(** ** The session and the disk *)


Lemma call_cases (h : handler) (args : list string) (w : world) :
  (exists s b', call h args w
                = (Running, mkWorld b' (disk w) (printed w ++ [s])%list)) \/
  (exists e b', call h args w = (Crashed e, mkWorld b' (disk w) (printed w))).
Proof.
  unfold call. destruct (h args (book w)) as [[s|e] b']; eauto.
Qed.

Ltac step_cases :=
  repeat match goal with
         | |- context [if ?c then _ else _] => destruct c
         end.

(** A turn after which the loop goes on leaves the disk alone. *)
Lemma main_step_running_disk (pickle_dumps : AddressBook.t -> bytes)
  (today : Date.t) (user_input : string) (w w' : world) :
  main_step pickle_dumps today user_input w = (Running, w') ->
  disk w' = disk w.
Proof.
  unfold main_step.
  destruct (parse_input user_input) as [[cmd args]|e];
    [|intros H; discriminate H].
  destruct (String.eqb cmd "close" || String.eqb cmd "exit").
  - destruct (save_data _ _ _ _) as [[u|e] d']; intros H; discriminate H.
  - step_cases; intros H;
      try (inversion H; reflexivity);
      match type of H with
      | call ?h ?a ?w = _ =>
          destruct (call_cases h a w) as [(s & b' & E)|(e & b' & E)];
          rewrite E in H; inversion H; reflexivity
      end.
Qed.


(** A turn that ends the session has saved the book it had, has changed
    nothing in it, and has printed the farewell. *)
Lemma main_step_exited (pickle_dumps : AddressBook.t -> bytes)
  (today : Date.t) (user_input : string) (w w' : world) :
  main_step pickle_dumps today user_input w = (Exited, w') ->
  book w' = book w /\
  disk w' = fs_write (disk w) default_filename (pickle_dumps (book w)) /\
  printed w' = (printed w ++ ["Good bye!"])%list.
Proof.
  unfold main_step.
  destruct (parse_input user_input) as [[cmd args]|e];
    [|intros H; discriminate H].
  destruct (String.eqb cmd "close" || String.eqb cmd "exit").
  - destruct (save_data _ _ _ _) as [[[]|e] d'] eqn:E; intros H;
      inversion H; subst. simpl.
    now rewrite (save_data_writes _ _ _ _ _ E).
  - step_cases; intros H;
      try (discriminate H);
      match type of H with
      | call ?h ?a ?w = _ =>
          destruct (call_cases h a w) as [(s & b' & E)|(e & b' & E)];
          rewrite E in H; discriminate H
      end.
Qed.



Lemma main_loop_exited (pickle_dumps : AddressBook.t -> bytes)
  (today : Date.t) (inputs : list string) (w w' : world) :
  main_loop pickle_dumps today inputs w = (Exited, w') ->
  disk w' = fs_write (disk w) default_filename (pickle_dumps (book w')) /\
  last (printed w') "" = "Good bye!" /\
  (forall more, main_loop pickle_dumps today (inputs ++ more) w
                = (Exited, w')).
Proof.
  revert w. induction inputs as [|line rest IH]; simpl; intros w H;
    [discriminate H|].
  destruct (main_step pickle_dumps today line w) as [[| |e1] w1] eqn:E;
    [| |discriminate H].
  - destruct (IH w1 H) as (Hd & Hl & Hm).
    rewrite (main_step_running_disk pickle_dumps today line w w1 E) in Hd.
    repeat split; auto.
  - inversion H; subst w1.
    destruct (main_step_exited pickle_dumps today line w w' E)
      as (Hb & Hd & Hpr).
    split; [now rewrite Hb|]. split; [rewrite Hpr; apply last_last|].
    reflexivity.
Qed.

Lemma exit_loads (pickle_dumps : AddressBook.t -> bytes)
  (pickle_loads : bytes -> result AddressBook.t)
  (today : Date.t) (inputs : list string) (w w' : world) :
  main_loop pickle_dumps today inputs w = (Exited, w') ->
  pickle_loads (pickle_dumps (book w')) = Return (book w') ->
  load_data pickle_loads default_filename (disk w') = Return (book w').
Proof.
  intros H Hp.
  destruct (main_loop_exited pickle_dumps today inputs w w' H) as (Hd & _).
  rewrite Hd. unfold load_data. rewrite load_data_written, Hp. reflexivity.
Qed.

(** X23.  A session that ends on [close] or [exit] has written, under
    the snapshot name, the pickled book it ended with; its last printed
    line is "Good bye!"; lines typed after the command are not read;
    and, the book being one [pickle] restores, a load from the disk it
    leaves returns that book. *)
Theorem exit_saves_book (pickle_dumps : AddressBook.t -> bytes)
  (pickle_loads : bytes -> result AddressBook.t)
  (today : Date.t) (inputs : list string) (w w' : world) :
  main_loop pickle_dumps today inputs w = (Exited, w') ->
  disk w' = fs_write (disk w) default_filename (pickle_dumps (book w')) /\
  last (printed w') "" = "Good bye!" /\
  (forall more, main_loop pickle_dumps today (inputs ++ more) w
                = (Exited, w')) /\
  (pickle_loads (pickle_dumps (book w')) = Return (book w') ->
   load_data pickle_loads default_filename (disk w') = Return (book w')).
Proof.
  intros H.
  destruct (main_loop_exited pickle_dumps today inputs w w' H)
    as (Hd & Hl & Hm).
  repeat split; auto.
  apply (exit_loads pickle_dumps pickle_loads today inputs w w' H).
Qed.

Lemma exit_saves_book_witness :
  load_data Snapshot.loads default_filename
    (disk (snd (main_loop Snapshot.dumps march_first_2025
                  (leap_session ++ ["Exit"; "add carl 1234567890"])
                  (mkWorld AddressBook.empty no_files []))))
  = Return leap_book.
Proof.
  apply (proj2 (proj2 (proj2
           (exit_saves_book Snapshot.dumps Snapshot.loads march_first_2025
              (leap_session ++ ["Exit"; "add carl 1234567890"])
              (mkWorld AddressBook.empty no_files [])
              (snd (main_loop Snapshot.dumps march_first_2025
                      (leap_session ++ ["Exit"; "add carl 1234567890"])
                      (mkWorld AddressBook.empty no_files [])))
              eq_refl)))).
  vm_compute. reflexivity.
Defined.

(** X24.  Two sessions in a row: when the first ends on [close] or
    [exit] with a book that [pickle] restores, the second, started on
    the disk the first one left, greets and runs its commands on that
    very book. *)
Theorem restart_resumes (pickle_dumps : AddressBook.t -> bytes)
  (pickle_loads : bytes -> result AddressBook.t)
  (today today' : Date.t) (inputs inputs' : list string) (d : fs)
  (w : world) :
  main pickle_dumps pickle_loads today inputs d = (Exited, w) ->
  pickle_loads (pickle_dumps (book w)) = Return (book w) ->
  main pickle_dumps pickle_loads today' inputs' (disk w)
  = main_loop pickle_dumps today' inputs'
      (mkWorld (book w) (disk w) [welcome]).
Proof.
  intros Hm Hp. unfold main in Hm.
  destruct (load_data pickle_loads default_filename d) as [b0|e];
    [|discriminate Hm].
  pose proof (exit_loads pickle_dumps pickle_loads today inputs _ w Hm Hp)
    as Hl.
  unfold main. now rewrite Hl.
Qed.

Lemma restart_resumes_witness :
  main Snapshot.dumps Snapshot.loads march_first_2025 ["phone bob"]
    (disk (snd (main Snapshot.dumps Snapshot.loads march_first_2025
                  (leap_session ++ ["exit"]) no_files)))
  = main_loop Snapshot.dumps march_first_2025 ["phone bob"]
      (mkWorld
         (book (snd (main Snapshot.dumps Snapshot.loads march_first_2025
                       (leap_session ++ ["exit"]) no_files)))
         (disk (snd (main Snapshot.dumps Snapshot.loads march_first_2025
                       (leap_session ++ ["exit"]) no_files)))
         [welcome]).
Proof.
  apply (restart_resumes Snapshot.dumps Snapshot.loads march_first_2025
           march_first_2025 (leap_session ++ ["exit"]) ["phone bob"]
           no_files).
  - reflexivity.
  - vm_compute. reflexivity.
Defined.

(** X25.  A command word the loop does not know is answered with
    "Invalid command.": the book and the disk stay as they are and the
    loop goes on, whatever the arguments. *)
Theorem unknown_command (pickle_dumps : AddressBook.t -> bytes)
  (today : Date.t) (user_input cmd : string) (args : list string)
  (w : world) :
  parse_input user_input = Return (cmd, args) ->
  ~ In cmd known_commands ->
  main_step pickle_dumps today user_input w
  = (Running, print w "Invalid command.").
Proof.
  intros Hp Hn. unfold main_step. rewrite Hp.
  assert (E : forall c, In c known_commands -> String.eqb cmd c = false).
  { intros c Hc. apply String.eqb_neq. intros ->. exact (Hn Hc). }
  unfold known_commands in E. simpl in E.
  rewrite !E by auto 11. reflexivity.
Qed.

Lemma unknown_command_witness :
  main_step Snapshot.dumps march_first_2025 "delete bob"
    (mkWorld amy_and_bob no_files [])
  = (Running, mkWorld amy_and_bob no_files ["Invalid command."]).
Proof.
  apply (unknown_command Snapshot.dumps march_first_2025 "delete bob"
           "delete" ["bob"] (mkWorld amy_and_bob no_files [])).
  - reflexivity.
  - simpl. intros H.
    repeat (destruct H as [H|H]; [discriminate H|]). exact H.
Defined.

Lemma main_step_records_ok (pickle_dumps : AddressBook.t -> bytes)
  (today : Date.t) (user_input : string) (w : world) :
  records_ok (book w) ->
  records_ok (book (snd (main_step pickle_dumps today user_input w))).
Proof.
  intros H. unfold main_step.
  destruct (parse_input user_input) as [[command args]|e]; [|exact H].
  destruct (_ || _).
  { destruct (save_data _ _ _ _) as [[u|e] d']; exact H. }
  step_cases; try exact H; rewrite call_book;
    refine (keeps_input_error records_ok _ _ _ _ H);
    first [ apply keeps_ok_add_contact
          | unfold change_contact_body; keep
          | unfold show_phone_body; keep
          | unfold show_all_body; keep
          | unfold add_birthday_body; keep
          | unfold show_birthday_body; keep
          | unfold birthdays_body; keep ].
Qed.

(** X26.  Whatever the operator types, the book of the session stays in
    good standing: if it starts with distinct keys, each the name of its
    record, and records with a name that is not blank, phones [Phone]
    accepts and a birthday that is a date, so it ends, however the
    session ends; the empty book of a first run is such a start. *)
Theorem session_keeps_book_sound (pickle_dumps : AddressBook.t -> bytes)
  (today : Date.t) (inputs : list string) (w : world) :
  book_inv (book w) -> records_ok (book w) ->
  book_inv (book (snd (main_loop pickle_dumps today inputs w)))
  /\ records_ok (book (snd (main_loop pickle_dumps today inputs w))).
Proof.
  revert w. induction inputs as [|line rest IH]; simpl; intros w Hi Hr;
    [now split|].
  pose proof (main_step_book_inv pickle_dumps today line w Hi) as Hi1.
  pose proof (main_step_records_ok pickle_dumps today line w Hr) as Hr1.
  destruct (main_step pickle_dumps today line w) as [[| |e] w1];
    simpl in *; [now apply IH | now split | now split].
Qed.

Lemma session_keeps_book_sound_witness :
  book_inv (book (snd (main_loop Snapshot.dumps march_first_2025
                         ["add bob 12"; "add bob 1234567890"; "change bob"]
                         (mkWorld AddressBook.empty no_files []))))
  /\ records_ok (book (snd (main_loop Snapshot.dumps march_first_2025
                         ["add bob 12"; "add bob 1234567890"; "change bob"]
                         (mkWorld AddressBook.empty no_files [])))).
Proof.
  apply (session_keeps_book_sound Snapshot.dumps march_first_2025
           ["add bob 12"; "add bob 1234567890"; "change bob"]
           (mkWorld AddressBook.empty no_files [])).
  - split; [constructor | intros k r []].
  - intros k r [].
Defined.

(** ** The birthday query where it answers *)

Lemma upcoming_loop_returns (today next_week : Date.t) (rs : list Rcd.t) :
  forall acc names,
    AddressBook.upcoming_loop today next_week rs acc = Return names ->
    names = (acc ++ map (fun r => Name.value (Rcd.name r))
                        (filter (in_window today next_week) rs))%list
    /\ forallb (replaceable (Date.year today)) rs = true.
Proof.
  induction rs as [|r rs IH]; simpl; intros acc names H.
  - inversion H. now rewrite app_nil_r.
  - unfold in_window, replaceable in *.
    destruct (Rcd.birthday r) as [b|]; [|now apply IH].
    destruct (Date.replace_year (Birthday.value b) (Date.year today))
      as [d|e]; [|discriminate]. simpl in *.
    destruct (Date.le today d && Date.le d next_week).
    + destruct (IH _ _ H) as [-> Hr]. split; [|exact Hr].
      simpl. now rewrite <- app_assoc.
    + now apply IH.
Qed.

(** X27.  Whenever [get_upcoming_birthdays] returns a list, the list is,
    in the order of the book, the names of exactly those records that
    have a birthday whose day and month, put into the year of [today],
    fall between [today] and [today + 7 days], both included; a record
    without birthday is never named and a record is named once. *)
Theorem get_upcoming_birthdays_returns (today : Date.t)
  (b : AddressBook.t) (names : list string) :
  AddressBook.get_upcoming_birthdays today b = Return names ->
  exists next_week,
    Date.add_days today 7 = Return next_week /\
    names = map (fun r => Name.value (Rcd.name r))
                (filter (in_window today next_week) (AddressBook.values b)).
Proof.
  unfold AddressBook.get_upcoming_birthdays.
  destruct (Date.add_days today 7) as [nw|e]; simpl; [|discriminate].
  intros H. exists nw. split; [reflexivity|].
  now destruct (upcoming_loop_returns today nw _ _ _ H).
Qed.

Lemma get_upcoming_birthdays_returns_witness :
  exists next_week,
    Date.add_days march_first_2025 7 = Return next_week /\
    ["amy"] = map (fun r => Name.value (Rcd.name r))
                  (filter (in_window march_first_2025 next_week)
                          (AddressBook.values amy_and_bob)).
Proof.
  apply (get_upcoming_birthdays_returns march_first_2025 amy_and_bob ["amy"]).
  reflexivity.
Defined.

Lemma in_window_month_day (today next_week : Date.t) (r : Rcd.t)
  (bd : Birthday.t) :
  in_window today next_week r = true ->
  Rcd.birthday r = Some bd ->
  (Date.month today < Date.month (Birthday.value bd))%Z
  \/ (Date.month today = Date.month (Birthday.value bd)
      /\ (Date.day today <= Date.day (Birthday.value bd))%Z).
Proof.
  unfold in_window. intros H Hb. rewrite Hb in H.
  destruct (Date.replace_year (Birthday.value bd) (Date.year today))
    as [d|e] eqn:E; [|discriminate].
  apply Date_new_valid in E. destruct E as [-> _].
  apply andb_true_iff in H. destruct H as [H _].
  unfold Date.le in H. simpl in H.
  rewrite Z.ltb_irrefl, Z.eqb_refl in H. simpl in H.
  apply orb_true_iff in H. destruct H as [H|H].
  - left. now apply Z.ltb_lt.
  - apply andb_true_iff in H. destruct H as [H1 H2].
    right. split; [now apply Z.eqb_eq | now apply Z.leb_le].
Qed.

(** X28.  The window never reaches into the next year: a name is
    listed only if the day and month of the birthday are not before the
    day and month of [today].  A birthday in the first days of January
    is not announced in the last days of December. *)
Theorem upcoming_not_before_today (today : Date.t) (b : AddressBook.t)
  (names : list string) (n : string) :
  AddressBook.get_upcoming_birthdays today b = Return names ->
  In n names ->
  exists r bd,
    In r (AddressBook.values b) /\ Name.value (Rcd.name r) = n /\
    Rcd.birthday r = Some bd /\
    ((Date.month today < Date.month (Birthday.value bd))%Z
     \/ (Date.month today = Date.month (Birthday.value bd)
         /\ (Date.day today <= Date.day (Birthday.value bd))%Z)).
Proof.
  unfold AddressBook.get_upcoming_birthdays.
  destruct (Date.add_days today 7) as [nw|e]; simpl; [|discriminate].
  intros H Hin. destruct (upcoming_loop_returns today nw _ _ _ H) as [-> _].
  simpl in Hin. apply in_map_iff in Hin. destruct Hin as (r & Hn & Hr).
  apply filter_In in Hr. destruct Hr as [Hr Hw].
  assert (Hb : exists bd, Rcd.birthday r = Some bd).
  { unfold in_window in Hw. destruct (Rcd.birthday r) as [bd|];
      [eauto | discriminate]. }
  destruct Hb as (bd & Hb). exists r, bd.
  repeat split; auto. exact (in_window_month_day today nw r bd Hw Hb).
Qed.

Lemma upcoming_not_before_today_witness :
  AddressBook.get_upcoming_birthdays (Date.mk 2025 12 30) new_year_book
  = Return ["eve"] /\
  exists r bd,
    In r (AddressBook.values new_year_book) /\
    Name.value (Rcd.name r) = "eve" /\
    Rcd.birthday r = Some bd /\
    ((12 < Date.month (Birthday.value bd))%Z
     \/ (12%Z = Date.month (Birthday.value bd)
         /\ (30 <= Date.day (Birthday.value bd))%Z)).
Proof.
  split; [reflexivity|].
  apply (upcoming_not_before_today (Date.mk 2025 12 30) new_year_book
           ["eve"] "eve").
  - reflexivity.
  - now left.
Defined.

(** ** Ordinals and dates *)

Lemma all_from_spec (P : Z -> bool) (fuel : nat) :
  forall o, all_from P fuel o = true ->
            forall k, (o <= k < o + Z.of_nat fuel)%Z -> P k = true.
Proof.
  induction fuel as [|f IH]; intros o H k Hk; [lia|].
  simpl in H. apply andb_true_iff in H. destruct H as [Ho Hr].
  destruct (Z.eq_dec k o) as [->|Hne]; [exact Ho|].
  apply (IH (o + 1)%Z Hr). lia.
Qed.

Lemma month_day_checked :
  all_from (month_day_ok true) 365 0 = true
  /\ all_from (month_day_ok false) 365 0 = true.
Proof. split; vm_compute; reflexivity. Qed.

Lemma month_day_spec (leapyear : bool) (n : Z) :
  (0 <= n <= 364)%Z -> month_day_ok leapyear n = true.
Proof.
  intros H. destruct month_day_checked as [Ht Hf].
  destruct leapyear; [apply (all_from_spec _ 365 0%Z Ht)
                     | apply (all_from_spec _ 365 0%Z Hf)]; simpl; lia.
Qed.

Lemma is_leap_spec (y : Z) :
  Date.is_leap y = true <->
  (y mod 4 = 0 /\ (y mod 100 <> 0 \/ y mod 400 = 0))%Z.
Proof.
  unfold Date.is_leap.
  rewrite andb_true_iff, orb_true_iff, negb_true_iff, !Z.eqb_eq, Z.eqb_neq.
  tauto.
Qed.

Lemma is_leap_false (y : Z) :
  Date.is_leap y = false <->
  (y mod 4 <> 0 \/ (y mod 100 = 0 /\ y mod 400 <> 0))%Z.
Proof.
  rewrite <- not_true_iff_false, is_leap_spec.
  destruct (Z.eq_dec (y mod 4) 0), (Z.eq_dec (y mod 100) 0),
    (Z.eq_dec (y mod 400) 0); tauto.
Qed.

(** The days before a year whose place in the 400-, 100- and 4-year
    cycles is known. *)
Lemma days_before_year_cycles (n400 n100 n4 n1 : Z) :
  (0 <= n100 <= 3 -> 0 <= n4 <= 24 -> 0 <= n1 <= 3 ->
   Date.days_before_year (400 * n400 + 100 * n100 + 4 * n4 + n1 + 1)
   = 146097 * n400 + 36524 * n100 + 1461 * n4 + 365 * n1)%Z.
Proof.
  intros H100 H4 H1. unfold Date.days_before_year. cbv zeta.
  replace (400 * n400 + 100 * n100 + 4 * n4 + n1 + 1 - 1)%Z
    with (400 * n400 + 100 * n100 + 4 * n4 + n1)%Z by lia.
  Z.to_euclidean_division_equations. lia.
Qed.

Lemma is_leap_cycles (n400 n100 n4 n1 : Z) :
  (0 <= n100 <= 3 -> 0 <= n4 <= 24 -> 0 <= n1 <= 3 ->
   Date.is_leap (400 * n400 + 100 * n100 + 4 * n4 + n1 + 1)
   = (n1 =? 3) && (negb (n4 =? 24) || (n100 =? 3)))%Z.
Proof.
  intros H100 H4 H1.
  destruct ((n1 =? 3)%Z && (negb (n4 =? 24)%Z || (n100 =? 3)%Z)) eqn:E.
  - apply is_leap_spec.
    apply andb_true_iff in E. destruct E as [E1 E2].
    apply Z.eqb_eq in E1. apply orb_true_iff in E2.
    rewrite negb_true_iff, Z.eqb_neq, Z.eqb_eq in E2.
    Z.to_euclidean_division_equations. lia.
  - apply is_leap_false.
    apply andb_false_iff in E.
    rewrite orb_false_iff, negb_false_iff, Z.eqb_neq, Z.eqb_eq, Z.eqb_neq
      in E.
    Z.to_euclidean_division_equations. lia.
Qed.

Lemma ord2ymd_cases (o : Z) :
  Date.ord2ymd o
  = (let n := o - 1 in
     let n400 := n / 146097 in
     let r400 := n mod 146097 in
     let n100 := r400 / 36524 in
     let r100 := r400 mod 36524 in
     let n4 := r100 / 1461 in
     let r4 := r100 mod 1461 in
     let n1 := r4 / 365 in
     let r1 := r4 mod 365 in
     let y := n400 * 400 + 1 + n100 * 100 + n4 * 4 + n1 in
     if (n1 =? 4) || (n100 =? 4) then Date.mk (y - 1) 12 31
     else
       let '(m, d) :=
         month_day ((n1 =? 3) && (negb (n4 =? 24) || (n100 =? 3))) r1 in
       Date.mk y m d)%Z.
Proof.
  unfold Date.ord2ymd, month_day, Date.DI400Y, Date.DI100Y, Date.DI4Y.
  cbv zeta.
  destruct (_ || _); [reflexivity|].
  match goal with
  | |- (if ?c then _ else _) = _ => destruct c; reflexivity
  end.
Qed.

Lemma divmod_pos (a b : Z) :
  (0 < b -> a = b * (a / b) + a mod b /\ 0 <= a mod b < b)%Z.
Proof.
  intros H. split; [apply Z.div_mod; lia | apply Z.mod_pos_bound; lia].
Qed.

Lemma valid_intro (y m d : Z) :
  (1 <= y <= 9999 -> 1 <= m <= 12 ->
   1 <= d <= Date.days_in_month y m ->
   Date.valid (Date.mk y m d) = true)%Z.
Proof.
  intros Hy Hm Hd. unfold Date.valid, Date.MINYEAR, Date.MAXYEAR.
  cbn [Date.year Date.month Date.day].
  repeat (apply andb_true_iff; split); apply Z.leb_le; lia.
Qed.

Lemma days_in_month_12 (y : Z) : Date.days_in_month y 12 = 31%Z.
Proof. reflexivity. Qed.

Lemma days_before_month_12 (y : Z) :
  Date.days_before_month y 12
  = (334 + (if Date.is_leap y then 1 else 0))%Z.
Proof. reflexivity. Qed.

(** [ord2ymd] inverts [ymd2ord] on the ordinals of the calendar and
    gives dates of the calendar. *)
Lemma ord2ymd_spec (o : Z) :
  (1 <= o <= Date.MAXORDINAL)%Z ->
  Date.valid (Date.ord2ymd o) = true
  /\ Date.toordinal (Date.ord2ymd o) = o.
Proof.
  unfold Date.MAXORDINAL. intros Ho. rewrite ord2ymd_cases. cbv zeta.
  destruct (divmod_pos (o - 1) 146097) as [E400 B400]; [lia|].
  remember ((o - 1) / 146097)%Z as n400.
  remember ((o - 1) mod 146097)%Z as r400.
  destruct (divmod_pos r400 36524) as [E100 B100]; [lia|].
  remember (r400 / 36524)%Z as n100.
  remember (r400 mod 36524)%Z as r100.
  destruct (divmod_pos r100 1461) as [E4 B4]; [lia|].
  remember (r100 / 1461)%Z as n4.
  remember (r100 mod 1461)%Z as r4.
  destruct (divmod_pos r4 365) as [E1 B1]; [lia|].
  remember (r4 / 365)%Z as n1.
  remember (r4 mod 365)%Z as r1.
  clear Heqn400 Heqr400 Heqn100 Heqr100 Heqn4 Heqr4 Heqn1 Heqr1.
  assert (H400 : (0 <= n400 <= 24)%Z) by lia.
  assert (H100 : (0 <= n100 <= 4)%Z) by lia.
  assert (H4 : (0 <= n4 <= 24)%Z) by lia.
  assert (H1 : (0 <= n1 <= 4)%Z) by lia.
  destruct ((n1 =? 4)%Z || (n100 =? 4)%Z) eqn:Esp.
  - (* the last day of a leap year *)
    apply orb_true_iff in Esp. rewrite !Z.eqb_eq in Esp.
    assert (Hy : exists c100 c4,
               (0 <= c100 <= 3 /\ 0 <= c4 <= 24
                /\ (c4 <> 24 \/ c100 = 3)
                /\ n400 * 400 + 1 + n100 * 100 + n4 * 4 + n1 - 1
                   = 400 * n400 + 100 * c100 + 4 * c4 + 3 + 1
                /\ o = 146097 * n400 + 36524 * c100 + 1461 * c4
                       + 365 * 3 + 366)%Z).
    { destruct Esp as [->| ->].
      - exists n100, n4. lia.
      - exists 3%Z, 24%Z. lia. }
    destruct Hy as (c100 & c4 & Hc100 & Hc4 & Hl & -> & Eo).
    assert (Hleap : Date.is_leap (400 * n400 + 100 * c100 + 4 * c4 + 3 + 1)
                    = true).
    { rewrite is_leap_cycles by lia. rewrite Z.eqb_refl. cbn [andb].
      destruct Hl as [Hl| ->]; [|now rewrite Z.eqb_refl, orb_true_r].
      apply Z.eqb_neq in Hl. now rewrite Hl. }
    split.
    + apply valid_intro; [lia | lia | rewrite days_in_month_12; lia].
    + unfold Date.toordinal, Date.ymd2ord.
      cbn [Date.year Date.month Date.day].
      rewrite days_before_month_12, Hleap.
      rewrite days_before_year_cycles by lia. lia.
  - (* any other day *)
    apply orb_false_iff in Esp. rewrite !Z.eqb_neq in Esp.
    pose proof (month_day_spec
                  ((n1 =? 3)%Z && (negb (n4 =? 24)%Z || (n100 =? 3)%Z)) r1)
      as Hmd.
    unfold month_day_ok in Hmd.
    replace (n400 * 400 + 1 + n100 * 100 + n4 * 4 + n1)%Z
      with (400 * n400 + 100 * n100 + 4 * n4 + n1 + 1)%Z by lia.
    pose proof (is_leap_cycles n400 n100 n4 n1) as Hleap.
    pose proof (days_before_year_cycles n400 n100 n4 n1) as Hdby.
    destruct (month_day ((n1 =? 3)%Z && (negb (n4 =? 24)%Z || (n100 =? 3)%Z))
                r1) as [m d].
    specialize (Hmd ltac:(lia)).
    repeat (apply andb_true_iff in Hmd; destruct Hmd as [Hmd ?]).
    repeat match goal with
           | H : (_ <=? _)%Z = true |- _ => apply Z.leb_le in H
           | H : (_ =? _)%Z = true |- _ => apply Z.eqb_eq in H
           end.
    split.
    + apply valid_intro; [lia | lia |].
      unfold Date.days_in_month. rewrite Hleap by lia. lia.
    + unfold Date.toordinal, Date.ymd2ord, Date.days_before_month.
      cbn [Date.year Date.month Date.day].
      rewrite Hleap, Hdby by lia. lia.
Qed.

Ltac month_cases m :=
  destruct m as [|m|m]; try lia;
  do 4 (try (destruct m as [m|m|]; try lia)).

Lemma days_before_year_succ (y : Z) :
  Date.days_before_year (y + 1)
  = (Date.days_before_year y + 365 + (if Date.is_leap y then 1 else 0))%Z.
Proof.
  unfold Date.days_before_year. cbv zeta.
  replace (y + 1 - 1)%Z with y by lia.
  destruct (Date.is_leap y) eqn:E.
  - apply is_leap_spec in E. Z.to_euclidean_division_equations. lia.
  - apply is_leap_false in E. Z.to_euclidean_division_equations. lia.
Qed.

Lemma days_before_year_mono (y1 y2 : Z) :
  (y1 <= y2 -> Date.days_before_year y1 <= Date.days_before_year y2)%Z.
Proof.
  intros H. unfold Date.days_before_year. cbv zeta.
  Z.to_euclidean_division_equations. lia.
Qed.

(** A month ends before any later month of the year begins. *)
Lemma days_before_month_next (y ma mb : Z) :
  (1 <= ma -> ma < mb -> mb <= 12 ->
   Date.days_before_month y ma + Date.days_in_month y ma
   <= Date.days_before_month y mb)%Z.
Proof.
  intros H1 H2 H3.
  unfold Date.days_before_month, Date.days_in_month.
  destruct (Date.is_leap y);
    month_cases ma; month_cases mb; cbn; lia.
Qed.

(** The last day of the year is day 365, or 366 in a leap year. *)
Lemma day_of_year_bound (y m d : Z) :
  (1 <= m <= 12 -> 1 <= d <= Date.days_in_month y m ->
   1 <= Date.days_before_month y m + d
   <= 365 + (if Date.is_leap y then 1 else 0))%Z.
Proof.
  intros Hm Hd. revert Hd.
  unfold Date.days_before_month, Date.days_in_month.
  destruct (Date.is_leap y); month_cases m;
    cbv [Date.DAYS_BEFORE_MONTH Date.DAYS_IN_MONTH Z.eqb Z.ltb Z.compare
         Pos.compare Pos.compare_cont Pos.eqb andb]; lia.
Qed.

Lemma toordinal_year_lt (a b : Date.t) :
  Date.valid a = true -> Date.valid b = true ->
  (Date.year a < Date.year b)%Z ->
  (Date.toordinal a < Date.toordinal b)%Z.
Proof.
  intros Ha Hb Hy.
  destruct (valid_fields a Ha) as (_ & Hma & Hda).
  destruct (valid_fields b Hb) as (_ & Hmb & Hdb).
  pose proof (day_of_year_bound _ _ _ Hma Hda) as Ba.
  pose proof (day_of_year_bound _ _ _ Hmb Hdb) as Bb.
  pose proof (days_before_year_succ (Date.year a)) as Hs.
  pose proof (days_before_year_mono (Date.year a + 1) (Date.year b)
                ltac:(lia)) as Hm.
  unfold Date.toordinal, Date.ymd2ord. lia.
Qed.

Lemma toordinal_month_lt (a b : Date.t) :
  Date.valid a = true -> Date.valid b = true ->
  Date.year a = Date.year b ->
  (Date.month a < Date.month b)%Z ->
  (Date.toordinal a < Date.toordinal b)%Z.
Proof.
  intros Ha Hb Hy Hm.
  destruct (valid_fields a Ha) as (_ & Hma & Hda).
  destruct (valid_fields b Hb) as (_ & Hmb & Hdb).
  pose proof (days_before_month_next (Date.year a) (Date.month a)
                (Date.month b) ltac:(lia) Hm ltac:(lia)) as Hn.
  unfold Date.toordinal, Date.ymd2ord. rewrite <- Hy. lia.
Qed.

(** Dates of the calendar compare as their ordinals do. *)
Lemma le_iff_toordinal (a b : Date.t) :
  Date.valid a = true -> Date.valid b = true ->
  (Date.le a b = true <-> (Date.toordinal a <= Date.toordinal b)%Z).
Proof.
  intros Ha Hb. unfold Date.le.
  destruct (Z.lt_trichotomy (Date.year a) (Date.year b)) as [Hy|[Hy|Hy]].
  - pose proof (toordinal_year_lt a b Ha Hb Hy).
    apply Z.ltb_lt in Hy. rewrite Hy. simpl. split; [lia | reflexivity].
  - destruct (Z.lt_trichotomy (Date.month a) (Date.month b))
      as [Hm|[Hm|Hm]].
    + pose proof (toordinal_month_lt a b Ha Hb Hy Hm).
      rewrite Hy, Z.ltb_irrefl, Z.eqb_refl.
      apply Z.ltb_lt in Hm. rewrite Hm. simpl. split; [lia | reflexivity].
    + unfold Date.toordinal, Date.ymd2ord.
      rewrite Hy, Hm, !Z.ltb_irrefl, !Z.eqb_refl. simpl.
      rewrite Z.leb_le. lia.
    + pose proof (toordinal_month_lt b a Hb Ha (eq_sym Hy) Hm).
      rewrite Hy, Z.ltb_irrefl, Z.eqb_refl.
      replace (Date.month a <? Date.month b)%Z with false
        by (symmetry; apply Z.ltb_ge; lia).
      replace (Date.month a =? Date.month b)%Z with false
        by (symmetry; apply Z.eqb_neq; lia).
      simpl. split; [discriminate | lia].
  - pose proof (toordinal_year_lt b a Hb Ha Hy).
    replace (Date.year a <? Date.year b)%Z with false
      by (symmetry; apply Z.ltb_ge; lia).
    replace (Date.year a =? Date.year b)%Z with false
      by (symmetry; apply Z.eqb_neq; lia).
    simpl. split; [discriminate | lia].
Qed.

(** [d + timedelta(days=n)], when it is a date, is the date of the
    calendar [n] days after [d]. *)
Lemma add_days_returns (d d' : Date.t) (n : Z) :
  Date.add_days d n = Return d' ->
  Date.valid d' = true
  /\ Date.toordinal d' = (Date.toordinal d + n)%Z.
Proof.
  unfold Date.add_days.
  destruct ((0 <? Date.toordinal d + n)%Z
            && (Date.toordinal d + n <=? Date.MAXORDINAL)%Z) eqn:E;
    [|discriminate].
  apply andb_true_iff in E. destruct E as [E1 E2].
  apply Z.ltb_lt in E1. apply Z.leb_le in E2.
  intros H. inversion H; subst d'. apply ord2ymd_spec. lia.
Qed.

Lemma in_window_days (today next_week : Date.t) (r : Rcd.t) :
  Date.valid today = true ->
  Date.add_days today 7 = Return next_week ->
  (in_window today next_week r = true <->
   exists bd d,
     Rcd.birthday r = Some bd /\
     Date.replace_year (Birthday.value bd) (Date.year today) = Return d /\
     (0 <= Date.toordinal d - Date.toordinal today <= 7)%Z).
Proof.
  intros Ht Hn. destruct (add_days_returns today next_week 7 Hn) as [Hv Ho].
  unfold in_window. split.
  - destruct (Rcd.birthday r) as [bd|]; [|discriminate].
    destruct (Date.replace_year (Birthday.value bd) (Date.year today))
      as [d|e] eqn:E; [|discriminate].
    pose proof (proj2 (Date_new_valid _ _ _ _ E)) as Hd.
    intros H. apply andb_true_iff in H. destruct H as [H1 H2].
    apply (le_iff_toordinal today d Ht Hd) in H1.
    apply (le_iff_toordinal d next_week Hd Hv) in H2.
    exists bd, d. repeat split; auto; lia.
  - intros (bd & d & -> & E & Hw). rewrite E.
    pose proof (proj2 (Date_new_valid _ _ _ _ E)) as Hd.
    apply andb_true_iff. split.
    + apply (le_iff_toordinal today d Ht Hd). lia.
    + apply (le_iff_toordinal d next_week Hd Hv). lia.
Qed.

(** X29.  The window in days.  When [get_upcoming_birthdays] returns, a
    name is in the list exactly when it is the name of a record whose
    birthday, put into the year of [today], is a date 0 to 7 days after
    [today]: the birthday of today is listed, the one in a week is, the
    one in eight days is not, nor is yesterday's. *)
Theorem upcoming_window_in_days (today : Date.t) (b : AddressBook.t)
  (names : list string) (n : string) :
  Date.valid today = true ->
  AddressBook.get_upcoming_birthdays today b = Return names ->
  (In n names <->
   exists r bd d,
     In r (AddressBook.values b) /\ Name.value (Rcd.name r) = n /\
     Rcd.birthday r = Some bd /\
     Date.replace_year (Birthday.value bd) (Date.year today) = Return d /\
     (0 <= Date.toordinal d - Date.toordinal today <= 7)%Z).
Proof.
  intros Ht. unfold AddressBook.get_upcoming_birthdays.
  destruct (Date.add_days today 7) as [nw|e] eqn:En; simpl; [|discriminate].
  intros H. destruct (upcoming_loop_returns today nw _ _ _ H) as [-> _].
  simpl. rewrite in_map_iff. split.
  - intros (r & Hn & Hr). apply filter_In in Hr. destruct Hr as [Hr Hw].
    apply (in_window_days today nw r Ht En) in Hw.
    destruct Hw as (bd & d & Hb & Hd & Hw). exists r, bd, d. auto 6.
  - intros (r & bd & d & Hr & Hn & Hb & Hd & Hw).
    exists r. split; [exact Hn|]. apply filter_In. split; [exact Hr|].
    apply (in_window_days today nw r Ht En). eauto.
Qed.

Lemma upcoming_window_in_days_witness :
  In "amy" ["amy"] <->
  exists r bd d,
    In r (AddressBook.values amy_and_bob) /\
    Name.value (Rcd.name r) = "amy" /\
    Rcd.birthday r = Some bd /\
    Date.replace_year (Birthday.value bd) 2025 = Return d /\
    (0 <= Date.toordinal d - Date.toordinal (Date.mk 2025 2 22) <= 7)%Z.
Proof.
  apply (upcoming_window_in_days (Date.mk 2025 2 22) amy_and_bob
           ["amy"] "amy"); reflexivity.
Defined.

(** ** One contact at a time *)

Lemma others_kept_setitem (n : string) (b0 b : AddressBook.t) (v : Rcd.t) :
  others_kept n b0 b -> others_kept n b0 (AddressBook.setitem b n v).
Proof.
  intros H k Hk. rewrite get_setitem_other by congruence. now apply H.
Qed.

Lemma keeps_others_mutate (n : string) (b0 : AddressBook.t)
  (method : Rcd.t -> result Rcd.t) :
  keeps (others_kept n b0) (mutate n method).
Proof.
  intros b Hb. unfold mutate.
  destruct (AddressBook.get b n) as [r|]; [|exact Hb].
  destruct (method r) as [r'|e]; simpl; [|exact Hb].
  now apply others_kept_setitem.
Qed.

Lemma keeps_others_add_contact (b0 : AddressBook.t) (args : list string) :
  keeps (others_kept (nth 0 args "") b0) (add_contact_body args).
Proof.
  unfold add_contact_body.
  destruct (length args <? 2)%nat; [apply keeps_raise|].
  apply keeps_bind; [apply keeps_gets|]. intros found.
  apply (keeps_bind_with _ (fun sm => fst sm = nth 0 args "")).
  - destruct found as [r|]; [apply keeps_ret|].
    apply (keeps_bind_with _
             (fun r => Name.value (Rcd.name r) = nth 0 args ""));
      [apply keeps_lift| |].
    + intros b a b' H. unfold lift in H. inversion H as [[Hi Hb]].
      unfold Rcd.init, Name.init in Hi.
      destruct (String.eqb (strip (nth 0 args "")) ""); [discriminate|].
      simpl in Hi. now inversion Hi.
    + intros a Ha. apply keeps_bind; [|intros; apply keeps_ret].
      intros b Hb. simpl. unfold AddressBook.add_record. rewrite Ha.
      now apply others_kept_setitem.
  - intros b [slot msg] b'. destruct found as [r|].
    + unfold ret. intros H. now inversion H.
    + unfold bind, lift, modify, ret.
      destruct (Rcd.init (nth 0 args "")) as [r|e] eqn:Ei;
        [|discriminate].
      intros H. inversion H; subst. simpl.
      unfold Rcd.init, Name.init in Ei.
      destruct (String.eqb (strip (nth 0 args "")) ""); [discriminate|].
      simpl in Ei. now inversion Ei.
  - intros [slot msg] Hs. simpl in Hs. subst slot.
    apply keeps_bind; [apply keeps_others_mutate | intros; apply keeps_ret].
Qed.

Lemma keeps_others_change (b0 : AddressBook.t) (args : list string) :
  keeps (others_kept (nth 0 args "") b0) (change_contact_body args).
Proof.
  unfold change_contact_body.
  apply (keeps_bind_with _ (fun t => fst (fst t) = nth 0 args ""));
    [apply keeps_lift| |].
  - intros b [[name old] new] b' H. unfold lift in H.
    inversion H as [[Hu Hb]].
    destruct args as [|a [|a' [|a'' [|a''' l]]]]; try discriminate.
    simpl in Hu. now inversion Hu.
  - intros [[name old] new] Hn. simpl in Hn. subst name.
    apply keeps_bind; [apply keeps_gets|]. intros [r|];
      [|apply keeps_ret].
    apply keeps_bind; [apply keeps_others_mutate | intros; apply keeps_ret].
Qed.

Lemma keeps_others_add_birthday (b0 : AddressBook.t) (args : list string) :
  keeps (others_kept (nth 0 args "") b0) (add_birthday_body args).
Proof.
  unfold add_birthday_body.
  apply (keeps_bind_with _ (fun t => fst t = nth 0 args ""));
    [apply keeps_lift| |].
  - intros b [name bd] b' H. unfold lift in H.
    inversion H as [[Hu Hb]].
    destruct args as [|a [|a' [|a'' l]]]; try discriminate.
    simpl in Hu. now inversion Hu.
  - intros [name bd] Hn. simpl in Hn. subst name.
    apply keeps_bind; [apply keeps_gets|]. intros [r|];
      [|apply keeps_ret].
    apply keeps_bind; [apply keeps_others_mutate | intros; apply keeps_ret].
Qed.

(** X30.  A command is about one contact, the one named by its first
    argument: whatever a handler does, with good or bad arguments, every
    other name of the book is looked up afterwards exactly as before. *)
Theorem handlers_touch_one_contact (today : Date.t) (cmd : string)
  (body : handler) (args : list string) (b : AddressBook.t)
  (other : string) :
  In (cmd, body) (handler_bodies today) ->
  other <> nth 0 args "" ->
  AddressBook.find (snd (input_error body args b)) other
  = AddressBook.find b other.
Proof.
  intros Hin Ho.
  assert (K : keeps (others_kept (nth 0 args "") b) (body args)).
  { simpl in Hin.
    repeat (destruct Hin as [Hin|Hin]; [inversion Hin; subst; clear Hin|]);
      try (destruct Hin).
    - apply keeps_others_add_contact.
    - apply keeps_others_change.
    - unfold show_phone_body. keep.
    - unfold show_all_body. keep.
    - apply keeps_others_add_birthday.
    - unfold show_birthday_body. keep.
    - unfold birthdays_body. keep. }
  apply (keeps_input_error _ body args K b); [|exact Ho].
  intros k _. reflexivity.
Qed.

Lemma handlers_touch_one_contact_witness :
  AddressBook.find (snd (add_contact ["bob"; "5555555555"] amy_and_bob))
    "amy"
  = AddressBook.find amy_and_bob "amy".
Proof.
  apply (handlers_touch_one_contact march_first_2025 "add"
           add_contact_body ["bob"; "5555555555"] amy_and_bob "amy").
  - simpl. auto.
  - intros H. discriminate H.
Defined.
